(** * simpleRPC: a shallow embedding of the client, the server dispatcher,
      the multi-server client and the registry, with the properties the
      specification states about them.

    Conventions of the embedding.
    - A Go [uint64] is a [Z] in [0, 2^64); [++] on it wraps ([wrap64]).
    - A Go [string] is a [string] (a sequence of 8-bit characters).
    - A Go [error] result is an [option]: [None] is [nil].
    - A pointer is a reference ([ref]) into an explicit store; a Go map is
      a [gmap].
    - A method whose body runs under a mutex is one atomic function on the
      state; interleavings of goroutines are sequences of such functions.
    - What the outside world answers (the codec, the connection, the clock,
      the random source) is an argument of the function that asks. *)

From stdpp Require Import gmap strings list fin_maps sorting.
From Stdlib Require Import ZArith Lia Ascii.

Local Open Scope Z_scope.

(** ** Go values *)

(** [interface{}] values that travel as arguments, replies and bodies. *)
Inductive any : Type :=
  | AnyNil
  | AnyStruct                      (* struct{}{} *)
  | AnyInt (z : Z)
  | AnyString (s : string).

Definition uint64_modulus : Z := 2 ^ 64.
Definition wrap64 (z : Z) : Z := z mod uint64_modulus.

(** A pointer into a store. *)
Definition ref := nat.
(** A channel is named by a number; the store keeps what was sent on it. *)
Definition chan := nat.

(** ** package codec *)
Module codec.

Record Header : Type := mkHeader {
  ServiceMethod : string;
  Seq : Z;
  Error : string
}.

Definition zeroHeader : Header := mkHeader "" 0 "".

Definition Type_ := string.
Definition GobType : Type_ := "application/gob".
Definition JsonType : Type_ := "application/json".

(** The constructors a [NewCodecFunc] can be. *)
Inductive NewCodecFunc : Type := NewGobCodec.

(** [init] registers the gob codec only. *)
Definition NewCodecFuncMap : gmap string NewCodecFunc :=
  <[GobType := NewGobCodec]> ∅.

(** The [Codec] interface.  A codec value is a state [C]; each method
    returns the next state and its Go results.  [ReadHeader] returns the
    header it filled in; [ReadBody] takes the current content of the
    target ([None] for a nil target) and returns the new content. *)
Class Codec (C : Type) : Type := {
  Close : C → C * option string;
  ReadHeader : C → C * (Header * option string);
  ReadBody : option any → C → C * (any * option string);
  Write : Header → any → C → C * option string
}.

(** A codec over a scripted stream: every read consumes the next item of
    [incoming]; an exhausted stream reads as EOF.  Writes are appended to
    [outgoing]. *)
Record Item : Type := mkItem {
  item_header : Header * option string;
  item_body : any * option string
}.

Record Scripted : Type := mkScripted {
  incoming : list Item;
  outgoing : list (Header * any);
  write_error : option string;
  closed : nat
}.

Definition scripted_Close (c : Scripted) : Scripted * option string :=
  (mkScripted (incoming c) (outgoing c) (write_error c) (S (closed c)), None).

Definition scripted_ReadHeader (c : Scripted)
  : Scripted * (Header * option string) :=
  match incoming c with
  | [] => (c, (zeroHeader, Some "EOF"))
  | i :: rest =>
      (mkScripted rest (outgoing c) (write_error c) (closed c), item_header i)
  end.

Definition scripted_ReadBody (target : option any) (c : Scripted)
  : Scripted * (any * option string) :=
  match incoming c with
  | [] => (c, (default AnyNil target, Some "EOF"))
  | i :: rest =>
      (mkScripted rest (outgoing c) (write_error c) (closed c), item_body i)
  end.

Definition scripted_Write (h : Header) (body : any) (c : Scripted)
  : Scripted * option string :=
  match write_error c with
  | Some e => (c, Some e)
  | None =>
      (mkScripted (incoming c) (outgoing c ++ [(h, body)]) None (closed c),
       None)
  end.

#[global] Instance Scripted_Codec : Codec Scripted := {|
  Close := scripted_Close;
  ReadHeader := scripted_ReadHeader;
  ReadBody := scripted_ReadBody;
  Write := scripted_Write
|}.

End codec.

(** ** package simpleRPC: the client *)
Module simpleRPC.
Import codec.

(** A client-side error value: either an error with a known message, or
    [fmt.Errorf(format)] applied to no operand (its message is what [fmt]
    makes of the format, which this development does not compute). *)
Inductive error_value : Type :=
  | ErrMsg (msg : string)
  | ErrFormat (format : string).

Definition error := option error_value.

Definition errors_New (msg : string) : error := Some (ErrMsg msg).
Definition fmt_Errorf0 (format : string) : error := Some (ErrFormat format).

(** An error returned by the codec, as a Go [error]. *)
Definition of_codec (e : option string) : error := ErrMsg <$> e.

Record Call : Type := mkCall {
  Seq : Z;
  ServiceMethod : string;
  Args : any;
  Reply : any;                   (* what the reply pointer points at *)
  Error : error;
  Done : chan
}.

(** The fields of [Client] the methods below use; the two mutexes are
    the atomicity of the functions. *)
Record Client (C : Type) : Type := mkClient {
  cc : C;
  opt : ref;                     (* *Option, in the store of options *)
  header : Header;
  seq : Z;
  pending : gmap Z ref;
  closing : bool;
  shutdown : bool
}.
Arguments mkClient {C}.
Arguments cc {C}.
Arguments opt {C}.
Arguments header {C}.
Arguments seq {C}.
Arguments pending {C}.
Arguments closing {C}.
Arguments shutdown {C}.

(** The client together with the [Call] objects it shares with its
    callers and the values sent so far on every [Done] channel. *)
Record state (C : Type) : Type := mkState {
  client : Client C;
  calls : gmap ref Call;
  sent : gmap chan (list ref)
}.
Arguments mkState {C}.
Arguments client {C}.
Arguments calls {C}.
Arguments sent {C}.

Definition ErrShutdown : error := errors_New "connection is shut down".

(** A call with its [Error] assigned. *)
Definition with_Error (e : error) (c : Call) : Call :=
  mkCall (Seq c) (ServiceMethod c) (Args c) (Reply c) e (Done c).

Section client.
Context {C : Type} `{!Codec C}.

Definition with_client (f : Client C → Client C) (σ : state C) : state C :=
  mkState (f (client σ)) (calls σ) (sent σ).

(** [call.Error = e], for the call at [r]. *)
Definition set_Error (r : ref) (e : error) (σ : state C) : state C :=
  mkState (client σ) (alter (with_Error e) r (calls σ)) (sent σ).

Definition set_Seq (r : ref) (s : Z) (σ : state C) : state C :=
  mkState (client σ)
    (alter (λ c, mkCall s (ServiceMethod c) (Args c) (Reply c) (Error c) (Done c))
           r (calls σ))
    (sent σ).

Definition set_Reply (r : ref) (v : any) (σ : state C) : state C :=
  mkState (client σ)
    (alter (λ c, mkCall (Seq c) (ServiceMethod c) (Args c) v (Error c) (Done c))
           r (calls σ))
    (sent σ).

(** [call.done()]: [call.Done <- call].  The send is recorded; that a
    full channel would block the sender is not modelled. *)
Definition done (r : ref) (σ : state C) : state C :=
  match calls σ !! r with
  | Some c =>
      mkState (client σ) (calls σ)
        (<[Done c := default [] (sent σ !! Done c) ++ [r]]> (sent σ))
  | None => σ
  end.

Definition Close (σ : state C) : state C * error :=
  let c := client σ in
  if closing c then (σ, ErrShutdown)
  else
    let '(cc', e) := codec.Close (cc c) in
    (with_client (λ _, mkClient cc' (opt c) (header c) (seq c) (pending c) true
                               (shutdown c)) σ,
     of_codec e).

Definition IsAvailable (σ : state C) : bool :=
  negb (shutdown (client σ)) && negb (closing (client σ)).

Definition registerCall (r : ref) (σ : state C) : state C * (Z * error) :=
  let c := client σ in
  if closing c || shutdown c then (σ, (0, ErrShutdown))
  else
    let s := seq c in
    let σ1 := set_Seq r s σ in
    (with_client (λ _, mkClient (cc c) (opt c) (header c) (wrap64 (s + 1))
                               (<[s := r]> (pending c)) (closing c)
                               (shutdown c)) σ1,
     (s, None)).

Definition removeCall (s : Z) (σ : state C) : state C * option ref :=
  let c := client σ in
  (with_client (λ _, mkClient (cc c) (opt c) (header c) (seq c)
                             (delete s (pending c)) (closing c)
                             (shutdown c)) σ,
   pending c !! s).

(** [terminateCalls]: the range over the map visits every entry once,
    in an order Go leaves open; here the order of [map_to_list]. *)
Definition terminateCalls (err : error) (σ : state C) : state C :=
  let c := client σ in
  let σ1 := with_client (λ _, mkClient (cc c) (opt c) (header c) (seq c)
                                     (pending c) (closing c) true) σ in
  foldl (λ σ' kr, done kr.2 (set_Error kr.2 err σ')) σ1
        (map_to_list (pending c)).

Definition set_cc (cc' : C) (σ : state C) : state C :=
  let c := client σ in
  with_client (λ _, mkClient cc' (opt c) (header c) (seq c) (pending c)
                            (closing c) (shutdown c)) σ.

Definition set_header (h : Header) (σ : state C) : state C :=
  let c := client σ in
  with_client (λ _, mkClient (cc c) (opt c) h (seq c) (pending c)
                            (closing c) (shutdown c)) σ.

(** One pass through the body of the loop of [receive]; the result is
    the value of [err] at the end of the pass. *)
Definition receive_iter (σ : state C) : state C * option string :=
  let '(cc1, (h, err)) := ReadHeader (cc (client σ)) in
  let σ1 := set_cc cc1 σ in
  match err with
  | Some _ => (σ1, err)
  | None =>
      let '(σ2, call) := removeCall (codec.Seq h) σ1 in
      match call with
      | None =>
          let '(cc2, (_, err)) := ReadBody None (cc (client σ2)) in
          (set_cc cc2 σ2, err)
      | Some r =>
          if bool_decide (codec.Error h ≠ "") then
            let σ3 := set_Error r (fmt_Errorf0 (codec.Error h)) σ2 in
            let '(cc2, (_, err)) := ReadBody None (cc (client σ3)) in
            (done r (set_cc cc2 σ3), err)
          else
            let target := Reply <$> (calls σ2 !! r) in
            let '(cc2, (v, err)) := ReadBody target (cc (client σ2)) in
            let σ3 := set_Reply r v (set_cc cc2 σ2) in
            let σ4 :=
              match err with
              | Some m => set_Error r (errors_New ("reading body " +:+ m)) σ3
              | None => σ3
              end in
            (done r σ4, err)
      end
  end.

(** [receive]: the loop runs while [err == nil]; [fuel] bounds the
    number of passes.  [None] when the fuel runs out before the loop
    ends. *)
Fixpoint receive (fuel : nat) (σ : state C) : option (state C) :=
  match fuel with
  | O => None
  | S fuel' =>
      let '(σ1, err) := receive_iter σ in
      match err with
      | None => receive fuel' σ1
      | Some _ => Some (terminateCalls (of_codec err) σ1)
      end
  end.

Definition newClientCodec (cc0 : C) (opt0 : ref) : state C :=
  mkState (mkClient cc0 opt0 zeroHeader 1 ∅ false false) ∅ ∅.

Definition send (r : ref) (σ : state C) : state C :=
  let '(σ1, (s, err)) := registerCall r σ in
  match err with
  | Some _ => done r (set_Error r err σ1)
  | None =>
      let sm := default "" (ServiceMethod <$> (calls σ1 !! r)) in
      let args := default AnyNil (Args <$> (calls σ1 !! r)) in
      let σ2 := set_header (mkHeader sm s "") σ1 in
      let '(cc1, werr) := Write (header (client σ2)) args (cc (client σ2)) in
      let σ3 := set_cc cc1 σ2 in
      match werr with
      | Some _ =>
          let '(σ4, call) := removeCall s σ3 in
          match call with
          | Some r' => done r' (set_Error r' (of_codec werr) σ4)
          | None => σ4
          end
      | None => σ3
      end
  end.

(** [&Call{...}]: the new [Call] lives at a fresh reference. *)
Definition new_Call (c : Call) (σ : state C) : state C :=
  mkState (client σ) (<[fresh (dom (calls σ)) := c]> (calls σ)) (sent σ).

(** [Go], for a [done] channel with room (a nil channel is replaced by
    a fresh one of capacity 10; an unbuffered one panics before any
    state changes and is not a case here).  The new [Call] is allocated
    at a fresh reference, which is returned. *)
Definition Go (serviceMethod : string) (args reply : any) (d : chan)
    (σ : state C) : state C * ref :=
  let r := fresh (dom (calls σ)) in
  let σ1 := new_Call (mkCall 0 serviceMethod args reply None d) σ in
  (send r σ1, r).

(** The two arms of the [select] of [CallWithTimeout], for the call
    [r] that its [Go] returned.  Which arm runs, and when, is the
    scheduler's choice. *)
Definition CallWithTimeout_cancelled (ctx_err : string) (r : ref)
    (σ : state C) : state C * error :=
  let s := default 0 (Seq <$> (calls σ !! r)) in
  let '(σ1, _) := removeCall s σ in
  (σ1, errors_New ("rpc client: call failed: " +:+ ctx_err)).

Definition CallWithTimeout_done (r : ref) (σ : state C) : state C * error :=
  (σ, default None (Error <$> (calls σ !! r))).

(** The atomic steps of the client's code.  The first five are the
    methods that run under [client.mu], which are all the code that
    reads or writes [seq], [pending], [closing] and [shutdown]; the
    others are what [Go], [send], [receive] and [CallWithTimeout] do
    between them: allocate a [Call], assign to a field of one, send on
    a [Done] channel, fill the header, and let the codec read or
    write. *)
Inductive action : Type :=
  | MClose
  | MIsAvailable
  | MRegisterCall (r : ref)
  | MRemoveCall (s : Z)
  | MTerminateCalls (err : error)
  | ANew (c : Call)
  | ASetError (r : ref) (e : error)
  | ASetReply (r : ref) (v : any)
  | ADone (r : ref)
  | ASetHeader (h : Header)
  | ACodec (f : C → C).

Inductive result : Type :=
  | RClose (e : error)
  | RIsAvailable (b : bool)
  | RRegisterCall (s : Z) (e : error)
  | RRemoveCall (r : option ref)
  | RDone.

Definition exec (a : action) (σ : state C) : state C * result :=
  match a with
  | MClose => let '(σ', e) := Close σ in (σ', RClose e)
  | MIsAvailable => (σ, RIsAvailable (IsAvailable σ))
  | MRegisterCall r =>
      let '(σ', (s, e)) := registerCall r σ in (σ', RRegisterCall s e)
  | MRemoveCall s => let '(σ', r) := removeCall s σ in (σ', RRemoveCall r)
  | MTerminateCalls err => (terminateCalls err σ, RDone)
  | ANew c => (new_Call c σ, RDone)
  | ASetError r e => (set_Error r e σ, RDone)
  | ASetReply r v => (set_Reply r v σ, RDone)
  | ADone r => (done r σ, RDone)
  | ASetHeader h => (set_header h σ, RDone)
  | ACodec f => (set_cc (f (cc (client σ))) σ, RDone)
  end.

(** A schedule of steps, with the result of each. *)
Fixpoint run (ms : list action) (σ : state C) : state C * list result :=
  match ms with
  | [] => (σ, [])
  | m :: ms' =>
      let '(σ1, x) := exec m σ in
      let '(σ2, xs) := run ms' σ1 in
      (σ2, x :: xs)
  end.

(** The sequence numbers a schedule handed out, oldest first. *)
Definition registered (xs : list result) : list Z :=
  omap (λ x, match x with
             | RRegisterCall s None => Some s
             | _ => None
             end) xs.

(** A client with nothing pending whose counter stands at [s]; the
    client [newClientCodec] makes is the one at 1. *)
Definition client_at (cc0 : C) (opt0 : ref) (s : Z) : state C :=
  mkState (mkClient cc0 opt0 zeroHeader s ∅ false false) ∅ ∅.

(** [n] times over: register a call, then remove it as [receive] does
    when its response arrives; [s] is the counter at the start. *)
Fixpoint cycles (s : Z) (n : nat) : list action :=
  match n with
  | O => []
  | S n' => MRegisterCall 0%nat :: MRemoveCall s :: cycles (s + 1) n'
  end.

End client.

(** *** Options and dialing *)

Definition MagicNumber : Z := 0x3bef5c.

(** Durations are nanoseconds, as in [time.Duration]. *)
Definition Second : Z := 1000000000.

Record Option : Type := mkOption {
  Option_MagicNumber : Z;
  Option_CodecType : codec.Type_;
  Option_ConnectTimeout : Z;
  Option_HandleTimeout : Z
}.

Definition zeroOption : Option := mkOption 0 "" 0 0.

(** [DefaultOption] is a package variable holding a pointer: a reference
    into the store of options, whose cell starts as
    [DefaultOption_value]. *)
Definition DefaultOption : ref := 0%nat.
Definition DefaultOption_value : Option :=
  mkOption MagicNumber GobType (10 * Second) 0.

(** The store of [Option] structs.  A Go pointer is never dangling, so
    [deref] is only ever asked for references the store holds. *)
Definition deref (Σ : gmap ref Option) (o : ref) : Option :=
  default zeroOption (Σ !! o).

Definition set_MagicNumber (m : Z) (v : Option) : Option :=
  mkOption m (Option_CodecType v) (Option_ConnectTimeout v)
           (Option_HandleTimeout v).
Definition set_CodecType (t : codec.Type_) (v : Option) : Option :=
  mkOption (Option_MagicNumber v) t (Option_ConnectTimeout v)
           (Option_HandleTimeout v).

(** [parseOptions(opts ...*Option)]: a nil pointer is [None]. *)
Definition parseOptions (opts : list (option ref)) (Σ : gmap ref Option)
  : gmap ref Option * (ref + string) :=
  match opts with
  | [] => (Σ, inl DefaultOption)
  | None :: _ => (Σ, inl DefaultOption)
  | Some o :: _ =>
      if bool_decide (length opts ≠ 1%nat) then
        (Σ, inr "number of options is more than 1")
      else
        let Σ1 := alter (set_MagicNumber
                           (Option_MagicNumber (deref Σ DefaultOption))) o Σ in
        let Σ2 :=
          if bool_decide (Option_CodecType (deref Σ1 o) = "") then
            alter (set_CodecType (Option_CodecType (deref Σ1 DefaultOption)))
                  o Σ1
          else Σ1 in
        (Σ2, inl o)
  end.

(** An option with the default magic number, and with the gob codec if
    it names none. *)
Definition parsed (v : Option) : Option :=
  mkOption MagicNumber
    (if bool_decide (Option_CodecType v = "") then GobType
     else Option_CodecType v)
    (Option_ConnectTimeout v) (Option_HandleTimeout v).

Definition LF : string := String "010"%char EmptyString.
Definition CR : string := String "013"%char EmptyString.

Definition connected : string := "200 Connected to Gee RPC".
Definition defaultRPCPath : string := "/_simplerpc_".

(** What one side hands to a connection. *)
Inductive wire : Type :=
  | WireBytes (s : string)
  | WireOption (v : Option).      (* the JSON encoding of an [Option] *)

(** A connection as the client sees it: what it has written so far, and
    what the peer and the network are going to answer. *)
Record Conn : Type := mkConn {
  written : list wire;
  conn_closed : bool;
  encode_error : option string;          (* of [Encode(opt)] *)
  echo : Option * option string;         (* of [Decode(opt)] *)
  http_response : string * option string (* [resp.Status] and [err] *)
}.

Definition conn_write (w : wire) (conn : Conn) : Conn :=
  mkConn (written conn ++ [w]) (conn_closed conn) (encode_error conn)
         (echo conn) (http_response conn).

Definition conn_Close (conn : Conn) : Conn :=
  mkConn (written conn) true (encode_error conn) (echo conn)
         (http_response conn).

(** The server's side of the handshake, the part of [ServeConn] before
    [serveCodec], for the result of decoding the preamble. *)
Inductive handshake : Type :=
  | Rejected
  | Accepted (f : NewCodecFunc) (echoed : Option).

Definition ServeConn_handshake (decoded : Option * option string)
  : handshake :=
  let '(opt, err) := decoded in
  match err with
  | Some _ => Rejected
  | None =>
      if bool_decide (Option_MagicNumber opt ≠ MagicNumber) then Rejected
      else
        match NewCodecFuncMap !! Option_CodecType opt with
        | None => Rejected
        | Some f => Accepted f opt
        end
  end.

(** The preamble is accepted when the handshake goes through. *)
Definition accepted (v : Option) : Prop :=
  ∃ f, ServeConn_handshake (v, None) = Accepted f v.

Section dial.
Context {C : Type} `{!Codec C}.
(** [f(conn)] for a registered [NewCodecFunc]. *)
Context (new_codec : NewCodecFunc → Conn → C).
(** [time.Duration.String]. *)
Context (Duration_String : Z → string).

(** The results of a function that builds a client: the connection and
    the store as it leaves them, and the client or the error. *)
Definition built : Type := Conn * gmap ref Option * (state C + string).

Definition NewClient (conn : Conn) (o : ref) (Σ : gmap ref Option) : built :=
  match NewCodecFuncMap !! Option_CodecType (deref Σ o) with
  | None =>
      (conn, Σ, inr ("invalid codec type " +:+ Option_CodecType (deref Σ o)))
  | Some f =>
      match encode_error conn with
      | Some e => (conn_Close conn, Σ, inr e)
      | None =>
          let conn1 := conn_write (WireOption (deref Σ o)) conn in
          match echo conn1 with
          | (_, Some e) => (conn_Close conn1, Σ, inr e)
          | (v, None) =>
              (conn1, <[o := v]> Σ, inl (newClientCodec (new_codec f conn1) o))
          end
      end
  end.

Definition NewHTTPClient (conn : Conn) (o : ref) (Σ : gmap ref Option)
  : built :=
  let conn1 :=
    conn_write (WireBytes ("CONNECT " +:+ defaultRPCPath +:+ " HTTP/1.0"
                           +:+ LF +:+ LF)) conn in
  match http_response conn1 with
  | (status, None) =>
      if bool_decide (status = connected) then NewClient conn1 o Σ
      else (conn1, Σ, inr ("unexpected HTTP response:" +:+ status))
  | (_, Some e) => (conn1, Σ, inr e)
  end.

Definition newClientFunc : Type := Conn → ref → gmap ref Option → built.

(** The result of a dial function: the connection, if one was opened,
    the store, and the client or the error. *)
Definition dialed : Type :=
  option Conn * gmap ref Option * (state C + string).

(** [dialTimeout].  [net_DialTimeout] is what the network answers;
    [timer_first] says that [time.After] fires before [f] delivers its
    result, in which case [f] is still running in its goroutine and none
    of its effects is part of the result. *)
Definition dialTimeout (f : newClientFunc) (net_DialTimeout : Conn + string)
    (timer_first : bool) (opts : list (option ref)) (Σ : gmap ref Option)
  : dialed :=
  match parseOptions opts Σ with
  | (Σ1, inr e) => (None, Σ1, inr e)
  | (Σ1, inl o) =>
      match net_DialTimeout with
      | inr e => (None, Σ1, inr e)
      | inl conn =>
          let timeout := Option_ConnectTimeout (deref Σ1 o) in
          if negb (bool_decide (timeout = 0)) && timer_first then
            (Some (conn_Close conn), Σ1,
             inr ("rpc client: connect timeout: expect within "
                  +:+ Duration_String timeout +:+ " "))
          else
            match f conn o Σ1 with
            | (conn1, Σ2, inl c) => (Some conn1, Σ2, inl c)
            | (conn1, Σ2, inr e) => (Some (conn_Close conn1), Σ2, inr e)
            end
      end
  end.

Definition DialWithTimeout := dialTimeout NewClient.

Definition DialHTTP := dialTimeout NewHTTPClient.

Definition Dial (net_Dial : Conn + string) (opts : list (option ref))
    (Σ : gmap ref Option) : dialed :=
  match parseOptions opts Σ with
  | (Σ1, inr e) => (None, Σ1, inr e)
  | (Σ1, inl o) =>
      match net_Dial with
      | inr e => (None, Σ1, inr e)
      | inl conn =>
          match NewClient conn o Σ1 with
          | (conn1, Σ2, inl c) => (Some conn1, Σ2, inl c)
          | (conn1, Σ2, inr e) => (Some (conn_Close conn1), Σ2, inr e)
          end
      end
  end.

End dial.

(** *** The server: services and the request loop *)

(** [strings.LastIndex(s, sep)] for a separator of one byte: the index of
    its last occurrence, or -1. *)
Fixpoint LastIndex (s : string) (sep : ascii) : Z :=
  match s with
  | EmptyString => -1
  | String a s' =>
      let i := LastIndex s' sep in
      if 0 <=? i then i + 1
      else if Ascii.eqb a sep then 0 else -1
  end.

(** [s[:i]] and [s[i:]], for [0 <= i <= len(s)]. *)
Definition slice_to (s : string) (i : Z) : string :=
  String.substring 0 (Z.to_nat i) s.
Definition slice_from (s : string) (i : Z) : string :=
  String.substring (Z.to_nat i) (String.length s - Z.to_nat i) s.

(** A registered method: the function behind [method.Func] (from the
    argument and the content of the reply slot to the new content and the
    error), what [newArgv] and [newReplyv] build from [ArgType] and
    [ReplyType], and the counter of calls. *)
Record methodType : Type := mkMethodType {
  method_Func : any → any → any * option string;
  newArgv : any;
  newReplyv : any;
  numCalls : Z
}.

Record service : Type := mkService {
  name : string;
  method : gmap string methodType
}.

Record Server : Type := mkServer {
  serviceMap : gmap string service
}.

Definition findService (server : Server) (serviceMethod : string)
  : option service * option methodType * option string :=
  let dot := LastIndex serviceMethod "."%char in
  if dot <? 0 then
    (None, None,
     Some ("rpc server: service/method request ill-formed: " +:+ serviceMethod))
  else
    let serviceName := slice_to serviceMethod dot in
    let methodName := slice_from serviceMethod (dot + 1) in
    match serviceMap server !! serviceName with
    | None =>
        (None, None, Some ("rpc server: can't find service " +:+ serviceName))
    | Some svc =>
        match method svc !! methodName with
        | None =>
            (Some svc, None,
             Some ("rpc server: can't find method " +:+ methodName))
        | Some mtype => (Some svc, Some mtype, None)
        end
    end.

Record request : Type := mkRequest {
  h : Header;
  argv : any;
  replyv : any;
  mtype : option methodType;
  scv : option service
}.

Definition invalidRequest : any := AnyStruct.

Section server.
Context {C : Type} `{!Codec C}.

Definition readRequestHeader (cc : C) : C * (option Header * option string) :=
  let '(cc1, (h, err)) := ReadHeader cc in
  match err with
  | Some _ => (cc1, (None, err))
  | None => (cc1, (Some h, None))
  end.

Definition readRequest (server : Server) (cc : C)
  : C * (option request * option string) :=
  let '(cc1, (h, err)) := readRequestHeader cc in
  match h, err with
  | Some h, None =>
      match findService server (codec.ServiceMethod h) with
      | (svc, Some mtype, None) =>
          let '(cc2, (a, err)) := ReadBody (Some (newArgv mtype)) cc1 in
          (cc2, (Some (mkRequest h a (newReplyv mtype) (Some mtype) svc), err))
      | (svc, mtype, err) =>
          (cc1, (Some (mkRequest h AnyNil AnyNil mtype svc), err))
      end
  | _, _ => (cc1, (None, err))
  end.

(** A failed write is logged and nothing else. *)
Definition sendResponse (cc : C) (h : Header) (body : any) : C :=
  (Write h body cc).1.

Definition set_header_Error (e : string) (h : Header) : Header :=
  mkHeader (codec.ServiceMethod h) (codec.Seq h) e.

(** One pass through the loop of [serveCodec]: the codec afterwards,
    the request handed to a new [handleRequestWithTimeout] goroutine if
    there is one, and whether the loop goes on. *)
Definition serveCodec_iter (server : Server) (cc : C)
  : C * option request * bool :=
  let '(cc1, (req, err)) := readRequest server cc in
  match err with
  | Some e =>
      match req with
      | None => (cc1, None, false)
      | Some req =>
          (sendResponse cc1 (set_header_Error e (h req)) invalidRequest,
           None, true)
      end
  | None => (cc1, req, true)
  end.

(** The loop of [serveCodec], up to the [wg.Wait()]: the codec when the
    loop ends and the requests it dispatched, oldest first.  [None] when
    [fuel] passes do not reach the end of the stream. *)
Fixpoint serveCodec_loop (fuel : nat) (server : Server) (cc : C)
  : option (C * list request) :=
  match fuel with
  | O => None
  | S fuel' =>
      match serveCodec_iter server cc with
      | (cc1, _, false) => Some (cc1, [])
      | (cc1, spawned, true) =>
          match serveCodec_loop fuel' server cc1 with
          | Some (cc2, reqs) =>
              Some (cc2, option_list spawned ++ reqs)
          | None => None
          end
      end
  end.

(** [serveCodec]: after the loop, [wg.Wait()] and [cc.Close()].  The
    requests dispatched are handled by their own goroutines, which write
    their responses on the same codec before [wg.Wait()] returns; those
    writes are not part of this result. *)
Definition serveCodec (fuel : nat) (server : Server) (cc : C)
  : option (C * list request) :=
  '(cc1, reqs) ← serveCodec_loop fuel server cc;
  Some ((codec.Close cc1).1, reqs).

End server.

(** *** The server: registering a service, and handling a request *)

(** A [reflect.Type], as far as the server looks at it: its name, its
    package path, and the value that [newArgv] (for the type of an
    argument) or [newReplyv] (for the type of a reply) builds for it. *)
Record rtype : Type := mkRtype {
  rtype_Name : string;
  rtype_PkgPath : string;
  rtype_new : any
}.

(** A [reflect.Method]: its name, the types of its parameters (the
    receiver first) and of its results, and its function, from the
    argument and the content of the reply to the new content and the
    error. *)
Record Method : Type := mkMethod {
  Method_Name : string;
  Method_In : list rtype;
  Method_Out : list rtype;
  Method_Func : any → any → any * option string
}.

(** What [newService] reflects on: the name of the type of the receiver
    and the methods of its type, in the order of [Method(i)]. *)
Record Receiver : Type := mkReceiver {
  Receiver_Name : string;
  Receiver_Methods : list Method
}.

(** Whether [t] is the type [error], which [registerMethods] gets by
    reflection on a nil pointer to [error]: only the predeclared [error]
    has this name and no package path. *)
Definition is_error_type (t : rtype) : bool :=
  bool_decide (rtype_Name t = "error") && bool_decide (rtype_PkgPath t = "").

Section register.
(** [ast.IsExported]. *)
Context (IsExported : string → bool).

Definition isExportedOrBuiltinType (t : rtype) : bool :=
  IsExported (rtype_Name t) || bool_decide (rtype_PkgPath t = "").

(** One pass through the loop of [registerMethods], for the method
    [Method(i)]: the map of methods afterwards. *)
Definition registerMethod (methods : gmap string methodType) (m : Method)
  : gmap string methodType :=
  if bool_decide (length (Method_In m) ≠ 3%nat)
     || bool_decide (length (Method_Out m) ≠ 1%nat) then methods
  else
    match Method_Out m, Method_In m with
    | [out], [_; argType; replyType] =>
        if negb (is_error_type out) then methods
        else if negb (isExportedOrBuiltinType argType)
                || negb (isExportedOrBuiltinType replyType) then methods
        else <[Method_Name m :=
                 mkMethodType (Method_Func m) (rtype_new argType)
                              (rtype_new replyType) 0]> methods
    | _, _ => methods
    end.

Definition registerMethods (typ : list Method) : gmap string methodType :=
  foldl registerMethod ∅ typ.

(** [newService]; [None] when [log.Fatalf] ends the process. *)
Definition newService (rcvr : Receiver) : option service :=
  if negb (IsExported (Receiver_Name rcvr)) then None
  else Some (mkService (Receiver_Name rcvr)
                       (registerMethods (Receiver_Methods rcvr))).

(** [Register]: the server afterwards and the error; [None] when
    [newService] ends the process. *)
Definition Register (rcvr : Receiver) (server : Server)
  : option (Server * option string) :=
  s ← newService rcvr;
  match serviceMap server !! name s with
  | Some _ => Some (server, Some ("rpc: service already defined:" +:+ name s))
  | None => Some (mkServer (<[name s := s]> (serviceMap server)), None)
  end.

End register.

(** [service.call]: the method with its counter moved, the new content of
    the reply and the error of the method. *)
Definition call (m : methodType) (argv replyv : any)
  : methodType * (any * option string) :=
  (mkMethodType (method_Func m) (newArgv m) (newReplyv m)
                (wrap64 (numCalls m + 1)),
   method_Func m argv replyv).

Definition NumCalls (m : methodType) : Z := numCalls m.

Section handle.
Context {C : Type} `{!Codec C}.
(** [time.Duration.String]. *)
Context (Duration_String : Z → string).

(** [handleRequest]: the codec after the response is sent.  [None] for a
    request without a method, on which [call] panics.  (The counter of the
    method, which [call] moves, is not part of the result.) *)
Definition handleRequest (cc : C) (req : request) : option C :=
  m ← mtype req;
  let '(_, (reply, err)) := call m (argv req) (replyv req) in
  match err with
  | Some e => Some (sendResponse cc (set_header_Error e (h req)) invalidRequest)
  | None => Some (sendResponse cc (h req) reply)
  end.

(** [handleRequestWithTimeout].  [timer_first] says that [time.After]
    fires before the goroutine that calls the method sends on [called];
    that goroutine then stays blocked on [called] and writes nothing. *)
Definition handleRequestWithTimeout (cc : C) (req : request) (timeout : Z)
    (timer_first : bool) : option C :=
  if negb (bool_decide (timeout = 0)) && timer_first then
    _ ← mtype req;
    Some (sendResponse cc
            (set_header_Error
               ("rpc server: request handle timeout expect within "
                +:+ Duration_String timeout) (h req))
            invalidRequest)
  else handleRequest cc req.

End handle.

(** *** strings *)

(** [strings.Split(s, sep)] for a separator of one byte. *)
Fixpoint Split (s : string) (sep : ascii) : list string :=
  match s with
  | EmptyString => [EmptyString]
  | String a s' =>
      if Ascii.eqb a sep then EmptyString :: Split s' sep
      else
        match Split s' sep with
        | piece :: rest => String a piece :: rest
        | [] => [String a EmptyString]
        end
  end.

Section xdial.
Context {C : Type} `{!Codec C}.
Context (new_codec : NewCodecFunc → Conn → C).
Context (Duration_String : Z → string).

(** [XDial]; [net network address] is what [net.DialTimeout] answers. *)
Definition XDial (net : string → string → Conn + string) (timer_first : bool)
    (rpcAddr : string) (opts : list (option ref)) (Σ : gmap ref Option)
  : dialed (C := C) :=
  match Split rpcAddr "@"%char with
  | [protocol; addr] =>
      if bool_decide (protocol = "http") then
        DialHTTP new_codec Duration_String (net "tcp" addr) timer_first opts Σ
      else
        DialWithTimeout new_codec Duration_String (net protocol addr)
                        timer_first opts Σ
  | _ =>
      (None, Σ,
       inr ("rpc client err: wrong format '" +:+ rpcAddr
            +:+ "', expect protocol@addr"))
  end.

End xdial.
End simpleRPC.

(** ** package xclient *)
Module xclient.

(** *** math/rand, as far as [Intn] goes

    A [*rand.Rand] is the sequence of values its source is going to give
    to [Int63], each in [0, 2^63).  The functions follow the Go library:
    they return the number and the rest of the sequence, [None] when the
    library panics or the sequence ends before the number is found. *)
Definition Rand : Type := list Z.

Definition Int63 (r : Rand) : option (Z * Rand) :=
  match r with
  | [] => None
  | v :: r' => Some (v, r')
  end.

Definition Int31 (r : Rand) : option (Z * Rand) :=
  '(v, r') ← Int63 r; Some (Z.shiftr v 32, r').

(** The loop [for v > max { v = r.Int31() }] of [Int31n]. *)
Fixpoint Int31n_retry (max n : Z) (r : Rand) : option (Z * Rand) :=
  match r with
  | [] => None
  | v :: r' =>
      if max <? Z.shiftr v 32 then Int31n_retry max n r'
      else Some (Z.shiftr v 32 mod n, r')
  end.

Definition Int31n (n : Z) (r : Rand) : option (Z * Rand) :=
  if n <=? 0 then None
  else if Z.land n (n - 1) =? 0 then
    '(v, r') ← Int31 r; Some (Z.land v (n - 1), r')
  else
    let max := 2 ^ 31 - 1 - (2 ^ 31) mod n in
    Int31n_retry max n r.

(** The loop [for v > max { v = r.Int63() }] of [Int63n]. *)
Fixpoint Int63n_retry (max n : Z) (r : Rand) : option (Z * Rand) :=
  match r with
  | [] => None
  | v :: r' =>
      if max <? v then Int63n_retry max n r'
      else Some (v mod n, r')
  end.

Definition Int63n (n : Z) (r : Rand) : option (Z * Rand) :=
  if n <=? 0 then None
  else if Z.land n (n - 1) =? 0 then
    '(v, r') ← Int63 r; Some (Z.land v (n - 1), r')
  else
    let max := 2 ^ 63 - 1 - (2 ^ 63) mod n in
    Int63n_retry max n r.

Definition Intn (n : Z) (r : Rand) : option (Z * Rand) :=
  if n <=? 0 then None
  else if n <=? 2 ^ 31 - 1 then Int31n n r
  else Int63n n r.

Definition MaxInt32 : Z := 2 ^ 31 - 1.

(** *** Discovery *)

Record MultiServersDiscovery : Type := mkMultiServersDiscovery {
  r : Rand;
  servers : list string;
  index : Z
}.

(** [seeded] is [rand.New(rand.NewSource(time.Now().UnixNano()))]. *)
Definition NewMultiServerDiscovery (servers : list string) (seeded : Rand)
  : option MultiServersDiscovery :=
  '(i, r') ← Intn (MaxInt32 - 1) seeded;
  Some (mkMultiServersDiscovery r' servers i).

(** *** Broadcast *)

(** The variables the goroutines of [Broadcast] share under [mu]:
    [cancels] counts the calls of [cancel]; [reply] is what the caller's
    reply points at, [None] for a nil [reply]. *)
Record shared : Type := mkShared {
  e : simpleRPC.error;
  cancels : nat;
  reply : option any;
  replyDone : bool
}.

(** What [xc.call] gave one goroutine: [err], and what [clonedReply]
    points at afterwards. *)
Definition outcome : Type := simpleRPC.error * any.

(** The critical section of one goroutine. *)
Definition critical (o : outcome) (s : shared) : shared :=
  let '(err, clonedReply) := o in
  let s1 :=
    if bool_decide (err ≠ None) && bool_decide (e s = None) then
      mkShared err (S (cancels s)) (reply s) (replyDone s)
    else s in
  if bool_decide (err = None) && negb (replyDone s1) then
    mkShared (e s1) (cancels s1) (Some clonedReply) true
  else s1.

(** [Broadcast], for what [GetAll] returns and for the outcomes of the
    goroutines, one for each server, in the order in which they take
    [mu].  The result is the shared variables when [wg.Wait()] returns,
    and the error returned. *)
Definition Broadcast (GetAll : list string * simpleRPC.error)
    (reply : option any) (outcomes : list outcome)
  : shared * simpleRPC.error :=
  let s0 := mkShared None 0 reply (bool_decide (reply = None)) in
  match GetAll with
  | (_, Some err) => (s0, Some err)
  | (servers, None) =>
      let s := foldl (λ s o, critical o s) s0 outcomes in
      (s, e s)
  end.

(** The errors of the goroutines, and the replies of those without an
    error, in the order in which they take the mutex. *)
Definition errors_of (outcomes : list outcome) : list simpleRPC.error_value :=
  omap fst outcomes.
Definition replies_of (outcomes : list outcome) : list any :=
  omap (λ o : outcome, match o.1 with None => Some o.2 | Some _ => None end)
       outcomes.

(** *** Discovery: the methods of [MultiServersDiscovery] *)

(** A Go [int] is a [Z] in [-2^63, 2^63); [+] on it wraps. *)
Definition wrap_int (z : Z) : Z := (z + 2 ^ 63) mod 2 ^ 64 - 2 ^ 63.

Definition SelectMode : Type := Z.
Definition RandomSelect : SelectMode := 0.
Definition RoundRobinSelect : SelectMode := 1.

Definition MultiServersDiscovery_Refresh (d : MultiServersDiscovery)
  : MultiServersDiscovery * option string := (d, None).

Definition MultiServersDiscovery_Update (servers' : list string)
    (d : MultiServersDiscovery) : MultiServersDiscovery * option string :=
  (mkMultiServersDiscovery (r d) servers' (index d), None).

(** [Get]: the discovery afterwards, the address and the error.  [None]
    when the code panics (an index out of range) or the random source
    ends.  [%] is Go's remainder, which has the sign of the dividend. *)
Definition MultiServersDiscovery_Get (mode : SelectMode)
    (d : MultiServersDiscovery)
  : option (MultiServersDiscovery * (string * option string)) :=
  let n := Z.of_nat (length (servers d)) in
  if n =? 0 then
    Some (d, (EmptyString, Some "rpc discovery: no available servers"))
  else if mode =? RandomSelect then
    '(i, r') ← Intn n (r d);
    s ← servers d !! Z.to_nat i;
    Some (mkMultiServersDiscovery r' (servers d) (index d), (s, None))
  else if mode =? RoundRobinSelect then
    let i := Z.rem (index d) n in
    if i <? 0 then None
    else
      s ← servers d !! Z.to_nat i;
      Some (mkMultiServersDiscovery (r d) (servers d)
              (Z.rem (wrap_int (index d + 1)) n),
            (s, None))
  else
    Some (d, (EmptyString, Some "rpc discovery: not supported select mode")).

(** [GetAll] returns a copy of the list. *)
Definition MultiServersDiscovery_GetAll (d : MultiServersDiscovery)
  : list string * option string := (servers d, None).

(** [k] calls of [Get] in a row: the discovery afterwards and the
    addresses returned, oldest first.  [None] when one of the calls
    panics or returns an error. *)
Fixpoint MultiServersDiscovery_Gets (mode : SelectMode) (k : nat)
    (d : MultiServersDiscovery)
  : option (MultiServersDiscovery * list string) :=
  match k with
  | O => Some (d, [])
  | S k' =>
      match MultiServersDiscovery_Get mode d with
      | Some (d1, (s, None)) =>
          '(d2, l) ← MultiServersDiscovery_Gets mode k' d1; Some (d2, s :: l)
      | _ => None
      end
  end.

(** *** Discovery: [SimpleRegistryDiscovery] *)

(** A [time.Time] is a number of nanoseconds since the Unix epoch; the
    zero [time.Time] is the start of year 1. *)
Definition zeroTime : Z := -62135596800 * simpleRPC.Second.

Definition defaultUpdateTimeout : Z := 10 * simpleRPC.Second.

Record SimpleRegistryDiscovery : Type := mkSimpleRegistryDiscovery {
  embedded : MultiServersDiscovery;   (* the embedded *MultiServersDiscovery *)
  registry : string;
  timeout : Z;
  lastUpdate : Z
}.

Definition NewSimpleRegistryDiscovery (registerAddr : string) (timeout : Z)
    (seeded : Rand) : option SimpleRegistryDiscovery :=
  let timeout := if timeout =? 0 then defaultUpdateTimeout else timeout in
  d ← NewMultiServerDiscovery [] seeded;
  Some (mkSimpleRegistryDiscovery d registerAddr timeout zeroTime).

Definition SimpleRegistryDiscovery_Update (servers' : list string) (now : Z)
    (d : SimpleRegistryDiscovery) : SimpleRegistryDiscovery * option string :=
  (mkSimpleRegistryDiscovery
     (mkMultiServersDiscovery (r (embedded d)) servers' (index (embedded d)))
     (registry d) (timeout d) now,
   None).

Section registry_discovery.
(** [strings.TrimSpace]. *)
Context (TrimSpace : string → string).

(** The loop of [Refresh] over the pieces of the header. *)
Definition trimmed_servers (pieces : list string) : list string :=
  foldl (λ acc server,
           if bool_decide (TrimSpace server ≠ EmptyString)
           then acc ++ [TrimSpace server] else acc)
        [] pieces.

(** [Refresh].  [now1] and [now2] are the two readings of the clock;
    [http_Get] is what [http.Get(d.registry)] answers: the value of the
    [X-Simplerpc-Servers] header of the response, or the error. *)
Definition SimpleRegistryDiscovery_Refresh (now1 now2 : Z)
    (http_Get : string + string) (d : SimpleRegistryDiscovery)
  : SimpleRegistryDiscovery * option string :=
  if now1 <? lastUpdate d + timeout d then (d, None)
  else
    match http_Get with
    | inr err => (d, Some err)
    | inl header =>
        (mkSimpleRegistryDiscovery
           (mkMultiServersDiscovery (r (embedded d))
              (trimmed_servers (simpleRPC.Split header ","%char))
              (index (embedded d)))
           (registry d) (timeout d) now2,
         None)
    end.

Definition SimpleRegistryDiscovery_Get (mode : SelectMode) (now1 now2 : Z)
    (http_Get : string + string) (d : SimpleRegistryDiscovery)
  : option (SimpleRegistryDiscovery * (string * option string)) :=
  match SimpleRegistryDiscovery_Refresh now1 now2 http_Get d with
  | (d1, Some err) => Some (d1, (EmptyString, Some err))
  | (d1, None) =>
      '(m, res) ← MultiServersDiscovery_Get mode (embedded d1);
      Some (mkSimpleRegistryDiscovery m (registry d1) (timeout d1)
              (lastUpdate d1), res)
  end.

Definition SimpleRegistryDiscovery_GetAll (now1 now2 : Z)
    (http_Get : string + string) (d : SimpleRegistryDiscovery)
  : SimpleRegistryDiscovery * (list string * option string) :=
  match SimpleRegistryDiscovery_Refresh now1 now2 http_Get d with
  | (d1, Some err) => (d1, ([], Some err))
  | (d1, None) => (d1, MultiServersDiscovery_GetAll (embedded d1))
  end.

End registry_discovery.

(** *** The cache of clients of [XClient] *)

(** The fields of [XClient] that [dial] and [Close] use: the option, a
    pointer that may be nil, and the map from addresses to clients, which
    are pointers into a store of clients. *)
Record XClient : Type := mkXClient {
  opt : option ref;
  clients : gmap string ref
}.

Definition NewXClient (opt : option ref) : XClient := mkXClient opt ∅.

Section xclient_cache.
Context {C : Type} `{!codec.Codec C}.
Context (new_codec : codec.NewCodecFunc → simpleRPC.Conn → C).
Context (Duration_String : Z → string).

(** The store of clients. *)
Definition store : Type := gmap ref (simpleRPC.state C).

(** [XClient.Close]: every client of the map is closed and deleted. *)
Definition XClient_Close (xc : XClient) (H : store)
  : XClient * store * option string :=
  let '(clients', H') :=
    foldl (λ acc kc,
             (delete kc.1 acc.1,
              match acc.2 !! kc.2 with
              | Some σ => <[kc.2 := (simpleRPC.Close σ).1]> acc.2
              | None => acc.2
              end))
          (clients xc, H) (map_to_list (clients xc)) in
  (mkXClient (opt xc) clients', H', None).

(** [dial]: the cache, the store of clients and the store of options
    afterwards, and the client or the error. *)
Definition dial (net : string → string → simpleRPC.Conn + string)
    (timer_first : bool) (rpcAddr : string) (xc : XClient) (H : store)
    (Σ : gmap ref simpleRPC.Option)
  : XClient * store * gmap ref simpleRPC.Option * (ref + string) :=
  let '(xc1, H1, client) :=
    match clients xc !! rpcAddr with
    | Some c =>
        match H !! c with
        | Some σ =>
            if negb (simpleRPC.IsAvailable σ) then
              (mkXClient (opt xc) (delete rpcAddr (clients xc)),
               <[c := (simpleRPC.Close σ).1]> H, None)
            else (xc, H, Some c)
        | None => (xc, H, Some c)   (* no pointer of the map is dangling *)
        end
    | None => (xc, H, None)
    end in
  match client with
  | Some c => (xc1, H1, Σ, inl c)
  | None =>
      match simpleRPC.XDial new_codec Duration_String net timer_first rpcAddr
                            [opt xc] Σ with
      | (_, Σ', inr err) => (xc1, H1, Σ', inr err)
      | (_, Σ', inl σ) =>
          let c := fresh (dom H1) in
          (mkXClient (opt xc1) (<[rpcAddr := c]> (clients xc1)),
           <[c := σ]> H1, Σ', inl c)
      end
  end.

End xclient_cache.

End xclient.

(** ** package registry *)
Module registry.

(** A [time.Time] is a number of nanoseconds on the clock that
    [time.Now] reads; a [time.Duration] is a number of nanoseconds. *)
Record ServerItem : Type := mkServerItem {
  Addr : string;
  start : Z
}.

Record SimpleRegistry : Type := mkSimpleRegistry {
  timeout : Z;
  servers : gmap string ServerItem
}.

Definition New (timeout : Z) : SimpleRegistry := mkSimpleRegistry timeout ∅.

Definition putServer (addr : string) (now : Z) (r : SimpleRegistry)
  : SimpleRegistry :=
  match servers r !! addr with
  | None =>
      mkSimpleRegistry (timeout r)
        (<[addr := mkServerItem addr now]> (servers r))
  | Some s =>
      mkSimpleRegistry (timeout r)
        (<[addr := mkServerItem (Addr s) now]> (servers r))
  end.

(** The condition under which [aliveServers] keeps an entry. *)
Definition alive (timeout now : Z) (s : ServerItem) : bool :=
  (timeout =? 0) || (now <? start s + timeout).

(** Go compares strings byte by byte. *)
Definition string_le (s1 s2 : string) : Prop := String.leb s1 s2 = true.

#[global] Instance string_le_dec s1 s2 : Decision (string_le s1 s2).
Proof. unfold string_le. apply _. Defined.

(** [sort.Strings]: the list in increasing order. *)
Definition sort_Strings (l : list string) : list string :=
  merge_sort string_le l.

(** [aliveServers]: the range visits every entry once, in an order Go
    leaves open; here the order of [map_to_list].  The condition reads
    the clock anew for every entry: [now addr] is the reading for the
    entry of [addr]. *)
Definition aliveServers (now : string → Z) (r : SimpleRegistry)
  : SimpleRegistry * list string :=
  let '(alive_, servers') :=
    foldl (λ acc kv,
             if alive (timeout r) (now kv.1) kv.2
             then (acc.1 ++ [kv.1], acc.2)
             else (acc.1, delete kv.1 acc.2))
          ([], servers r) (map_to_list (servers r)) in
  (mkSimpleRegistry (timeout r) servers', sort_Strings alive_).

Definition StatusOK : Z := 200.
Definition StatusInternalServerError : Z := 500.
Definition StatusMethodNotAllowed : Z := 405.

(** The request, as far as [ServeHTTP] looks at it: the method and what
    [req.Header.Get("X-Simplerpc-Servers")] returns. *)
Record Request : Type := mkRequest {
  Method : string;
  X_Simplerpc_Servers : string
}.

(** The response: the status ([StatusOK] when [WriteHeader] is not
    called) and the [X-Simplerpc-Servers] header, if set. *)
Record Response : Type := mkResponse {
  status : Z;
  servers_header : option string
}.

(** [ServeHTTP].  [GET] calls [aliveServers] twice, once for the line it
    prints and once for the header: [now1] and [now2] are the readings of
    the clock in the first and in the second call.  [POST] reads the
    clock once, in [putServer]: [now1 addr]. *)
Definition ServeHTTP (req : Request) (now1 now2 : string → Z)
    (r : SimpleRegistry) : SimpleRegistry * Response :=
  if bool_decide (Method req = "GET") then
    let '(r1, _) := aliveServers now1 r in
    let '(r2, l) := aliveServers now2 r1 in
    (r2, mkResponse StatusOK (Some (String.concat "," l)))
  else if bool_decide (Method req = "POST") then
    let addr := X_Simplerpc_Servers req in
    if bool_decide (addr = "") then
      (r, mkResponse StatusInternalServerError None)
    else (putServer addr (now1 addr) r, mkResponse StatusOK None)
  else (r, mkResponse StatusMethodNotAllowed None).

(** Every entry is filed under its own address, which is not empty. *)
Definition well_keyed (r : SimpleRegistry) : Prop :=
  ∀ k s, servers r !! k = Some s → Addr s = k ∧ k ≠ "".

(** *** Heartbeats *)




End registry.

(** ** Concrete clients, for the examples *)
Module examples.
Import codec simpleRPC.

(** The stream answers the call with sequence number 1 by an empty
    header, and then ends in the middle of the body. *)
Definition short_stream : Scripted :=
  mkScripted [mkItem (mkHeader "Foo.Sum" 1 "", None) (AnyNil, None);
              mkItem (zeroHeader, None) (AnyInt 0, Some "unexpected EOF")]
             [] None 0.

(** A new client on which [Go] has posted one call (on channel 7). *)
Definition one_pending : state Scripted :=
  (Go "Foo.Sum" (AnyInt 1) (AnyInt 0) 7%nat
      (newClientCodec short_stream DefaultOption)).1.

(** A server with one service, [Foo], that has one method, [Sum]. *)
Definition Foo_server : Server :=
  mkServer
    (<["Foo" := mkService "Foo"
                  (<["Sum" := mkMethodType (λ a _, (a, None)) AnyNil
                                           (AnyInt 0) 0]> ∅)]> ∅).

(** A stream that brings two requests, each a header and a body: the
    first for [FooSum], the second for [Foo.Sum].  A header does not
    decode as a body, nor a body as a header. *)
Definition FooSum_stream : Scripted :=
  mkScripted [mkItem (mkHeader "FooSum" 5 "", None) (AnyNil, Some "type mismatch");
              mkItem (zeroHeader, Some "type mismatch") (AnyInt 1, None);
              mkItem (mkHeader "Foo.Sum" 6 "", None) (AnyNil, Some "type mismatch");
              mkItem (zeroHeader, Some "type mismatch") (AnyInt 2, None)]
             [] None 0.

(** A registry with a timeout of five minutes that has seen [tcp@a] at
    time 0 and [tcp@b] a hundred seconds later. *)
Definition two_servers : registry.SimpleRegistry :=
  registry.putServer "tcp@b" (100 * Second)
    (registry.putServer "tcp@a" 0 (registry.New (300 * Second))).

(** A store with [DefaultOption] and one zero [Option] at 1. *)
Definition two_options : gmap ref Option :=
  <[1%nat := zeroOption]> (<[DefaultOption := DefaultOption_value]> ∅).

(** A connection to an HTTP server that answers as this server does and
    echoes the option [v]. *)
Definition http_conn (v : Option) : Conn :=
  mkConn [] false None (v, None) (connected, None).

(** The stream answers the call with sequence number 1 by an error. *)
Definition error_stream : Scripted :=
  mkScripted [mkItem (mkHeader "Foo.Sum" 1 "rpc server: can't find method Sum",
                      None) (AnyNil, None);
              mkItem (zeroHeader, None) (AnyStruct, None)]
             [] None 0.

(** The stream answers the call with sequence number 1 by the reply 3. *)
Definition reply_stream : Scripted :=
  mkScripted [mkItem (mkHeader "Foo.Sum" 1 "", None) (AnyNil, None);
              mkItem (zeroHeader, None) (AnyInt 3, None)]
             [] None 0.

(** A new client on the stream [s] on which [Go] has posted one call. *)
Definition one_pending_on (s : Scripted) : state Scripted :=
  (Go "Foo.Sum" (AnyInt 1) (AnyInt 0) 7%nat (newClientCodec s DefaultOption)).1.

(** A connection whose peer hangs up before it echoes the option. *)
Definition silent_conn : Conn :=
  mkConn [] false None (zeroOption, Some "EOF") ("", None).

(** A network on which no connection can be opened. *)
Definition no_network (network address : string) : Conn + string :=
  inr "connection refused".

(** Codecs for the examples ignore the connection. *)
Definition scripted_codec (f : NewCodecFunc) (conn : Conn) : Scripted :=
  mkScripted [] [] None 0.

(** [time.Duration.String], for the examples. *)
Definition ten_seconds (d : Z) : string := "10s".

(** A discovery of three servers with the index at 7. *)
Definition three_servers : xclient.MultiServersDiscovery :=
  xclient.mkMultiServersDiscovery [] ["tcp@a"; "tcp@b"; "tcp@c"] 7.

(** A discovery for the registry at [registry], last updated at time 0
    and with a timeout of ten seconds. *)
Definition stale_discovery : xclient.SimpleRegistryDiscovery :=
  xclient.mkSimpleRegistryDiscovery three_servers
    "http://localhost:9999/_simplerpc_/registry" (10 * Second) 0.

(** [ast.IsExported], for names in ASCII: the first letter is a capital. *)
Definition is_exported (s : string) : bool :=
  match s with
  | String c _ => (65 <=? nat_of_ascii c)%nat && (nat_of_ascii c <=? 90)%nat
  | EmptyString => false
  end.

(** The types of [type Foo int], of [type Args struct{ Num1, Num2 int }],
    of [*int] and of [error]. *)
Definition Foo_type : rtype := mkRtype "Foo" "main" (AnyInt 0).
Definition Args_type : rtype := mkRtype "Args" "main" AnyStruct.
Definition int_pointer_type : rtype := mkRtype "" "" (AnyInt 0).
Definition error_type : rtype := mkRtype "error" "" AnyNil.

(** [func (f Foo) Sum(args Args, reply *int) error], which here copies
    the argument to the reply. *)
Definition Sum_method : Method :=
  mkMethod "Sum" [Foo_type; Args_type; int_pointer_type] [error_type]
           (λ a _, (a, None)).

(** [func (f Foo) Name() string], which is no RPC method. *)
Definition Name_method : Method :=
  mkMethod "Name" [Foo_type] [mkRtype "string" "" (AnyString "")]
           (λ _ r, (r, None)).

Definition Foo_receiver : Receiver :=
  mkReceiver "Foo" [Name_method; Sum_method].

(** The method [Sum] as registered, and a request for [Foo.Sum] with the
    sequence number 6. *)
Definition Sum_methodType : methodType :=
  mkMethodType (λ a _, (a, None)) AnyStruct (AnyInt 0) 0.
Definition Sum_request : request :=
  mkRequest (mkHeader "Foo.Sum" 6 "") (AnyInt 2) (AnyInt 0)
    (Some Sum_methodType) None.

(** A stream that brings one request for [Foo.Sum]. *)
Definition Foo_Sum_stream : Scripted :=
  mkScripted [mkItem (mkHeader "Foo.Sum" 6 "", None) (AnyNil, Some "type mismatch");
              mkItem (zeroHeader, Some "type mismatch") (AnyInt 2, None)]
             [] None 0.

(** An [XClient] that has cached the client at 0 for [tcp@a]; a store in
    which that client is available, and one in which it is closed. *)
Definition cached_xclient : xclient.XClient :=
  xclient.mkXClient None (<["tcp@a" := 0%nat]> ∅).
Definition open_store : gmap ref (state Scripted) :=
  <[0%nat := newClientCodec reply_stream DefaultOption]> ∅.
Definition closed_store : gmap ref (state Scripted) :=
  <[0%nat := (Close (newClientCodec reply_stream DefaultOption)).1]> ∅.

(** A codec on which every write fails. *)
Definition broken_codec : Scripted := mkScripted [] [] (Some "broken pipe") 0.

End examples.

(** * Properties *)

(** ** The client: sequence numbers *)
Section client_seq.
Import codec simpleRPC.
Context {C : Type} `{!Codec C}.

Lemma run_app (ms1 ms2 : list action) (σ : state C) :
  run (ms1 ++ ms2) σ =
    let '(σ1, xs1) := run ms1 σ in
    let '(σ2, xs2) := run ms2 σ1 in
    (σ2, xs1 ++ xs2).
Proof.
  revert σ. induction ms1 as [|m ms1 IH]; intros σ; simpl.
  - by destruct (run ms2 σ).
  - destruct (exec m σ) as [σ1 x]. rewrite IH.
    destruct (run ms1 σ1) as [σ2 xs1]. by destruct (run ms2 σ2).
Qed.

Lemma client_set_Error r e (σ : state C) : client (set_Error r e σ) = client σ.
Proof. done. Qed.

Lemma client_done r (σ : state C) : client (done r σ) = client σ.
Proof. unfold done. by destruct (calls σ !! r). Qed.

(** The loop of [terminateCalls] leaves the client's own fields alone. *)
Lemma client_terminate_loop err (l : list (Z * ref)) (σ : state C) :
  client (foldl (λ σ' kr, done kr.2 (set_Error kr.2 err σ')) σ l) = client σ.
Proof.
  revert σ. induction l as [|kr l IH]; intros σ; simpl; [done|].
  by rewrite IH, client_done, client_set_Error.
Qed.

Lemma client_terminateCalls err (σ : state C) :
  client (terminateCalls err σ) =
    mkClient (cc (client σ)) (opt (client σ)) (header (client σ))
             (seq (client σ)) (pending (client σ)) (closing (client σ)) true.
Proof. unfold terminateCalls. by rewrite client_terminate_loop. Qed.

(** What one step does to [seq]: [registerCall] moves it on by one when
    it hands the value out, nothing else touches it. *)
Lemma exec_seq (m : action) (σ : state C) :
  seq (client (exec m σ).1) =
    match (exec m σ).2 with
    | RRegisterCall _ None => wrap64 (seq (client σ) + 1)
    | _ => seq (client σ)
    end
  ∧ match (exec m σ).2 with
    | RRegisterCall s None => s = seq (client σ)
    | _ => True
    end.
Proof.
  destruct m; simpl; try done.
  - unfold Close. destruct (closing (client σ)); [done|].
    by destruct (codec.Close (cc (client σ))).
  - unfold registerCall.
    by destruct (closing (client σ) || shutdown (client σ)).
  - by rewrite client_terminateCalls.
  - by rewrite client_done.
Qed.

Lemma wrap64_small z : 0 ≤ z < uint64_modulus → wrap64 z = z.
Proof. intros ?. unfold wrap64. by apply Z.mod_small. Qed.

(** As long as the counter does not wrap, a schedule hands out the
    consecutive numbers from the current [seq] on. *)
Lemma registered_run (ms : list action) (σ : state C) :
  0 ≤ seq (client σ) →
  seq (client σ) + Z.of_nat (length (registered (run ms σ).2))
    ≤ uint64_modulus →
  registered (run ms σ).2
    = seqZ (seq (client σ)) (Z.of_nat (length (registered (run ms σ).2))).
Proof.
  revert σ. induction ms as [|m ms IH]; intros σ Hlo Hhi; [done|].
  simpl in *. pose proof (exec_seq m σ) as [Hseq Hres].
  destruct (exec m σ) as [σ1 x]. specialize (IH σ1).
  destruct (run ms σ1) as [σ2 xs]. simpl in *.
  unfold registered in *. simpl in *.
  destruct x as [e|b|s [e|]|o|]; simpl in *;
    try (rewrite Hseq in IH; by apply IH).
  subst s. rewrite Nat2Z.inj_succ in Hhi |- *.
  rewrite seqZ_cons by lia. f_equal.
  rewrite Z.pred_succ.
  destruct (omap _ xs) as [|s' l] eqn:Hl; [done|].
  rewrite wrap64_small in Hseq
    by (unfold uint64_modulus in *; simpl length in Hhi; lia).
  rewrite Hseq in IH.
  replace (Z.succ (seq (client σ))) with (seq (client σ) + 1) by lia.
  apply IH; simpl length in *; lia.
Qed.


Lemma run_cycles (cc0 : C) (opt0 : ref) (n : nat) (s : Z) :
  0 ≤ s → s + Z.of_nat n < uint64_modulus →
  (run (cycles s n) (client_at cc0 opt0 s)).1
    = client_at cc0 opt0 (s + Z.of_nat n).
Proof.
  revert s. induction n as [|n IH]; intros s Hlo Hhi.
  - simpl. by rewrite Z.add_0_r.
  - cbn [cycles run exec]. unfold registerCall, removeCall. simpl.
    unfold set_Seq, with_client. simpl.
    rewrite alter_empty, delete_insert_eq, delete_empty.
    rewrite wrap64_small by lia.
    fold (client_at cc0 opt0 (s + 1)).
    specialize (IH (s + 1)).
    destruct (run (cycles (s + 1) n) (client_at cc0 opt0 (s + 1))) as [σ xs].
    simpl in *. rewrite IH by lia. f_equal. lia.
Qed.

(** Every value of the counter is reached from a new client. *)
Lemma seq_reachable (cc0 : C) (opt0 : ref) (s : Z) :
  1 ≤ s < uint64_modulus →
  ∃ ms, (run ms (newClientCodec cc0 opt0)).1 = client_at cc0 opt0 s.
Proof.
  intros Hs. exists (cycles 1 (Z.to_nat (s - 1))).
  unfold newClientCodec. fold (client_at cc0 opt0 1).
  rewrite run_cycles by lia. f_equal. lia.
Qed.

(** C1, as amended.  [registerCall] gives a call the current value of
    [seq] and moves [seq] on by one, modulo 2^64.  For every schedule of
    the atomic steps of the client's code (every interleaving of its
    goroutines) during which the 64-bit counter does not wrap, the
    sequence numbers given out are pairwise distinct, and a call
    registered later gets a strictly larger number than one registered
    earlier. *)
Theorem registerCall_seq_strictly_increasing (σ : state C) (ms : list action)
    (Hlo : 0 ≤ seq (client σ))
    (Hnowrap : seq (client σ)
               + Z.of_nat (length (registered (run ms σ).2))
               ≤ uint64_modulus) :
  (∀ r σ' s, registerCall r σ = (σ', (s, None)) →
     s = seq (client σ)
     ∧ seq (client σ') = wrap64 (seq (client σ) + 1)
     ∧ pending (client σ') !! s = Some r
     ∧ Seq <$> calls σ' !! r = (λ _, s) <$> calls σ !! r)
  ∧ NoDup (registered (run ms σ).2)
  ∧ (∀ i j si sj, (i < j)%nat →
       registered (run ms σ).2 !! i = Some si →
       registered (run ms σ).2 !! j = Some sj →
       si < sj).
Proof.
  split; [|split].
  - intros r σ' s. unfold registerCall.
    destruct (closing (client σ) || shutdown (client σ)); [done|].
    intros [= <- <-]. simpl. repeat split.
    + apply lookup_insert_eq.
    + rewrite lookup_alter_eq. by destruct (calls σ !! r).
  - rewrite registered_run by done. apply NoDup_seqZ.
  - intros i j si sj Hij. rewrite registered_run by done.
    rewrite !lookup_seqZ. lia.
Qed.

End client_seq.

Lemma registerCall_seq_strictly_increasing_witness :
  let σ := simpleRPC.newClientCodec (codec.mkScripted [] [] None 0) 0%nat in
  let ms := [simpleRPC.MRegisterCall 0%nat; simpleRPC.MRegisterCall 1%nat;
             simpleRPC.MRemoveCall 1; simpleRPC.MRegisterCall 2%nat] in
  simpleRPC.registered (simpleRPC.run ms σ).2 = [1; 2; 3]
  ∧ NoDup (simpleRPC.registered (simpleRPC.run ms σ).2).
Proof.
  intros σ ms. split; [reflexivity|].
  apply (registerCall_seq_strictly_increasing σ ms).
  - simpl. lia.
  - vm_compute. discriminate.
Defined.

(** C1, as stated, fails where the counter wraps: from a new client a
    schedule reaches the state whose counter stands at 2^64 - 1, and of the
    next two calls registered the later one gets the smaller number. *)
Lemma registerCall_seq_wraps :
  let cc0 := codec.mkScripted [] [] None 0 in
  let σ := simpleRPC.client_at cc0 0%nat (2 ^ 64 - 1) in
  (∃ ms, (simpleRPC.run ms (simpleRPC.newClientCodec cc0 0%nat)).1 = σ)
  ∧ simpleRPC.registered
      (simpleRPC.run [simpleRPC.MRegisterCall 0%nat;
                      simpleRPC.MRegisterCall 1%nat] σ).2
    = [2 ^ 64 - 1; 0]
  ∧ ¬ (2 ^ 64 - 1 < 0).
Proof.
  intros cc0 σ. split; [|split].
  - apply seq_reachable. unfold uint64_modulus. lia.
  - reflexivity.
  - lia.
Qed.

(** ** The client: its code as schedules of atomic steps *)
Section client_schedules.
Import codec simpleRPC.
Context {C : Type} `{!Codec C}.

Lemma run_fst_app (ms1 ms2 : list action) (σ : state C) :
  (run (ms1 ++ ms2) σ).1 = (run ms2 (run ms1 σ).1).1.
Proof.
  rewrite run_app. destruct (run ms1 σ) as [σ1 xs1]. simpl.
  by destruct (run ms2 σ1).
Qed.

Lemma run_fst_cons (m : action) (ms : list action) (σ : state C) :
  (run (m :: ms) σ).1 = (run ms (exec m σ).1).1.
Proof.
  simpl. destruct (exec m σ) as [σ1 x]. simpl. by destruct (run ms σ1).
Qed.

(** Unfold a schedule given step by step, without unfolding the methods
    the steps call. *)
Ltac steps := rewrite ?run_fst_app, ?run_fst_cons; cbn [exec run fst snd].

(** [send] is a schedule of atomic steps. *)
Lemma send_schedule (r : ref) (σ : state C) :
  ∃ ms, (run ms σ).1 = send r σ.
Proof.
  unfold send. destruct (registerCall r σ) as [σ1 [s [e|]]] eqn:Hreg.
  { exists [MRegisterCall r; ASetError r (Some e); ADone r].
    steps. by rewrite Hreg. }
  set (sm := default "" (ServiceMethod <$> calls σ1 !! r)).
  set (args := default AnyNil (Args <$> calls σ1 !! r)).
  set (σ2 := set_header (mkHeader sm s "") σ1).
  destruct (Write (header (client σ2)) args (cc (client σ2)))
    as [cc1 werr] eqn:HW.
  pose (pre := [MRegisterCall r; ASetHeader (mkHeader sm s "");
                ACodec (λ c, (Write (header (client σ2)) args c).1)]).
  assert (Hpre : (run pre σ).1 = set_cc cc1 σ2).
  { unfold pre. steps. rewrite Hreg. cbn [fst]. fold σ2. by rewrite HW. }
  destruct werr as [e|]; [|by exists pre].
  destruct (removeCall s (set_cc cc1 σ2)) as [σ4 [r'|]] eqn:Hrm.
  - exists (pre ++ [MRemoveCall s; ASetError r' (of_codec (Some e)); ADone r']).
    steps. rewrite Hpre. steps. by rewrite Hrm.
  - exists (pre ++ [MRemoveCall s]).
    steps. rewrite Hpre. steps. by rewrite Hrm.
Qed.

(** So is [Go]. *)
Lemma Go_schedule sm args reply d (σ : state C) :
  ∃ ms, (run ms σ).1 = (Go sm args reply d σ).1.
Proof.
  unfold Go. cbn [fst].
  destruct (send_schedule (fresh (dom (calls σ)))
              (new_Call (mkCall 0 sm args reply None d) σ)) as [ms Hms].
  exists (ANew (mkCall 0 sm args reply None d) :: ms).
  by rewrite run_fst_cons.
Qed.

(** So is one pass of the loop of [receive]. *)
Lemma receive_iter_schedule (σ : state C) :
  ∃ ms, (run ms σ).1 = (receive_iter σ).1.
Proof.
  unfold receive_iter.
  destruct (ReadHeader (cc (client σ))) as [cc1 [h err]] eqn:HR.
  pose (rd := ACodec (λ c, (ReadHeader c).1)).
  assert (Hrd : (exec rd σ).1 = set_cc cc1 σ)
    by (unfold rd; cbn [exec fst]; by rewrite HR).
  destruct err as [e|].
  { exists [rd]. by rewrite run_fst_cons, Hrd. }
  destruct (removeCall (codec.Seq h) (set_cc cc1 σ)) as [σ2 [r|]] eqn:Hrm.
  - case_bool_decide.
    + set (σ3 := set_Error r (fmt_Errorf0 (codec.Error h)) σ2).
      destruct (ReadBody None (cc (client σ3))) as [cc2 [v err]] eqn:HB.
      exists [rd; MRemoveCall (codec.Seq h);
              ASetError r (fmt_Errorf0 (codec.Error h));
              ACodec (λ c, (ReadBody None c).1); ADone r].
      rewrite run_fst_cons, Hrd. steps. rewrite Hrm. cbn [fst].
      fold σ3. by rewrite HB.
    + destruct (ReadBody (Reply <$> calls σ2 !! r) (cc (client σ2)))
        as [cc2 [v err]] eqn:HB.
      exists ([rd; MRemoveCall (codec.Seq h);
               ACodec (λ c, (ReadBody (Reply <$> calls σ2 !! r) c).1);
               ASetReply r v]
              ++ match err with
                 | Some m => [ASetError r (errors_New ("reading body " +:+ m))]
                 | None => []
                 end ++ [ADone r]).
      cbn [app]. rewrite run_fst_cons, Hrd. steps. rewrite Hrm. cbn [fst].
      rewrite HB. cbn [fst]. destruct err; by steps.
  - destruct (ReadBody None (cc (client σ2))) as [cc2 [v err]] eqn:HB.
    exists [rd; MRemoveCall (codec.Seq h); ACodec (λ c, (ReadBody None c).1)].
    rewrite run_fst_cons, Hrd. steps. rewrite Hrm. cbn [fst].
    by rewrite HB.
Qed.

(** So is [receive], when its loop ends. *)
Lemma receive_schedule (fuel : nat) (σ σ' : state C) :
  receive fuel σ = Some σ' → ∃ ms, (run ms σ).1 = σ'.
Proof.
  revert σ. induction fuel as [|fuel IH]; intros σ; simpl; [done|].
  destruct (receive_iter_schedule σ) as [ms1 Hms1].
  destruct (receive_iter σ) as [σ1 [e|]]; simpl in *.
  - intros [= <-]. exists (ms1 ++ [MTerminateCalls (of_codec (Some e))]).
    by rewrite run_fst_app, Hms1.
  - intros [ms2 Hms2]%IH. exists (ms1 ++ ms2).
    by rewrite run_fst_app, Hms1.
Qed.

(** So are the arms of the [select] of [CallWithTimeout]. *)
Lemma CallWithTimeout_schedule ctx_err (r : ref) (σ : state C) :
  (∃ ms, (run ms σ).1 = (CallWithTimeout_cancelled ctx_err r σ).1)
  ∧ (run [] σ).1 = (CallWithTimeout_done r σ).1.
Proof.
  split; [|done]. unfold CallWithTimeout_cancelled.
  exists [MRemoveCall (default 0 (Seq <$> calls σ !! r))].
  steps. by destruct (removeCall (default 0 (Seq <$> calls σ !! r)) σ).
Qed.

End client_schedules.

(** ** The client: closing and shutting down *)
Section client_close.
Import codec simpleRPC.
Context {C : Type} `{!Codec C}.

(** No step of the client's code clears [closing] or [shutdown]. *)
Lemma exec_flags (m : action) (σ : state C) :
  (closing (client σ) = true → closing (client (exec m σ).1) = true)
  ∧ (shutdown (client σ) = true → shutdown (client (exec m σ).1) = true).
Proof.
  destruct m; simpl; try done.
  - unfold Close. destruct (closing (client σ)) eqn:Hc; [done|].
    by destruct (codec.Close (cc (client σ))).
  - unfold registerCall.
    by destruct (closing (client σ) || shutdown (client σ)).
  - by rewrite client_terminateCalls.
  - by rewrite client_done.
Qed.

Lemma run_flags (ms : list action) (σ : state C) :
  (closing (client σ) = true → closing (client (run ms σ).1) = true)
  ∧ (shutdown (client σ) = true → shutdown (client (run ms σ).1) = true).
Proof.
  revert σ. induction ms as [|m ms IH]; intros σ; [done|].
  rewrite run_fst_cons. destruct (exec_flags m σ) as [Hc Hs].
  destruct (IH (exec m σ).1) as [Hc' Hs']. auto.
Qed.

Lemma registerCall_unavailable (r : ref) (σ : state C) :
  closing (client σ) || shutdown (client σ) = true →
  registerCall r σ = (σ, (0, ErrShutdown)).
Proof. intros Hu. unfold registerCall. by rewrite Hu. Qed.

(** A call attempted on a client that is closing or shut down ends at
    once with the sentinel, and nothing is registered. *)
Lemma Go_unavailable sm args reply d (σ : state C) :
  closing (client σ) || shutdown (client σ) = true →
  calls (Go sm args reply d σ).1 !! (Go sm args reply d σ).2
    = Some (mkCall 0 sm args reply ErrShutdown d)
  ∧ client (Go sm args reply d σ).1 = client σ.
Proof.
  intros Hu. unfold Go, send.
  rewrite registerCall_unavailable by done.
  unfold ErrShutdown, errors_New. cbn [fst snd].
  rewrite client_done. split; [|done].
  unfold done, set_Error, new_Call. cbn [calls].
  rewrite lookup_alter_eq, lookup_insert_eq. cbn [fmap option_fmap option_map calls].
  by rewrite lookup_alter_eq, lookup_insert_eq.
Qed.

(** C4.  The first [Close] of a client that is not closing sets [closing]
    and closes the codec, returning what the codec returns.  At any later
    moment, whatever the client's code has done in between, [Close]
    returns [ErrShutdown] and changes nothing, and [registerCall] fails
    with the same [ErrShutdown], so that a call attempted through [Go]
    ends with [ErrShutdown].  [registerCall] fails in the same way at any
    moment after [closing] or [shutdown] has become true. *)
Theorem Close_guarded (σ : state C) (ms : list action) (r : ref)
    (Hopen : closing (client σ) = false) :
  let σ1 := (Close σ).1 in
  let σ2 := (run ms σ1).1 in
  closing (client σ1) = true
  ∧ cc (client σ1) = (codec.Close (cc (client σ))).1
  ∧ (Close σ).2 = of_codec (codec.Close (cc (client σ))).2
  ∧ Close σ2 = (σ2, ErrShutdown)
  ∧ registerCall r σ2 = (σ2, (0, ErrShutdown))
  ∧ (∀ sm args reply d,
       Error <$> calls (Go sm args reply d σ2).1
                   !! (Go sm args reply d σ2).2 = Some ErrShutdown)
  ∧ (∀ (σ0 : state C) ms0,
       closing (client σ0) || shutdown (client σ0) = true →
       registerCall r (run ms0 σ0).1 = ((run ms0 σ0).1, (0, ErrShutdown))).
Proof.
  intros σ1 σ2.
  assert (H1 : closing (client σ1) = true).
  { unfold σ1, Close. rewrite Hopen.
    by destruct (codec.Close (cc (client σ))). }
  assert (H2 : closing (client σ2) = true) by by apply run_flags.
  split_and!.
  - done.
  - unfold σ1, Close. rewrite Hopen.
    by destruct (codec.Close (cc (client σ))).
  - unfold Close. rewrite Hopen.
    by destruct (codec.Close (cc (client σ))).
  - unfold Close. by rewrite H2.
  - apply registerCall_unavailable. by rewrite H2.
  - intros sm args reply d.
    destruct (Go_unavailable sm args reply d σ2) as [-> _];
      [by rewrite H2|done].
  - intros σ0 ms0 [Hc|Hs]%orb_true_iff; apply registerCall_unavailable.
    + by rewrite (proj1 (run_flags ms0 σ0) Hc).
    + rewrite (proj2 (run_flags ms0 σ0) Hs). apply orb_true_r.
Qed.

End client_close.

Lemma Close_guarded_witness :
  let σ := simpleRPC.newClientCodec (codec.mkScripted [] [] None 0) 0%nat in
  let ms := [simpleRPC.MIsAvailable; simpleRPC.MRemoveCall 1] in
  simpleRPC.closing (simpleRPC.client σ) = false
  ∧ simpleRPC.Close (simpleRPC.run ms (simpleRPC.Close σ).1).1
    = ((simpleRPC.run ms (simpleRPC.Close σ).1).1, simpleRPC.ErrShutdown).
Proof.
  intros σ ms. split; [reflexivity|].
  apply (Close_guarded σ ms 0%nat). reflexivity.
Defined.

(** ** The client: the pending table and the receive path *)
Section client_pending.
Import codec simpleRPC.
Context {C : Type} `{!Codec C}.

Lemma calls_done r (σ : state C) : calls (done r σ) = calls σ.
Proof. unfold done. by destruct (calls σ !! r). Qed.

Lemma sent_done_mono r r' ch (σ : state C) :
  r ∈ default [] (sent σ !! ch) → r ∈ default [] (sent (done r' σ) !! ch).
Proof.
  intros Hin. unfold done. destruct (calls σ !! r') as [c|]; [|done].
  simpl. destruct (decide (Done c = ch)) as [->|Hne].
  - rewrite lookup_insert_eq. simpl. apply elem_of_app. by left.
  - by rewrite lookup_insert_ne.
Qed.

Lemma sent_done_fired r c (σ : state C) :
  calls σ !! r = Some c →
  sent (done r σ) !! Done c = Some (default [] (sent σ !! Done c) ++ [r]).
Proof. intros Hc. unfold done. rewrite Hc. simpl. apply lookup_insert_eq. Qed.

(** The loop of [terminateCalls], on the calls: those it visits get the
    error, the others are as they were. *)
Lemma terminate_loop_calls err (l : list (Z * ref)) (σ : state C) r :
  calls (foldl (λ σ' kr, done kr.2 (set_Error kr.2 err σ')) σ l) !! r =
    if decide (r ∈ l.*2) then with_Error err <$> calls σ !! r
    else calls σ !! r.
Proof.
  revert σ. induction l as [|kr l IH]; intros σ.
  { cbn [foldl]. destruct (decide (r ∈ [].*2)) as [Hin|]; [by inversion Hin|done]. }
  cbn [foldl]. rewrite IH, calls_done. unfold set_Error. cbn [calls].
  rewrite fmap_cons, lookup_alter.
  destruct (decide (r ∈ l.*2)) as [Hl|Hl];
    destruct (decide (kr.2 = r)) as [He|He];
    destruct (decide (r ∈ kr.2 :: l.*2)) as [Hc|Hc];
    try subst r; try done; try (by destruct (calls σ !! kr.2));
    exfalso;
    first [ apply Hc; apply list_elem_of_here
          | apply Hc; apply list_elem_of_further, Hl
          | apply elem_of_cons in Hc as [?|?]; done ].
Qed.

Lemma terminate_loop_sent_mono err (l : list (Z * ref)) (σ : state C) r ch :
  r ∈ default [] (sent σ !! ch) →
  r ∈ default [] (sent (foldl (λ σ' kr, done kr.2 (set_Error kr.2 err σ')) σ l)
                    !! ch).
Proof.
  revert σ. induction l as [|kr l IH]; intros σ Hin; [done|].
  cbn [foldl]. apply IH. by apply sent_done_mono.
Qed.

(** The loop of [terminateCalls], on the channels: every call it visits
    is sent on its [Done] channel. *)
Lemma terminate_loop_sent err (l : list (Z * ref)) (σ : state C) s r c :
  (s, r) ∈ l → calls σ !! r = Some c →
  r ∈ default [] (sent (foldl (λ σ' kr, done kr.2 (set_Error kr.2 err σ')) σ l)
                    !! Done c).
Proof.
  revert σ c. induction l as [|kr l IH]; intros σ c Hin Hc.
  { by inversion Hin. }
  cbn [foldl]. apply elem_of_cons in Hin as [<-|Hin].
  - apply terminate_loop_sent_mono. cbn [snd].
    assert (Hc' : calls (set_Error r err σ) !! r = Some (with_Error err c)).
    { unfold set_Error. cbn [calls]. by rewrite lookup_alter_eq, Hc. }
    pose proof (sent_done_fired r _ _ Hc') as Hs. cbn [Done with_Error] in Hs.
    rewrite Hs. simpl. apply elem_of_app. right. apply list_elem_of_here.
  - destruct (decide (kr.2 = r)) as [Heq|Hne].
    + apply (IH _ (with_Error err c)); [done|].
      rewrite calls_done. unfold set_Error. cbn [calls].
      by rewrite Heq, lookup_alter_eq, Hc.
    + apply (IH _ c); [done|].
      rewrite calls_done. unfold set_Error. cbn [calls].
      by rewrite lookup_alter_ne.
Qed.

(** One pass of [receive] whose header is read removes the entry of the
    header's sequence number, and no other. *)
Lemma receive_iter_pending (σ : state C) cc1 h :
  ReadHeader (cc (client σ)) = (cc1, (h, None)) →
  pending (client (receive_iter σ).1)
    = delete (codec.Seq h) (pending (client σ)).
Proof.
  intros HR. unfold receive_iter. rewrite HR. unfold removeCall.
  cbn [set_cc with_client client pending].
  destruct (pending (client σ) !! codec.Seq h) as [r|].
  - case_bool_decide.
    + destruct (ReadBody None _) as [cc2 [v err]]. cbn [fst].
      by rewrite client_done.
    + destruct (ReadBody _ _) as [cc2 [v err]]. cbn [fst].
      rewrite client_done. by destruct err.
  - by destruct (ReadBody None _) as [cc2 [v err]].
Qed.

(** C2, as amended.  An entry of the pending table is removed when the
    response with its sequence number arrives ([receive] removes it) and
    when the caller cancels ([CallWithTimeout] removes it).  When the
    connection is torn down, [terminateCalls] marks the client shut down,
    gives every pending call the error and sends it on its [Done]
    channel, and leaves the pending table as it is. *)
Theorem pending_removed_on_response_and_cancel (σ : state C) :
  (∀ cc1 h, ReadHeader (cc (client σ)) = (cc1, (h, None)) →
     pending (client (receive_iter σ).1)
       = delete (codec.Seq h) (pending (client σ)))
  ∧ (∀ ctx_err r c, calls σ !! r = Some c →
       pending (client (CallWithTimeout_cancelled ctx_err r σ).1)
         = delete (Seq c) (pending (client σ)))
  ∧ (∀ err,
       pending (client (terminateCalls err σ)) = pending (client σ)
       ∧ shutdown (client (terminateCalls err σ)) = true
       ∧ ∀ s r c, pending (client σ) !! s = Some r → calls σ !! r = Some c →
           calls (terminateCalls err σ) !! r = Some (with_Error err c)
           ∧ r ∈ default [] (sent (terminateCalls err σ) !! Done c)).
Proof.
  split_and!.
  - apply receive_iter_pending.
  - intros ctx_err r c Hc. unfold CallWithTimeout_cancelled.
    by rewrite Hc.
  - intros err. rewrite client_terminateCalls. split_and!; [done..|].
    intros s r c Hp Hc. unfold terminateCalls. split.
    + rewrite terminate_loop_calls. cbn [calls with_client].
      rewrite decide_True, Hc; [done|].
      apply list_elem_of_fmap. exists (s, r). split; [done|].
      by apply elem_of_map_to_list.
    + apply (terminate_loop_sent _ _ _ s); [|done].
      by apply elem_of_map_to_list.
Qed.

(** C3, as amended.  When [receive] reads a header with an empty [Error]
    for a pending call, it decodes the body into the call's reply; if
    that fails with message [m], the call's [Error] becomes "reading body "
    followed by [m]; whether it fails or not, the call is sent on its
    [Done] channel, once. *)
Theorem receive_reading_body (σ : state C) cc1 h r c cc2 v err
    (HR : ReadHeader (cc (client σ)) = (cc1, (h, None)))
    (HE : codec.Error h = "")
    (HP : pending (client σ) !! codec.Seq h = Some r)
    (HC : calls σ !! r = Some c)
    (HB : ReadBody (Some (Reply c)) cc1 = (cc2, (v, err))) :
  calls (receive_iter σ).1 !! r
    = Some (mkCall (Seq c) (ServiceMethod c) (Args c) v
              (match err with
               | Some m => errors_New ("reading body " +:+ m)
               | None => Error c
               end) (Done c))
  ∧ sent (receive_iter σ).1 !! Done c
    = Some (default [] (sent σ !! Done c) ++ [r])
  ∧ (receive_iter σ).2 = err.
Proof.
  unfold receive_iter. rewrite HR. simpl. rewrite HP.
  rewrite bool_decide_eq_false_2 by (by rewrite HE; intros []).
  rewrite HC. simpl. rewrite HB. simpl.
  set (σ3 := set_Reply r v _).
  assert (H3 : calls σ3 !! r
               = Some (mkCall (Seq c) (ServiceMethod c) (Args c) v (Error c)
                         (Done c))).
  { unfold σ3, set_Reply. simpl. by rewrite lookup_alter_eq, HC. }
  assert (Hs3 : sent σ3 = sent σ) by done.
  destruct err as [m|].
  - set (e := errors_New _).
    assert (H4 : calls (set_Error r e σ3) !! r
                 = Some (mkCall (Seq c) (ServiceMethod c) (Args c) v e (Done c))).
    { unfold set_Error. cbn [calls]. by rewrite lookup_alter_eq, H3. }
    split_and!; [by rewrite calls_done| |done].
    pose proof (sent_done_fired r _ _ H4) as Hs. cbn [Done] in Hs.
    by rewrite Hs.
  - split_and!; [by rewrite calls_done| |done].
    pose proof (sent_done_fired r _ _ H3) as Hs. cbn [Done] in Hs.
    by rewrite Hs.
Qed.

End client_pending.

Lemma pending_removed_on_response_and_cancel_witness :
  simpleRPC.pending (simpleRPC.client examples.one_pending) !! 1 = Some 0%nat
  ∧ simpleRPC.pending
      (simpleRPC.client (simpleRPC.receive_iter examples.one_pending).1) !! 1
    = None.
Proof.
  split; [reflexivity|].
  destruct (pending_removed_on_response_and_cancel examples.one_pending)
    as [Hrecv _].
  rewrite (Hrecv _ (codec.mkHeader "Foo.Sum" 1 "") eq_refl).
  apply lookup_delete_eq.
Defined.

(** C2, as stated, fails for teardown: after [terminateCalls] the call
    that was pending is still in the pending table. *)
Lemma terminateCalls_keeps_pending :
  simpleRPC.pending
    (simpleRPC.client
       (simpleRPC.terminateCalls (simpleRPC.errors_New "EOF")
          examples.one_pending)) !! 1 = Some 0%nat
  ∧ simpleRPC.pending
      (simpleRPC.client
         (simpleRPC.terminateCalls (simpleRPC.errors_New "EOF")
            examples.one_pending)) ≠ ∅.
Proof.
  assert (H : simpleRPC.pending
    (simpleRPC.client
       (simpleRPC.terminateCalls (simpleRPC.errors_New "EOF")
          examples.one_pending)) !! 1 = Some 0%nat) by reflexivity.
  split; [done|]. intros Hempty. by rewrite Hempty in H.
Qed.

Lemma receive_reading_body_witness :
  simpleRPC.Error <$>
    simpleRPC.calls (simpleRPC.receive_iter examples.one_pending).1 !! 0%nat
  = Some (simpleRPC.errors_New "reading body unexpected EOF")
  ∧ simpleRPC.sent (simpleRPC.receive_iter examples.one_pending).1 !! 7%nat
    = Some [0%nat].
Proof.
  destruct (receive_reading_body examples.one_pending
              (codec.mkScripted
                 [codec.mkItem (codec.zeroHeader, None)
                               (AnyInt 0, Some "unexpected EOF")] [
                  (codec.mkHeader "Foo.Sum" 1 "", AnyInt 1)] None 0)
              (codec.mkHeader "Foo.Sum" 1 "") 0%nat
              (simpleRPC.mkCall 1 "Foo.Sum" (AnyInt 1) (AnyInt 0) None 7%nat)
              (codec.mkScripted [] [(codec.mkHeader "Foo.Sum" 1 "", AnyInt 1)]
                 None 0)
              (AnyInt 0) (Some "unexpected EOF")) as (Hc & Hs & _);
    [vm_compute; reflexivity..|].
  split.
  - exact (f_equal (fmap simpleRPC.Error) Hc).
  - exact Hs.
Defined.

(** C3, as stated, fails on the message: the code puts no colon after
    "reading body". *)
Lemma reading_body_has_no_colon :
  simpleRPC.Error <$>
    simpleRPC.calls (simpleRPC.receive_iter examples.one_pending).1 !! 0%nat
  = Some (simpleRPC.errors_New "reading body unexpected EOF")
  ∧ simpleRPC.errors_New "reading body unexpected EOF"
    ≠ simpleRPC.errors_New ("reading body: " +:+ "unexpected EOF").
Proof. split; [reflexivity|discriminate]. Qed.

(** ** The server: looking up a method, and the request loop *)
Section server_lookup.
Import codec simpleRPC.

Lemma LastIndex_range (s : string) (sep : ascii) :
  -1 ≤ LastIndex s sep < Z.of_nat (String.length s).
Proof.
  induction s as [|a s IH]; simpl; [lia|].
  destruct (0 <=? LastIndex s sep) eqn:Hi; [lia|].
  destruct (Ascii.eqb a sep); lia.
Qed.

(** [LastIndex] is negative exactly when the byte does not occur. *)
Lemma LastIndex_neg (s : string) (sep : ascii) :
  LastIndex s sep < 0 ↔ ¬ In sep (String.list_ascii_of_string s).
Proof.
  induction s as [|a s IH]; simpl; [intuition lia|].
  pose proof (LastIndex_range s sep) as Hr.
  destruct (0 <=? LastIndex s sep) eqn:Hi.
  - apply Z.leb_le in Hi. split; [lia|].
    intros Hn. exfalso. apply Hn. right.
    destruct (in_dec Ascii.ascii_dec sep (String.list_ascii_of_string s))
      as [|Hnin]; [done|]. apply IH in Hnin. lia.
  - apply Z.leb_gt in Hi. destruct (Ascii.eqb_spec a sep) as [->|Hne].
    + split; [lia|]. intros Hn. exfalso. apply Hn. by left.
    + split; [|lia]. intros _ [?|Hin]; [done|]. by apply IH in Hin.
Qed.

(** It is the index of the last occurrence. *)
Lemma LastIndex_last (a b : string) (sep : ascii) :
  ¬ In sep (String.list_ascii_of_string b) →
  LastIndex (a +:+ String sep b) sep = Z.of_nat (String.length a).
Proof.
  intros Hb. induction a as [|x a IH].
  - simpl. apply LastIndex_neg in Hb. rewrite (proj2 (Z.leb_gt _ _) Hb).
    by rewrite Ascii.eqb_refl.
  - simpl String.append. simpl LastIndex. rewrite IH.
    rewrite (proj2 (Z.leb_le _ _)) by lia. simpl String.length. lia.
Qed.

Lemma substring_all (s : string) :
  String.substring 0 (String.length s) s = s.
Proof. induction s as [|x s IH]; simpl; [done|]. by rewrite IH. Qed.

Lemma slice_to_append (a b : string) :
  slice_to (a +:+ b) (Z.of_nat (String.length a)) = a.
Proof.
  unfold slice_to. rewrite Nat2Z.id.
  induction a as [|x a IH]; simpl; [by destruct b|]. by rewrite IH.
Qed.

Lemma slice_from_append (a b : string) :
  slice_from (a +:+ b) (Z.of_nat (String.length a)) = b.
Proof.
  unfold slice_from. rewrite Nat2Z.id.
  induction a as [|x a IH]; simpl.
  - rewrite Nat.sub_0_r. apply substring_all.
  - apply IH.
Qed.

Lemma append_snoc_assoc (a b : string) (c : ascii) :
  (a +:+ String c "") +:+ b = a +:+ String c b.
Proof.
  induction a as [|x a IH]; [done|].
  change (String x ((a +:+ String c "") +:+ b) = String x (a +:+ String c b)).
  by rewrite IH.
Qed.

Lemma append_snoc_length (a : string) (c : ascii) :
  String.length (a +:+ String c "") = S (String.length a).
Proof.
  induction a as [|x a IH]; [done|].
  change (S (String.length (a +:+ String c "")) = S (S (String.length a))).
  by rewrite IH.
Qed.

(** [findService] on a name with a dot: the service is what precedes the
    last dot, the method what follows it. *)
Lemma findService_split (server : Server) (a b : string) :
  ¬ In "."%char (String.list_ascii_of_string b) →
  findService server (a +:+ "." +:+ b) =
    match serviceMap server !! a with
    | None => (None, None, Some ("rpc server: can't find service " +:+ a))
    | Some svc =>
        match method svc !! b with
        | None =>
            (Some svc, None, Some ("rpc server: can't find method " +:+ b))
        | Some mtype => (Some svc, Some mtype, None)
        end
    end.
Proof.
  intros Hb. unfold findService.
  change (a +:+ "." +:+ b) with (a +:+ String "."%char b).
  rewrite LastIndex_last by done.
  rewrite (proj2 (Z.ltb_ge _ _)) by lia.
  rewrite slice_to_append.
  rewrite <- append_snoc_assoc.
  replace (Z.of_nat (String.length a) + 1)
    with (Z.of_nat (String.length (a +:+ String "."%char ""))).
  2:{ rewrite append_snoc_length. lia. }
  by rewrite slice_from_append.
Qed.

Lemma findService_ill_formed (server : Server) (sm : string) :
  ¬ In "."%char (String.list_ascii_of_string sm) →
  findService server sm =
    (None, None,
     Some ("rpc server: service/method request ill-formed: " +:+ sm)).
Proof.
  intros Hsm%LastIndex_neg. unfold findService.
  by rewrite (proj2 (Z.ltb_lt _ _) Hsm).
Qed.

Context {C : Type} `{!Codec C}.

(** A request whose lookup fails is answered with the error, and the
    loop goes on. *)
Lemma serveCodec_iter_lookup_error (server : Server) (cc cc1 : C) h1 svc m e :
  ReadHeader cc = (cc1, (h1, None)) →
  findService server (codec.ServiceMethod h1) = (svc, m, Some e) →
  serveCodec_iter server cc =
    (sendResponse cc1 (set_header_Error e h1) invalidRequest, None, true).
Proof.
  intros HR HF. unfold serveCodec_iter, readRequest, readRequestHeader.
  rewrite HR, HF. by destruct m.
Qed.

(** After a request whose lookup fails, the next pass reads its header
    where the body of that request starts.  When that read fails,
    [serveCodec] ends: it dispatches nothing and closes the codec. *)
Lemma serveCodec_lookup_error_ends (server : Server) (cc cc1 cc3 : C)
    h1 svc m e h3 e3 fuel :
  ReadHeader cc = (cc1, (h1, None)) →
  findService server (codec.ServiceMethod h1) = (svc, m, Some e) →
  ReadHeader (sendResponse cc1 (set_header_Error e h1) invalidRequest)
  = (cc3, (h3, Some e3)) →
  serveCodec (S (S fuel)) server cc = Some ((codec.Close cc3).1, []).
Proof.
  intros HR HF HN. unfold serveCodec. cbn [serveCodec_loop].
  rewrite (serveCodec_iter_lookup_error _ _ _ _ _ _ _ HR HF).
  unfold serveCodec_iter at 1, readRequest, readRequestHeader.
  by rewrite HN.
Qed.

(** C5.  [findService] cuts the name at its last dot.  A name without a
    dot gives the ill-formed error; a name whose part before the last dot
    is not a registered service gives the error for a service that is not
    found; a registered service without a method named as the part after
    the last dot gives the error for a method that is not found, and the
    two messages differ whatever the names.  For a request whose name has
    no dot, [serveCodec] writes a response that carries the error and an
    [invalidRequest] body, without reading the body of the request, and
    goes to the next pass of its loop, which reads its header where that
    body starts: when this read fails, [serveCodec] ends, having
    dispatched nothing, and closes the codec. *)
Theorem findService_errors (server : Server) :
  (∀ sm, ¬ In "."%char (String.list_ascii_of_string sm) →
     findService server sm =
       (None, None,
        Some ("rpc server: service/method request ill-formed: " +:+ sm))
     ∧ ∀ (cc cc1 : C) h1,
         ReadHeader cc = (cc1, (h1, None)) →
         codec.ServiceMethod h1 = sm →
         let cc2 :=
           (Write (mkHeader sm (codec.Seq h1)
                     ("rpc server: service/method request ill-formed: "
                      +:+ sm))
                  invalidRequest cc1).1 in
         serveCodec_iter server cc = (cc2, None, true)
         ∧ (∀ fuel, serveCodec_loop (S fuel) server cc
                    = serveCodec_loop fuel server cc2)
         ∧ (∀ cc3 h3 e3 fuel,
              ReadHeader cc2 = (cc3, (h3, Some e3)) →
              serveCodec (S (S fuel)) server cc
              = Some ((codec.Close cc3).1, [])))
  ∧ (∀ a b, ¬ In "."%char (String.list_ascii_of_string b) →
       (serviceMap server !! a = None →
        findService server (a +:+ "." +:+ b) =
          (None, None, Some ("rpc server: can't find service " +:+ a)))
       ∧ (∀ svc, serviceMap server !! a = Some svc →
            method svc !! b = None →
            findService server (a +:+ "." +:+ b) =
              (Some svc, None,
               Some ("rpc server: can't find method " +:+ b)))
       ∧ (∀ svc mtype, serviceMap server !! a = Some svc →
            method svc !! b = Some mtype →
            findService server (a +:+ "." +:+ b)
              = (Some svc, Some mtype, None)))
  ∧ (∀ a b : string,
       "rpc server: can't find service " +:+ a
       ≠ "rpc server: can't find method " +:+ b).
Proof.
  split_and!.
  - intros sm Hsm. split; [by apply findService_ill_formed|].
    intros cc cc1 h1 HR Hh cc2.
    assert (HF : findService server (codec.ServiceMethod h1)
                 = (None, None,
                    Some ("rpc server: service/method request ill-formed: "
                          +:+ sm))).
    { rewrite Hh. by apply findService_ill_formed. }
    assert (Hcc2 : sendResponse cc1
                     (set_header_Error
                        ("rpc server: service/method request ill-formed: "
                         +:+ sm) h1) invalidRequest = cc2).
    { unfold cc2, sendResponse, set_header_Error. by rewrite Hh. }
    assert (Hiter : serveCodec_iter server cc = (cc2, None, true)).
    { rewrite (serveCodec_iter_lookup_error _ _ _ _ _ _ _ HR HF).
      by rewrite Hcc2. }
    split_and!; [done| |].
    + intros fuel. cbn [serveCodec_loop]. rewrite Hiter.
      by destruct (serveCodec_loop fuel server cc2) as [[??]|].
    + intros cc3 h3 e3 fuel HN. rewrite <- Hcc2 in HN.
      by eapply serveCodec_lookup_error_ends.
  - intros a b Hb. rewrite findService_split by done. split_and!.
    + by intros ->.
    + by intros svc -> ->.
    + by intros svc mtype -> ->.
  - intros a b. simpl. discriminate.
Qed.

End server_lookup.

Lemma findService_errors_witness :
  simpleRPC.findService examples.Foo_server "FooSum"
  = (None, None,
     Some "rpc server: service/method request ill-formed: FooSum")
  ∧ simpleRPC.findService examples.Foo_server "Bar.Sum"
    = (None, None, Some "rpc server: can't find service Bar")
  ∧ (simpleRPC.serveCodec_iter examples.Foo_server examples.FooSum_stream).2
    = true
  ∧ simpleRPC.serveCodec 2 examples.Foo_server examples.FooSum_stream
    = Some (codec.mkScripted
              [codec.mkItem (codec.mkHeader "Foo.Sum" 6 "", None)
                            (AnyNil, Some "type mismatch");
               codec.mkItem (codec.zeroHeader, Some "type mismatch")
                            (AnyInt 2, None)]
              [(codec.mkHeader "FooSum" 5
                  "rpc server: service/method request ill-formed: FooSum",
                simpleRPC.invalidRequest)]
              None 1,
            []).
Proof.
  destruct (findService_errors (C := codec.Scripted) examples.Foo_server)
    as (Hill & Hsplit & _).
  assert (Hnodot : ∀ s, s = "FooSum" ∨ s = "Sum" →
            ¬ In "."%char (String.list_ascii_of_string s)).
  { intros s [->| ->]; simpl; intuition discriminate. }
  destruct (Hill "FooSum" (Hnodot _ (or_introl eq_refl))) as [Hfind Hloop].
  destruct (Hsplit "Bar" "Sum" (Hnodot _ (or_intror eq_refl))) as (Hsvc & _).
  destruct (Hloop examples.FooSum_stream _ _ eq_refl eq_refl)
    as (Hiter & _ & Hends).
  split_and!.
  - exact Hfind.
  - apply Hsvc. reflexivity.
  - rewrite Hiter. reflexivity.
  - exact (Hends _ _ _ 0%nat eq_refl).
Defined.

(** The body of a request whose lookup fails stays on the stream, and the
    next pass of the loop reads it as a header: on this stream the loop
    answers the first request with the error, fails to read the body of
    the first request as a header, and ends before the second request. *)
Example serveCodec_unread_body :
  simpleRPC.serveCodec_loop 2 examples.Foo_server examples.FooSum_stream
  = Some (codec.mkScripted
            [codec.mkItem (codec.mkHeader "Foo.Sum" 6 "", None)
                          (AnyNil, Some "type mismatch");
             codec.mkItem (codec.zeroHeader, Some "type mismatch")
                          (AnyInt 2, None)]
            [(codec.mkHeader "FooSum" 5
                "rpc server: service/method request ill-formed: FooSum",
              simpleRPC.invalidRequest)]
            None 0,
          []).
Proof. reflexivity. Qed.

(** ** The multi-server client: [Broadcast] *)
Section broadcast.
Import xclient.

(** What the critical sections of a sequence of goroutines make of the
    shared variables. *)
Lemma foldl_critical (outcomes : list outcome) (s : shared) :
  let s' := foldl (λ s o, critical o s) s outcomes in
  e s' = match e s with
         | Some x => Some x
         | None => head (errors_of outcomes)
         end
  ∧ cancels s' = (cancels s
                  + match e s, head (errors_of outcomes) with
                    | None, Some _ => 1
                    | _, _ => 0
                    end)%nat
  ∧ replyDone s' = replyDone s
                   || bool_decide (head (replies_of outcomes) ≠ None)
  ∧ reply s' = if replyDone s then reply s
               else match head (replies_of outcomes) with
                    | Some v => Some v
                    | None => reply s
                    end.
Proof.
  revert s. induction outcomes as [|[err v] outcomes IH]; intros s.
  { destruct s as [es cs rs ds]. simpl.
    destruct es, ds; split_and!; by try lia. }
  cbn [foldl]. destruct (IH (critical (err, v) s)) as (He & Hc & Hd & Hr).
  rewrite He, Hc, Hd, Hr. clear IH He Hc Hd Hr.
  unfold critical, errors_of, replies_of.
  destruct s as [es cs rs ds].
  destruct err as [x|], es as [y|], ds; simpl;
    repeat (destruct (head _)); split_and!; by try lia.
Qed.

(** C6.  In [Broadcast], the first error among the calls, in the order
    in which they reach the critical section, is kept and returned, and
    [cancel] is called once if there is an error and not at all
    otherwise; the reply of the first call without an error is copied
    into the caller's reply and latches [replyDone], so that no later
    reply is copied; with a nil [reply], [replyDone] is latched from the
    start and nothing is copied; the value returned is nil exactly when
    every call succeeded.  When [GetAll] fails no call is made and its
    error is returned. *)
Theorem Broadcast_first_error_first_reply (servers : list string)
    (reply0 : option any) (outcomes : list outcome) :
  let s := (Broadcast (servers, None) reply0 outcomes).1 in
  let ret := (Broadcast (servers, None) reply0 outcomes).2 in
  ret = head (errors_of outcomes)
  ∧ e s = ret
  ∧ cancels s = match head (errors_of outcomes) with
                | Some _ => 1%nat
                | None => 0%nat
                end
  ∧ reply s = match reply0 with
              | None => None
              | Some v0 => Some (default v0 (head (replies_of outcomes)))
              end
  ∧ replyDone s = bool_decide (reply0 = None)
                  || bool_decide (head (replies_of outcomes) ≠ None)
  ∧ bool_decide (ret = None)
    = forallb (λ o : outcome, bool_decide (o.1 = None)) outcomes
  ∧ (∀ err, Broadcast (servers, Some err) reply0 outcomes
            = (mkShared None 0 reply0 (bool_decide (reply0 = None)),
               Some err)).
Proof.
  intros s ret. unfold s, ret, Broadcast. cbn [fst snd].
  destruct (foldl_critical outcomes
              (mkShared None 0 reply0 (bool_decide (reply0 = None))))
    as (He & Hc & Hd & Hr).
  cbn [e cancels replyDone reply] in *.
  split_and!.
  - done.
  - done.
  - rewrite Hc. by destruct (head (errors_of outcomes)).
  - rewrite Hr. destruct reply0 as [v0|]; [|done].
    rewrite bool_decide_eq_false_2 by done.
    by destruct (head (replies_of outcomes)).
  - done.
  - rewrite He. clear. unfold errors_of.
    induction outcomes as [|[[x|] v] outcomes IH]; [done..|].
    simpl. by rewrite <- IH.
  - done.
Qed.

End broadcast.

Example Broadcast_example :
  xclient.Broadcast (["tcp@a"; "tcp@b"; "tcp@c"], None) (Some (AnyInt 0))
    [(None, AnyInt 3); (simpleRPC.errors_New "late", AnyInt 0);
     (None, AnyInt 4); (simpleRPC.errors_New "later", AnyInt 0)]
  = (xclient.mkShared (simpleRPC.errors_New "late") 1 (Some (AnyInt 3)) true,
     simpleRPC.errors_New "late").
Proof. reflexivity. Qed.

(** ** The registry *)
Section registry_http.
Import registry.

#[local] Instance string_le_total : Total string_le.
Proof. intros s1 s2. apply String.leb_total. Qed.

Lemma alive_iff (ttl now : Z) (s : ServerItem) :
  alive ttl now s = true ↔ ttl = 0 ∨ now - start s < ttl.
Proof. unfold alive. rewrite orb_true_iff, Z.eqb_eq, Z.ltb_lt. lia. Qed.

Context (ttl : Z) (now : string → Z).

(** The body of the loop of [aliveServers]. *)
Let body (acc : list string * gmap string ServerItem)
    (kv : string * ServerItem) :=
  if alive ttl (now kv.1) kv.2 then (acc.1 ++ [kv.1], acc.2)
  else (acc.1, delete kv.1 acc.2).

Lemma aliveServers_loop_kept (L : list (string * ServerItem)) acc m :
  (foldl body (acc, m) L).1
    = acc ++ (filter (λ kv, alive ttl (now kv.1) kv.2 = true) L).*1.
Proof.
  revert acc m. induction L as [|kv L IH]; intros acc m.
  { simpl. by rewrite app_nil_r. }
  cbn [foldl]. unfold body at 2. rewrite filter_cons.
  destruct (alive ttl (now kv.1) kv.2) eqn:Ha.
  - rewrite decide_True by done. rewrite IH, fmap_cons. cbn [fst snd].
    by rewrite <- (assoc_L (++)).
  - rewrite decide_False by done. by rewrite IH.
Qed.

Lemma aliveServers_loop_deleted (L : list (string * ServerItem)) acc m k :
  (foldl body (acc, m) L).2 !! k
    = if decide (k ∈ (filter (λ kv, alive ttl (now kv.1) kv.2 = false) L).*1)
      then None else m !! k.
Proof.
  revert acc m. induction L as [|kv L IH]; intros acc m.
  { simpl. destruct (decide (k ∈ [])) as [Hin|]; [by inversion Hin|done]. }
  cbn [foldl]. unfold body at 2. rewrite filter_cons.
  destruct (alive ttl (now kv.1) kv.2) eqn:Ha.
  - rewrite (decide_False (P := true = false)) by done. apply IH.
  - rewrite (decide_True (P := false = false)) by done.
    rewrite IH, fmap_cons. cbn [fst snd].
    destruct (decide (k ∈ (filter _ L).*1)) as [Hin|Hnin].
    + rewrite decide_True; [done|]. by apply list_elem_of_further.
    + destruct (decide (k = kv.1)) as [->|Hne].
      * rewrite decide_True by apply list_elem_of_here.
        apply lookup_delete_eq.
      * rewrite decide_False.
        -- by apply lookup_delete_ne.
        -- intros [?|?]%elem_of_cons; done.
Qed.

(** [aliveServers] keeps the entries that are alive, each at the reading
    of the clock made for it, and returns their addresses in order. *)
Lemma aliveServers_spec (r : SimpleRegistry) :
  timeout r = ttl →
  aliveServers now r =
    (mkSimpleRegistry ttl
       (filter (λ kv, alive ttl (now kv.1) kv.2 = true) (servers r)),
     sort_Strings
       (filter (λ kv, alive ttl (now kv.1) kv.2 = true)
               (map_to_list (servers r))).*1).
Proof.
  intros Httl. unfold aliveServers. rewrite Httl. fold body.
  pose proof (aliveServers_loop_kept (map_to_list (servers r)) []
                (servers r)) as Hk.
  pose proof (aliveServers_loop_deleted (map_to_list (servers r)) []
                (servers r)) as Hd.
  destruct (foldl body ([], servers r) (map_to_list (servers r)))
    as [alive_ servers'].
  cbn [fst snd] in Hk, Hd. rewrite Hk. f_equal. f_equal.
  apply map_eq. intros k. rewrite Hd, map_lookup_filter.
  destruct (servers r !! k) as [s|] eqn:Hs; simpl.
  - destruct (alive ttl (now k) s) eqn:Ha.
    + rewrite decide_False.
      { rewrite option_guard_True by done. done. }
      intros ([k' s'] & -> & [Hdead Hin]%list_elem_of_filter)%list_elem_of_fmap.
      apply elem_of_map_to_list in Hin. simpl in *. congruence.
    + rewrite decide_True.
      { rewrite option_guard_False; [done|]. simpl. congruence. }
      apply list_elem_of_fmap. exists (k, s). split; [done|].
      apply list_elem_of_filter. split; [done|].
      by apply elem_of_map_to_list.
  - rewrite decide_False; [done|].
    intros ([k' s'] & -> & [Hdead Hin]%list_elem_of_filter)%list_elem_of_fmap.
    apply elem_of_map_to_list in Hin. simpl in *. congruence.
Qed.

(** The list [aliveServers] returns: in order, without repetition, the
    addresses of the entries it keeps. *)
Lemma aliveServers_list (m : gmap string ServerItem) :
  let l := sort_Strings
             (filter (λ kv, alive ttl (now kv.1) kv.2 = true)
                     (map_to_list m)).*1 in
  Sorted string_le l ∧ NoDup l
  ∧ ∀ a, a ∈ l
         ↔ is_Some (filter (λ kv, alive ttl (now kv.1) kv.2 = true) m !! a).
Proof.
  intros l. split_and!.
  - apply Sorted_merge_sort, _.
  - unfold l, sort_Strings. rewrite merge_sort_Permutation.
    eapply sublist_NoDup; [apply (NoDup_fst_map_to_list m)|].
    apply fmap_sublist, sublist_filter.
  - intros a. unfold l, sort_Strings. rewrite merge_sort_Permutation.
    rewrite list_elem_of_fmap. unfold is_Some.
    setoid_rewrite map_lookup_filter_Some. split.
    + intros ([k s] & -> & [Ha Hin]%list_elem_of_filter).
      exists s. split; [by apply elem_of_map_to_list|done].
    + intros (s & Hs & Ha). exists (a, s). split; [done|].
      apply list_elem_of_filter. split; [done|].
      by apply elem_of_map_to_list.
Qed.

End registry_http.

Section registry_requests.
Import registry.

(** An entry alive at a later reading of the clock was alive at an
    earlier one. *)
Lemma alive_earlier (ttl t1 t2 : Z) (s : ServerItem) :
  t1 ≤ t2 → alive ttl t2 s = true → alive ttl t1 s = true.
Proof. rewrite !alive_iff. lia. Qed.

(** C7.  An entry is alive iff the timeout is 0 or the time since it was
    last seen is below the timeout.  With a clock that does not go back,
    a [GET] deletes every entry that is not alive and puts in the
    [X-Simplerpc-Servers] header the addresses of the remaining entries,
    each once, in increasing order, joined by commas.  A [POST] with an
    empty [X-Simplerpc-Servers] header gives status 500 and changes
    nothing; with an address, it sets the entry of the address, last seen
    now, and leaves the other entries alone.  Any other method gives
    status 405 and changes nothing. *)
Theorem registry_ServeHTTP (r : SimpleRegistry) (now1 now2 : string → Z)
    (req : Request) (Hclock : ∀ a, now1 a ≤ now2 a) :
  (∀ now s, alive (timeout r) now s = true
            ↔ timeout r = 0 ∨ now - start s < timeout r)
  ∧ (Method req = "GET" →
     ∃ l,
       ServeHTTP req now1 now2 r =
         (mkSimpleRegistry (timeout r)
            (filter (λ kv, alive (timeout r) (now2 kv.1) kv.2 = true)
                    (servers r)),
          mkResponse StatusOK (Some (String.concat "," l)))
       ∧ Sorted string_le l ∧ NoDup l
       ∧ ∀ a, a ∈ l ↔
              ∃ s, servers r !! a = Some s
                   ∧ alive (timeout r) (now2 a) s = true)
  ∧ (Method req = "POST" → X_Simplerpc_Servers req = "" →
     ServeHTTP req now1 now2 r
       = (r, mkResponse StatusInternalServerError None))
  ∧ (Method req = "POST" → X_Simplerpc_Servers req ≠ "" →
     let addr := X_Simplerpc_Servers req in
     let r' := (ServeHTTP req now1 now2 r).1 in
     (ServeHTTP req now1 now2 r).2 = mkResponse StatusOK None
     ∧ timeout r' = timeout r
     ∧ servers r' !! addr
       = Some (mkServerItem (default addr (Addr <$> servers r !! addr))
                            (now1 addr))
     ∧ ∀ a, a ≠ addr → servers r' !! a = servers r !! a)
  ∧ (Method req ≠ "GET" → Method req ≠ "POST" →
     ServeHTTP req now1 now2 r
       = (r, mkResponse StatusMethodNotAllowed None)).
Proof.
  split_and!.
  - intros now s. apply alive_iff.
  - intros HG. unfold ServeHTTP. rewrite bool_decide_eq_true_2 by done.
    rewrite (aliveServers_spec (timeout r) now1 r) by done.
    rewrite (aliveServers_spec (timeout r) now2) by done.
    cbn [servers].
    set (P1 := λ kv : string * ServerItem,
                 alive (timeout r) (now1 kv.1) kv.2 = true).
    set (P2 := λ kv : string * ServerItem,
                 alive (timeout r) (now2 kv.1) kv.2 = true).
    assert (Hm : filter P2 (filter P1 (servers r)) = filter P2 (servers r)).
    { apply map_eq. intros k. apply option_eq. intros s.
      rewrite !map_lookup_filter_Some. unfold P1, P2. simpl.
      split; [by intros [[Hs _] Ha]|]. intros [Hs Ha].
      split_and!; [done| |done].
      apply (alive_earlier _ _ (now2 k)); [apply Hclock|done]. }
    eexists. split; [by rewrite Hm|].
    destruct (aliveServers_list (timeout r) now2 (filter P1 (servers r)))
      as (Hsorted & Hnodup & Hin).
    fold P2 in Hsorted, Hnodup, Hin.
    split_and!; [done..|].
    intros a. rewrite Hin, Hm. unfold is_Some.
    by setoid_rewrite map_lookup_filter_Some.
  - intros HP He. unfold ServeHTTP.
    rewrite bool_decide_eq_false_2 by (by rewrite HP).
    by rewrite !bool_decide_eq_true_2 by done.
  - intros HP He addr r'. unfold r', ServeHTTP.
    rewrite bool_decide_eq_false_2 by (by rewrite HP).
    rewrite bool_decide_eq_true_2 by done.
    rewrite bool_decide_eq_false_2 by done.
    fold addr. cbn [fst snd]. unfold putServer.
    destruct (servers r !! addr) as [s|]; cbn [timeout servers fmap
      option_fmap option_map default]; split_and!; try done;
      try apply lookup_insert_eq; intros a Ha; by apply lookup_insert_ne.
  - intros HG HP. unfold ServeHTTP.
    by rewrite !bool_decide_eq_false_2 by done.
Qed.

End registry_requests.

Example registry_GET_example :
  (registry.ServeHTTP (registry.mkRequest "GET" "")
     (λ _, 350 * simpleRPC.Second) (λ _, 350 * simpleRPC.Second)
     examples.two_servers).2
  = registry.mkResponse 200 (Some "tcp@b").
Proof. vm_compute. reflexivity. Qed.

Lemma registry_ServeHTTP_witness :
  (∀ a : string, 350 * simpleRPC.Second ≤ 351 * simpleRPC.Second)
  ∧ ∃ l,
      (registry.ServeHTTP (registry.mkRequest "GET" "")
         (λ _, 350 * simpleRPC.Second) (λ _, 351 * simpleRPC.Second)
         examples.two_servers).2
      = registry.mkResponse registry.StatusOK (Some (String.concat "," l))
      ∧ Sorted registry.string_le l.
Proof.
  assert (Hclock : ∀ a : string,
            350 * simpleRPC.Second ≤ 351 * simpleRPC.Second).
  { intros _. unfold simpleRPC.Second. lia. }
  split; [exact Hclock|].
  destruct (registry_ServeHTTP examples.two_servers
              (λ _, 350 * simpleRPC.Second) (λ _, 351 * simpleRPC.Second)
              (registry.mkRequest "GET" "") Hclock)
    as (_ & HGET & _).
  destruct (HGET eq_refl) as (l & Heq & Hsorted & _).
  exists l. split; [|exact Hsorted].
  exact (f_equal snd Heq).
Defined.

(** ** The HTTP client *)
Section http_client.
Import codec simpleRPC.
Context {C : Type} `{!Codec C}.
Context (new_codec : NewCodecFunc → Conn → C).

(** The request line that [NewHTTPClient] writes. *)
Lemma CONNECT_request :
  "CONNECT " +:+ defaultRPCPath +:+ " HTTP/1.0" +:+ LF +:+ LF
  = "CONNECT /_simplerpc_ HTTP/1.0" +:+ LF +:+ LF.
Proof. reflexivity. Qed.

(** C8, as amended.  [NewHTTPClient] writes exactly the request line
    "CONNECT /_simplerpc_ HTTP/1.0" ended by two line feeds, and goes on
    with the option handshake of [NewClient] only when the response is
    read without an error and its status is "200 Connected to Gee RPC";
    for any other status, and when reading the response fails, it returns
    an error and no client, and writes nothing else. *)
Theorem NewHTTPClient_CONNECT (conn : Conn) (o : ref) (Σ : gmap ref Option) :
  let request := WireBytes ("CONNECT /_simplerpc_ HTTP/1.0" +:+ LF +:+ LF) in
  let conn1 := conn_write request conn in
  (∀ status,
     http_response conn = (status, None) → status = connected →
     NewHTTPClient new_codec conn o Σ = NewClient new_codec conn1 o Σ)
  ∧ (∀ status,
       http_response conn = (status, None) → status ≠ connected →
       NewHTTPClient new_codec conn o Σ
         = (conn1, Σ, inr ("unexpected HTTP response:" +:+ status)))
  ∧ (∀ status e,
       http_response conn = (status, Some e) →
       NewHTTPClient new_codec conn o Σ = (conn1, Σ, inr e))
  ∧ (∃ rest, written (NewHTTPClient new_codec conn o Σ).1.1
             = written conn ++ request :: rest)
  ∧ (∀ c, (NewHTTPClient new_codec conn o Σ).2 = inl c →
          http_response conn = (connected, None)).
Proof.
  intros request conn1. unfold NewHTTPClient. rewrite CONNECT_request.
  fold request. fold conn1.
  assert (Hresp : http_response conn1 = http_response conn) by done.
  rewrite Hresp. split_and!.
  - intros status -> ->. by rewrite bool_decide_eq_true_2.
  - intros status -> Hne. by rewrite bool_decide_eq_false_2.
  - by intros status e ->.
  - destruct (http_response conn) as [status [e|]].
    { exists []. done. }
    case_bool_decide; [|by exists []].
    unfold NewClient.
    destruct (NewCodecFuncMap !! _); [|by exists []].
    destruct (encode_error conn1); [by exists []|].
    destruct (echo _) as [v [e|]]; simpl; eexists;
      by rewrite <- (assoc_L (++)).
  - intros c. destruct (http_response conn) as [status [e|]]; [done|].
    case_bool_decide; [by subst|done].
Qed.

End http_client.

Lemma NewHTTPClient_CONNECT_witness :
  simpleRPC.http_response (examples.http_conn simpleRPC.zeroOption)
  = (simpleRPC.connected, None)
  ∧ simpleRPC.NewHTTPClient (λ _ _, codec.mkScripted [] [] None 0)
      (examples.http_conn simpleRPC.zeroOption) 1%nat examples.two_options
    = simpleRPC.NewClient (λ _ _, codec.mkScripted [] [] None 0)
        (simpleRPC.conn_write
           (simpleRPC.WireBytes
              ("CONNECT /_simplerpc_ HTTP/1.0" +:+ simpleRPC.LF
               +:+ simpleRPC.LF))
           (examples.http_conn simpleRPC.zeroOption))
        1%nat examples.two_options.
Proof.
  split; [reflexivity|].
  destruct (NewHTTPClient_CONNECT (λ _ _, codec.mkScripted [] [] None 0)
              (examples.http_conn simpleRPC.zeroOption) 1%nat
              examples.two_options) as (Hok & _).
  exact (Hok simpleRPC.connected eq_refl eq_refl).
Defined.

(** C8, as stated, fails on the end of the request: the code ends it with
    two line feeds, without carriage returns. *)
Lemma CONNECT_request_has_no_CR :
  simpleRPC.written
    (simpleRPC.NewHTTPClient (λ _ _, codec.mkScripted [] [] None 0)
       (examples.http_conn simpleRPC.zeroOption) 1%nat
       examples.two_options).1.1
  = [simpleRPC.WireBytes
       ("CONNECT /_simplerpc_ HTTP/1.0" +:+ simpleRPC.LF +:+ simpleRPC.LF)]
  ∧ "CONNECT /_simplerpc_ HTTP/1.0" +:+ simpleRPC.LF +:+ simpleRPC.LF
    ≠ "CONNECT /_simplerpc_ HTTP/1.0" +:+ simpleRPC.CR +:+ simpleRPC.LF
      +:+ simpleRPC.CR +:+ simpleRPC.LF.
Proof. split; [reflexivity|discriminate]. Qed.

(** ** Discovery: the first round-robin index *)
Section discovery_index.
Import xclient.

(** For the bound [MaxInt32 - 1], [Intn] is the retry loop of [Int31n]
    with the largest accepted draw at 2^31 - 3. *)
Lemma Intn_MaxInt32_pred (r : Rand) :
  Intn (MaxInt32 - 1) r = Int31n_retry (2 ^ 31 - 3) (2 ^ 31 - 2) r.
Proof. reflexivity. Qed.

Lemma Int31n_retry_range (max n : Z) (r r' : Rand) (i : Z) :
  0 < n → Int31n_retry max n r = Some (i, r') → 0 ≤ i < n.
Proof.
  intros Hn. induction r as [|v r IH]; simpl; [done|].
  destruct (max <? Z.shiftr v 32); [done|].
  intros [= <- _]. by apply Z.mod_pos_bound.
Qed.

(** The index [NewMultiServerDiscovery] sets is below 2^31 - 2. *)
Lemma NewMultiServerDiscovery_index_range (servers : list string)
    (seeded : Rand) (d : MultiServersDiscovery) :
  NewMultiServerDiscovery servers seeded = Some d →
  0 ≤ index d < 2 ^ 31 - 2.
Proof.
  unfold NewMultiServerDiscovery. rewrite Intn_MaxInt32_pred.
  destruct (Int31n_retry _ _ seeded) as [[i r']|] eqn:Hi; [|done].
  intros [= <-]. simpl. by eapply Int31n_retry_range.
Qed.

(** C9, as amended.  [NewMultiServerDiscovery] sets the index to the
    first number the source draws that is below 2^31 - 2, as it is drawn:
    the index lies in [0, 2^31 - 2), every value from 0 through 2^31 - 3
    is a possible index, each for the same number of draws of the source,
    and no other value is. *)
Theorem NewMultiServerDiscovery_index (servers : list string) :
  (∀ seeded d, NewMultiServerDiscovery servers seeded = Some d →
               0 ≤ index d < 2 ^ 31 - 2)
  ∧ (∀ k, 0 ≤ k < 2 ^ 31 - 2 →
          NewMultiServerDiscovery servers [Z.shiftl k 32]
          = Some (mkMultiServersDiscovery [] servers k))
  ∧ (∀ v rest, 0 ≤ v < 2 ^ 63 →
       NewMultiServerDiscovery servers (v :: rest) =
         if Z.shiftr v 32 <? 2 ^ 31 - 2
         then Some (mkMultiServersDiscovery rest servers (Z.shiftr v 32))
         else NewMultiServerDiscovery servers rest).
Proof.
  assert (Hstep : ∀ v rest, 0 ≤ v < 2 ^ 63 →
            NewMultiServerDiscovery servers (v :: rest) =
              if Z.shiftr v 32 <? 2 ^ 31 - 2
              then Some (mkMultiServersDiscovery rest servers (Z.shiftr v 32))
              else NewMultiServerDiscovery servers rest).
  { intros v rest Hv. unfold NewMultiServerDiscovery.
    rewrite !Intn_MaxInt32_pred. cbn [Int31n_retry].
    assert (0 ≤ Z.shiftr v 32) by (apply Z.shiftr_nonneg; lia).
    destruct (Z.ltb_spec (2 ^ 31 - 3) (Z.shiftr v 32)) as [Hgt|Hle];
      destruct (Z.ltb_spec (Z.shiftr v 32) (2 ^ 31 - 2)) as [Hlt|Hge];
      try lia; [done|].
    simpl. by rewrite Z.mod_small by lia. }
  split_and!; [| |done].
  - apply NewMultiServerDiscovery_index_range.
  - intros k Hk.
    assert (Hs : Z.shiftr (Z.shiftl k 32) 32 = k).
    { rewrite Z.shiftr_shiftl_l by lia. by rewrite Z.sub_diag. }
    rewrite Hstep, Hs.
    + by rewrite (proj2 (Z.ltb_lt _ _)) by lia.
    + rewrite Z.shiftl_mul_pow2 by lia. lia.
Qed.

(** C9, as stated, fails at its upper end: 2^31 - 2 is not a possible
    index. *)
Lemma index_never_MaxInt32_pred :
  ¬ ∃ seeded d,
      NewMultiServerDiscovery ["tcp@a"] seeded = Some d
      ∧ index d = 2 ^ 31 - 2.
Proof.
  intros (seeded & d & Hd & Hi).
  apply NewMultiServerDiscovery_index_range in Hd. lia.
Qed.

End discovery_index.

Lemma NewMultiServerDiscovery_index_witness :
  0 ≤ 5 < 2 ^ 31 - 2
  ∧ xclient.NewMultiServerDiscovery ["tcp@a"] [Z.shiftl 5 32]
    = Some (xclient.mkMultiServersDiscovery [] ["tcp@a"] 5).
Proof.
  assert (H5 : 0 ≤ 5 < 2 ^ 31 - 2) by lia.
  split; [exact H5|].
  destruct (NewMultiServerDiscovery_index ["tcp@a"]) as (_ & Hall & _).
  exact (Hall 5 H5).
Defined.

(** ** Options *)
Section options.
Import codec simpleRPC.
Context {C : Type} `{!Codec C}.
Context (new_codec : NewCodecFunc → Conn → C).
Context (Duration_String : Z → string).

Lemma parseOptions_single (Σ : gmap ref Option) (o : ref) (v : Option) :
  Σ !! DefaultOption = Some DefaultOption_value →
  Σ !! o = Some v →
  parseOptions [Some o] Σ = (<[o := parsed v]> Σ, inl o).
Proof.
  intros HD Hv. unfold parseOptions.
  rewrite bool_decide_eq_false_2 by (simpl; lia).
  assert (HdD : deref Σ DefaultOption = DefaultOption_value)
    by (unfold deref; by rewrite HD).
  rewrite HdD. cbn [Option_MagicNumber DefaultOption_value].
  set (Σ1 := alter (set_MagicNumber MagicNumber) o Σ).
  assert (H1 : deref Σ1 o = set_MagicNumber MagicNumber v).
  { unfold deref, Σ1. by rewrite lookup_alter_eq, Hv. }
  rewrite H1. cbn [Option_CodecType set_MagicNumber]. unfold parsed.
  case_bool_decide as Hc; f_equal.
  - assert (o ≠ DefaultOption) as Hne.
    { intros ->. rewrite HD in Hv. by injection Hv as <-. }
    assert (deref Σ1 DefaultOption = DefaultOption_value) as ->.
    { unfold deref, Σ1. by rewrite lookup_alter_ne, HD. }
    apply map_eq. intros k. unfold Σ1.
    destruct (decide (k = o)) as [->|Hk].
    + rewrite !lookup_alter_eq, lookup_insert_eq, Hv. done.
    + by rewrite !lookup_alter_ne, lookup_insert_ne.
  - apply map_eq. intros k. unfold Σ1.
    destruct (decide (k = o)) as [->|Hk].
    + rewrite lookup_alter_eq, lookup_insert_eq, Hv. by destruct v.
    + by rewrite lookup_alter_ne, lookup_insert_ne.
Qed.

(** The option [parseOptions] returns carries the magic number. *)
Lemma parseOptions_MagicNumber (Σ Σ1 : gmap ref Option) opts (o : ref) :
  Σ !! DefaultOption = Some DefaultOption_value →
  (∀ o, Some o ∈ opts → is_Some (Σ !! o)) →
  parseOptions opts Σ = (Σ1, inl o) →
  Option_MagicNumber (deref Σ1 o) = MagicNumber.
Proof.
  intros HD Hwf. destruct opts as [|[o'|] rest].
  - intros [= <- <-]. unfold deref. by rewrite HD.
  - destruct rest as [|x rest]; [|done].
    destruct (Hwf o') as [v Hv]; [apply list_elem_of_here|].
    rewrite (parseOptions_single _ _ _ HD Hv). intros [= <- <-].
    unfold deref. by rewrite lookup_insert_eq.
  - intros [= <- <-]. unfold deref. by rewrite HD.
Qed.

(** A client that [NewClient] builds has sent its option, whose codec is
    registered. *)
Lemma NewClient_sent (conn conn1 : Conn) o (Σ Σ1 : gmap ref Option) c :
  NewClient new_codec conn o Σ = (conn1, Σ1, inl c) →
  written conn1 = written conn ++ [WireOption (deref Σ o)]
  ∧ is_Some (NewCodecFuncMap !! Option_CodecType (deref Σ o)).
Proof.
  unfold NewClient.
  destruct (NewCodecFuncMap !! _) as [f|] eqn:Hf; [|done].
  destruct (encode_error conn); [done|].
  destruct (echo _) as [v [e|]]; [done|].
  intros [= <- _ _]. by split.
Qed.

Lemma NewHTTPClient_sent (conn conn1 : Conn) o (Σ Σ1 : gmap ref Option) c :
  NewHTTPClient new_codec conn o Σ = (conn1, Σ1, inl c) →
  written conn1
    = written conn
      ++ [WireBytes ("CONNECT /_simplerpc_ HTTP/1.0" +:+ LF +:+ LF);
          WireOption (deref Σ o)]
  ∧ is_Some (NewCodecFuncMap !! Option_CodecType (deref Σ o)).
Proof.
  unfold NewHTTPClient.
  destruct (http_response _) as [status [e|]]; [done|].
  case_bool_decide; [|done].
  intros [-> Hc]%NewClient_sent. split; [|done].
  simpl. by rewrite <- (assoc_L (++)).
Qed.

Lemma accepted_intro (v : Option) :
  Option_MagicNumber v = MagicNumber →
  is_Some (NewCodecFuncMap !! Option_CodecType v) →
  accepted v.
Proof.
  intros Hm [f Hf]. exists f. unfold ServeConn_handshake.
  rewrite bool_decide_eq_false_2 by (by intros ?). by rewrite Hf.
Qed.

(** C10, as amended.  While [DefaultOption] holds the values it is
    initialised with: [parseOptions] returns [DefaultOption] when it is
    given no option or when the first option is nil (however many
    follow); it fails when the first option is not nil and more follow;
    given one option, it overwrites its [MagicNumber] with the default
    magic 0x3bef5c and replaces an empty [CodecType] by the gob type,
    leaving the rest of the option as it is.  Every client built through
    [Dial], [DialWithTimeout] or [DialHTTP] has sent an option that
    [ServeConn] accepts. *)
Theorem parseOptions_default (Σ : gmap ref Option) (opts : list (option ref))
    (HD : Σ !! DefaultOption = Some DefaultOption_value)
    (Hwf : ∀ o, Some o ∈ opts → is_Some (Σ !! o)) :
  MagicNumber = 0x3bef5c
  ∧ parseOptions [] Σ = (Σ, inl DefaultOption)
  ∧ (∀ rest, parseOptions (None :: rest) Σ = (Σ, inl DefaultOption))
  ∧ (∀ o x rest, parseOptions (Some o :: x :: rest) Σ
                 = (Σ, inr "number of options is more than 1"))
  ∧ (∀ o v, Σ !! o = Some v →
            parseOptions [Some o] Σ = (<[o := parsed v]> Σ, inl o))
  ∧ (∀ net conn' Σ' c,
       Dial new_codec net opts Σ = (conn', Σ', inl c) →
       ∃ conn0 conn1 v,
         net = inl conn0 ∧ conn' = Some conn1
         ∧ written conn1 = written conn0 ++ [WireOption v] ∧ accepted v)
  ∧ (∀ net timer_first conn' Σ' c,
       DialWithTimeout new_codec Duration_String net timer_first opts Σ
         = (conn', Σ', inl c) →
       ∃ conn0 conn1 v,
         net = inl conn0 ∧ conn' = Some conn1
         ∧ written conn1 = written conn0 ++ [WireOption v] ∧ accepted v)
  ∧ (∀ net timer_first conn' Σ' c,
       DialHTTP new_codec Duration_String net timer_first opts Σ
         = (conn', Σ', inl c) →
       ∃ conn0 conn1 v,
         net = inl conn0 ∧ conn' = Some conn1
         ∧ written conn1
           = written conn0
             ++ [WireBytes ("CONNECT /_simplerpc_ HTTP/1.0" +:+ LF +:+ LF);
                 WireOption v]
         ∧ accepted v).
Proof.
  split_and!.
  - reflexivity.
  - done.
  - done.
  - done.
  - intros o v Hv. by apply parseOptions_single.
  - intros net conn' Σ' c. unfold Dial.
    destruct (parseOptions opts Σ) as [Σ1 [o|e]] eqn:Hp; [|done].
    destruct net as [conn0|e]; [|done].
    destruct (NewClient new_codec conn0 o Σ1) as [[conn1 Σ2] [c'|e]] eqn:Hn;
      [|done].
    intros [= <- _ _]. apply NewClient_sent in Hn as [Hw Hc].
    exists conn0, conn1, (deref Σ1 o). split_and!; [done..|].
    apply accepted_intro; [|done]. by eapply parseOptions_MagicNumber.
  - intros net timer_first conn' Σ' c. unfold DialWithTimeout, dialTimeout.
    destruct (parseOptions opts Σ) as [Σ1 [o|e]] eqn:Hp; [|done].
    destruct net as [conn0|e]; [|done].
    destruct (negb _ && timer_first); [done|].
    destruct (NewClient new_codec conn0 o Σ1) as [[conn1 Σ2] [c'|e]] eqn:Hn;
      [|done].
    intros [= <- _ _]. apply NewClient_sent in Hn as [Hw Hc].
    exists conn0, conn1, (deref Σ1 o). split_and!; [done..|].
    apply accepted_intro; [|done]. by eapply parseOptions_MagicNumber.
  - intros net timer_first conn' Σ' c. unfold DialHTTP, dialTimeout.
    destruct (parseOptions opts Σ) as [Σ1 [o|e]] eqn:Hp; [|done].
    destruct net as [conn0|e]; [|done].
    destruct (negb _ && timer_first); [done|].
    destruct (NewHTTPClient new_codec conn0 o Σ1)
      as [[conn1 Σ2] [c'|e]] eqn:Hn; [|done].
    intros [= <- _ _]. apply NewHTTPClient_sent in Hn as [Hw Hc].
    exists conn0, conn1, (deref Σ1 o). split_and!; [done..|].
    apply accepted_intro; [|done]. by eapply parseOptions_MagicNumber.
Qed.

End options.

Lemma parseOptions_default_witness :
  examples.two_options !! simpleRPC.DefaultOption
  = Some simpleRPC.DefaultOption_value
  ∧ simpleRPC.parseOptions [Some 1%nat] examples.two_options
    = (<[1%nat := simpleRPC.parsed simpleRPC.zeroOption]> examples.two_options,
       inl 1%nat).
Proof.
  assert (HD : examples.two_options !! simpleRPC.DefaultOption
               = Some simpleRPC.DefaultOption_value) by reflexivity.
  assert (Hwf : ∀ o, Some o ∈ [Some 1%nat] →
                     is_Some (examples.two_options !! o)).
  { intros o [= ->]%list_elem_of_singleton. by eexists. }
  split; [exact HD|].
  destruct (parseOptions_default (λ _ _, codec.mkScripted [] [] None 0)
              (λ _, "10s") examples.two_options [Some 1%nat] HD Hwf)
    as (_ & _ & _ & _ & Hone & _).
  exact (Hone 1%nat simpleRPC.zeroOption eq_refl).
Defined.

(** C10, as stated, fails for more than one option when the first is nil:
    [parseOptions] returns [DefaultOption] and no error. *)
Lemma parseOptions_nil_first :
  simpleRPC.parseOptions [None; Some 1%nat] examples.two_options
  = (examples.two_options, inl simpleRPC.DefaultOption).
Proof. reflexivity. Qed.

(** * Further properties *)

(** ** The client: responses, cancellation and teardown *)
Section client_responses.
Import codec simpleRPC.
Context {C : Type} `{!Codec C}.

Lemma state_eq (σ1 σ2 : state C) :
  client σ1 = client σ2 → calls σ1 = calls σ2 → sent σ1 = sent σ2 → σ1 = σ2.
Proof. destruct σ1, σ2. simpl. by intros -> -> ->. Qed.

Lemma receive_iter_unmatched (σ : state C) cc1 h cc2 v err :
  ReadHeader (cc (client σ)) = (cc1, (h, None)) →
  pending (client σ) !! codec.Seq h = None →
  ReadBody None cc1 = (cc2, (v, err)) →
  receive_iter σ = (set_cc cc2 σ, err).
Proof.
  intros HR HP HB.
  unfold receive_iter. rewrite HR. simpl. rewrite HP, HB. f_equal.
  apply state_eq; [|done..]. simpl. by rewrite delete_id.
Qed.

(** X1.  A response that matches no pending call is dropped: its body is
    read and discarded, and nothing but the codec changes; whether the
    loop of [receive] goes on depends on that read alone. *)
Theorem receive_drops_unmatched_response (σ : state C) cc1 h cc2 v err
    (HR : ReadHeader (cc (client σ)) = (cc1, (h, None)))
    (HP : pending (client σ) !! codec.Seq h = None)
    (HB : ReadBody None cc1 = (cc2, (v, err))) :
  receive_iter σ = (set_cc cc2 σ, err)
  ∧ calls (receive_iter σ).1 = calls σ
  ∧ sent (receive_iter σ).1 = sent σ
  ∧ pending (client (receive_iter σ).1) = pending (client σ).
Proof. by rewrite (receive_iter_unmatched σ _ _ _ _ _ HR HP HB). Qed.

(** X2.  A response that carries an error ends its call with that error:
    the body is read and discarded, the reply is not touched, the entry leaves
    the pending table and the call is sent on its [Done] channel. *)
Theorem receive_error_response (σ : state C) cc1 h r c cc2 v err
    (HR : ReadHeader (cc (client σ)) = (cc1, (h, None)))
    (HE : codec.Error h ≠ "")
    (HP : pending (client σ) !! codec.Seq h = Some r)
    (HC : calls σ !! r = Some c)
    (HB : ReadBody None cc1 = (cc2, (v, err))) :
  calls (receive_iter σ).1 !! r
    = Some (with_Error (fmt_Errorf0 (codec.Error h)) c)
  ∧ sent (receive_iter σ).1 !! Done c
    = Some (default [] (sent σ !! Done c) ++ [r])
  ∧ pending (client (receive_iter σ).1)
    = delete (codec.Seq h) (pending (client σ))
  ∧ cc (client (receive_iter σ).1) = cc2
  ∧ (receive_iter σ).2 = err.
Proof.
  unfold receive_iter. rewrite HR. simpl. rewrite HP.
  rewrite bool_decide_eq_true_2 by done. simpl. rewrite HB. simpl.
  set (σ3 := set_cc cc2 _).
  assert (H3 : calls σ3 !! r
               = Some (with_Error (fmt_Errorf0 (codec.Error h)) c)).
  { unfold σ3. simpl. by rewrite lookup_alter_eq, HC. }
  split_and!; [by rewrite calls_done| |by rewrite client_done..|done].
  pose proof (sent_done_fired r _ _ H3) as Hs. cbn [Done with_Error] in Hs.
  by rewrite Hs.
Qed.

(** X3.  After the caller of [CallWithTimeout] has given up, the response
    to its call is dropped: the call is not touched and nothing is sent on any
    channel. *)
Theorem cancelled_call_ignores_response (σ : state C) ctx_err r c cc1 h cc2 v err
    (HC : calls σ !! r = Some c)
    (HR : ReadHeader (cc (client σ)) = (cc1, (h, None)))
    (HS : codec.Seq h = Seq c)
    (HB : ReadBody None cc1 = (cc2, (v, err))) :
  let σ1 := (CallWithTimeout_cancelled ctx_err r σ).1 in
  (CallWithTimeout_cancelled ctx_err r σ).2
    = errors_New ("rpc client: call failed: " +:+ ctx_err)
  ∧ calls (receive_iter σ1).1 = calls σ
  ∧ sent (receive_iter σ1).1 = sent σ
  ∧ pending (client (receive_iter σ1).1) = delete (Seq c) (pending (client σ)).
Proof.
  intros σ1. unfold σ1, CallWithTimeout_cancelled. rewrite HC. simpl.
  split; [done|].
  set (σ' := with_client _ σ).
  assert (HR' : ReadHeader (cc (client σ')) = (cc1, (h, None))) by done.
  assert (HP' : pending (client σ') !! codec.Seq h = None).
  { unfold σ'. simpl. rewrite HS. apply lookup_delete_eq. }
  rewrite (receive_iter_unmatched σ' _ _ _ _ _ HR' HP' HB).
  done.
Qed.

(** [send] on a client that is available, up to the write. *)
Lemma send_available (σ : state C) r c cc1 werr :
  IsAvailable σ = true →
  calls σ !! r = Some c →
  Write (mkHeader (ServiceMethod c) (seq (client σ)) "") (Args c)
        (cc (client σ)) = (cc1, werr) →
  let s := seq (client σ) in
  let c' := mkCall s (ServiceMethod c) (Args c) (Reply c) (Error c) (Done c) in
  let σ3 := mkState (mkClient cc1 (opt (client σ))
                       (mkHeader (ServiceMethod c) s "") (wrap64 (s + 1))
                       (<[s := r]> (pending (client σ)))
                       (closing (client σ)) (shutdown (client σ)))
                    (<[r := c']> (calls σ)) (sent σ) in
  send r σ =
    match werr with
    | None => σ3
    | Some e =>
        done r (set_Error r (errors_New e)
                  (with_client (λ _, mkClient cc1 (opt (client σ))
                       (mkHeader (ServiceMethod c) s "") (wrap64 (s + 1))
                       (delete s (pending (client σ)))
                       (closing (client σ)) (shutdown (client σ))) σ3))
    end.
Proof.
  intros HA HC HW s c' σ3. subst σ3 c' s. unfold IsAvailable in HA.
  apply andb_true_iff in HA as [Hs Hc]. apply negb_true_iff in Hs, Hc.
  unfold send, registerCall. rewrite Hc, Hs. simpl.
  rewrite lookup_alter_eq, HC. simpl. rewrite HW.
  assert (Halter : alter (λ c0, mkCall (seq (client σ)) (ServiceMethod c0)
                                 (Args c0) (Reply c0) (Error c0) (Done c0))
                         r (calls σ)
                   = <[r := mkCall (seq (client σ)) (ServiceMethod c) (Args c)
                                   (Reply c) (Error c) (Done c)]> (calls σ)).
  { apply map_eq. intros k. destruct (decide (k = r)) as [->|Hne].
    - by rewrite lookup_alter_eq, lookup_insert_eq, HC.
    - by rewrite lookup_alter_ne, lookup_insert_ne. }
  destruct werr as [e|]; simpl.
  - rewrite lookup_insert_eq. unfold set_cc, set_header, with_client, set_Seq.
    simpl. rewrite Halter, delete_insert_eq. done.
  - unfold set_cc, set_header, with_client, set_Seq. simpl. by rewrite Halter.
Qed.

(** X4.  [send] on an available client registers the call under the
    current sequence number and writes the header with that number, the
    service method of the call and an empty error, together with the
    arguments.  If the write fails, the call leaves the pending table
    again, gets the error of the write, and is sent on its [Done] channel;
    if it succeeds, nothing is sent on any channel. *)
Theorem send_registers_then_writes (σ : state C) r c cc1 werr
    (HA : IsAvailable σ = true)
    (HC : calls σ !! r = Some c)
    (HW : Write (mkHeader (ServiceMethod c) (seq (client σ)) "") (Args c)
                (cc (client σ)) = (cc1, werr)) :
  let s := seq (client σ) in
  cc (client (send r σ)) = cc1
  ∧ header (client (send r σ)) = mkHeader (ServiceMethod c) s ""
  ∧ seq (client (send r σ)) = wrap64 (s + 1)
  ∧ match werr with
    | None =>
        pending (client (send r σ)) = <[s := r]> (pending (client σ))
        ∧ calls (send r σ) !! r
          = Some (mkCall s (ServiceMethod c) (Args c) (Reply c) (Error c)
                         (Done c))
        ∧ sent (send r σ) = sent σ
    | Some e =>
        pending (client (send r σ)) = delete s (pending (client σ))
        ∧ calls (send r σ) !! r
          = Some (mkCall s (ServiceMethod c) (Args c) (Reply c)
                         (errors_New e) (Done c))
        ∧ sent (send r σ) !! Done c
          = Some (default [] (sent σ !! Done c) ++ [r])
    end.
Proof.
  intros s. rewrite (send_available σ r c cc1 werr HA HC HW). fold s.
  destruct werr as [e|].
  - rewrite !client_done. simpl. split_and!; [done..| |].
    + rewrite calls_done. simpl.
      by rewrite lookup_alter_eq, lookup_insert_eq.
    + set (σ4 := set_Error r _ _).
      assert (H4 : calls σ4 !! r
                   = Some (mkCall s (ServiceMethod c) (Args c) (Reply c)
                             (errors_New e) (Done c))).
      { unfold σ4. simpl. by rewrite lookup_alter_eq, lookup_insert_eq. }
      pose proof (sent_done_fired r _ _ H4) as Hs. cbn [Done] in Hs.
      by rewrite Hs.
  - simpl. split_and!; [done..| |done]. apply lookup_insert_eq.
Qed.

(** What one step does to the pending table: an entry there afterwards
    was there before, or has just been registered under the current
    sequence number. *)
Lemma exec_pending (m : action) (σ : state C) k r :
  pending (client (exec m σ).1) !! k = Some r →
  pending (client σ) !! k = Some r
  ∨ (k = seq (client σ) ∧ ∃ e, (exec m σ).2 = RRegisterCall k e ∧ e = None).
Proof.
  destruct m; simpl; try (by left).
  - unfold Close. destruct (closing (client σ)); [by left|].
    destruct (codec.Close (cc (client σ))). by left.
  - unfold registerCall.
    destruct (closing (client σ) || shutdown (client σ)); [by left|].
    simpl. intros [[<- _]|[_ ?]]%lookup_insert_Some; [|by left].
    right. eauto.
  - intros [_ ?]%lookup_delete_Some. by left.
  - rewrite client_terminateCalls. by left.
  - rewrite client_done. by left.
Qed.

Lemma pending_below_run (ms : list action) (σ : state C) :
  1 ≤ seq (client σ) →
  seq (client σ) + Z.of_nat (length (registered (run ms σ).2))
    < uint64_modulus →
  (∀ k r, pending (client σ) !! k = Some r → 1 ≤ k < seq (client σ)) →
  seq (client (run ms σ).1)
    = seq (client σ) + Z.of_nat (length (registered (run ms σ).2))
  ∧ ∀ k r, pending (client (run ms σ).1) !! k = Some r →
           1 ≤ k < seq (client (run ms σ).1).
Proof.
  revert σ. induction ms as [|m ms IH]; intros σ Hlo Hhi Hinv.
  { simpl. split; [lia|done]. }
  simpl in *. pose proof (exec_seq m σ) as [Hseq Hres].
  pose proof (exec_pending m σ) as Hpend.
  destruct (exec m σ) as [σ1 x]. specialize (IH σ1).
  destruct (run ms σ1) as [σ2 xs]. simpl in *.
  unfold registered in *.
  destruct x as [e|b|s [e|]|o|]; simpl in *;
    try (rewrite Hseq in IH; destruct IH as [IH1 IH2];
         [lia|lia| |split; [lia|done]];
         intros k r Hk;
         destruct (Hpend k r Hk) as [Hold|(_ & e' & Hx & He')];
         [by apply Hinv in Hold|congruence]).
  subst s. rewrite Nat2Z.inj_succ in Hhi |- *.
  rewrite wrap64_small in Hseq by (unfold uint64_modulus in *; lia).
  destruct IH as [IH1 IH2]; [lia|lia| |split; [lia|done]].
  intros k r Hk. destruct (Hpend k r Hk) as [Hold|[-> _]];
    [apply Hinv in Hold|]; lia.
Qed.

(** X5.  On a client made by [newClientCodec], as long as the counter has
    not wrapped, every key of the pending table is a sequence number
    handed out before, at least 1 and below the current one: so
    [registerCall] never replaces a pending call, and no pending call has
    the sequence number 0 that a call not registered carries. *)
Theorem pending_keys_below_seq (cc0 : C) (opt0 : ref) (ms : list action)
    (Hnowrap : 1 + Z.of_nat (length (registered
                                 (run ms (newClientCodec cc0 opt0)).2))
               < uint64_modulus) :
  let σ := (run ms (newClientCodec cc0 opt0)).1 in
  seq (client σ)
    = 1 + Z.of_nat (length (registered (run ms (newClientCodec cc0 opt0)).2))
  ∧ (∀ k r, pending (client σ) !! k = Some r → 1 ≤ k < seq (client σ))
  ∧ pending (client σ) !! seq (client σ) = None
  ∧ pending (client σ) !! 0 = None.
Proof.
  intros σ.
  destruct (pending_below_run ms (newClientCodec cc0 opt0)) as [Hs Hinv];
    [simpl; lia|done|done|].
  fold σ in Hs, Hinv. split_and!; [done|done| |].
  - destruct (pending (client σ) !! seq (client σ)) as [r|] eqn:Hp; [|done].
    apply Hinv in Hp. lia.
  - destruct (pending (client σ) !! 0) as [r|] eqn:Hp; [|done].
    apply Hinv in Hp. lia.
Qed.

(** X6.  A client that is not available never becomes available again,
    whatever its code does; it is not available once [Close] or
    [terminateCalls] has run. *)
Theorem unavailable_forever (σ : state C) (ms : list action) :
  (IsAvailable σ = false → IsAvailable (run ms σ).1 = false)
  ∧ IsAvailable (run ms (Close σ).1).1 = false
  ∧ (∀ err, IsAvailable (run ms (terminateCalls err σ)).1 = false).
Proof.
  assert (Hmono : ∀ σ0 : state C,
            IsAvailable σ0 = false → IsAvailable (run ms σ0).1 = false).
  { intros σ0. unfold IsAvailable. rewrite !andb_false_iff, !negb_false_iff.
    destruct (run_flags ms σ0) as [Hc Hs]. intros [?|?]; auto. }
  split_and!; [apply Hmono| |].
  - apply Hmono. unfold IsAvailable, Close.
    destruct (closing (client σ)) eqn:Hc.
    + simpl. rewrite Hc. apply andb_false_r.
    + destruct (codec.Close (cc (client σ))). simpl. apply andb_false_r.
  - intros err. apply Hmono. unfold IsAvailable.
    by rewrite client_terminateCalls.
Qed.



(** X8.  A call posted by [Go] on an available client whose request is
    written, and whose response then arrives with the sequence number of
    the call, an empty error and a body that decodes as [v], ends with [v]
    in its reply and no error; it is sent once on its [Done] channel, and
    its entry has left the pending table. *)
Theorem Go_then_response (σ : state C) sm args reply d cc1 cc2 h cc3 v
    (HA : IsAvailable σ = true)
    (HW : Write (mkHeader sm (seq (client σ)) "") args (cc (client σ))
          = (cc1, None))
    (HR : ReadHeader cc1 = (cc2, (h, None)))
    (HS : codec.Seq h = seq (client σ))
    (HE : codec.Error h = "")
    (HB : ReadBody (Some reply) cc2 = (cc3, (v, None))) :
  let σ1 := (Go sm args reply d σ).1 in
  let r := (Go sm args reply d σ).2 in
  let σ2 := (receive_iter σ1).1 in
  calls σ2 !! r = Some (mkCall (seq (client σ)) sm args v None d)
  ∧ CallWithTimeout_done r σ2 = (σ2, None)
  ∧ sent σ2 !! d = Some (default [] (sent σ !! d) ++ [r])
  ∧ pending (client σ2) = delete (seq (client σ)) (pending (client σ))
  ∧ (receive_iter σ1).2 = None.
Proof.
  intros σ1 r σ2. unfold σ2, σ1, r, Go. cbn [fst snd].
  set (r0 := fresh (dom (calls σ))).
  set (c0 := mkCall 0 sm args reply None d).
  assert (HC0 : calls (new_Call c0 σ) !! r0 = Some c0)
    by apply lookup_insert_eq.
  rewrite (send_available (new_Call c0 σ) r0 c0 cc1 None HA HC0 HW).
  cbn [new_Call client calls sent c0 ServiceMethod Args Reply Error Done].
  set (c1 := mkCall (seq (client σ)) sm args reply None d).
  unfold receive_iter. cbn [client cc]. rewrite HR. simpl.
  rewrite HS, lookup_insert_eq.
  rewrite bool_decide_eq_false_2 by (by rewrite HE; intros []).
  rewrite lookup_insert_eq. simpl. rewrite HB. simpl.
  set (σ3 := set_Reply r0 v _).
  assert (H3 : calls σ3 !! r0 = Some (mkCall (seq (client σ)) sm args v None d)).
  { unfold σ3, set_Reply. simpl. by rewrite lookup_alter_eq, lookup_insert_eq. }
  pose proof (sent_done_fired r0 _ _ H3) as Hs. cbn [Done] in Hs.
  split_and!.
  - by rewrite calls_done.
  - unfold CallWithTimeout_done. by rewrite calls_done, H3.
  - by rewrite Hs.
  - rewrite client_done. simpl. apply delete_insert_eq.
  - done.
Qed.

End client_responses.

Lemma receive_drops_unmatched_response_witness :
  (simpleRPC.receive_iter
     (simpleRPC.newClientCodec examples.reply_stream simpleRPC.DefaultOption)).2
  = None.
Proof.
  edestruct (receive_drops_unmatched_response
               (simpleRPC.newClientCodec examples.reply_stream
                  simpleRPC.DefaultOption)) as [Heq _];
    [reflexivity..|].
  exact (f_equal snd Heq).
Defined.

Lemma receive_error_response_witness :
  simpleRPC.Error <$>
    simpleRPC.calls
      (simpleRPC.receive_iter
         (examples.one_pending_on examples.error_stream)).1 !! 0%nat
  = Some (simpleRPC.fmt_Errorf0 "rpc server: can't find method Sum").
Proof.
  edestruct (receive_error_response
               (examples.one_pending_on examples.error_stream))
    as [Hc _]; [vm_compute; reflexivity| |vm_compute; reflexivity..|].
  { vm_compute. discriminate. }
  exact (f_equal (fmap simpleRPC.Error) Hc).
Defined.

Lemma cancelled_call_ignores_response_witness :
  simpleRPC.sent
    (simpleRPC.receive_iter
       (simpleRPC.CallWithTimeout_cancelled "context deadline exceeded" 0%nat
          (examples.one_pending_on examples.reply_stream)).1).1
  = simpleRPC.sent (examples.one_pending_on examples.reply_stream).
Proof.
  edestruct (cancelled_call_ignores_response
               (examples.one_pending_on examples.reply_stream)
               "context deadline exceeded" 0%nat)
    as (_ & _ & Hs & _); [vm_compute; reflexivity..|].
  exact Hs.
Defined.

Lemma send_registers_then_writes_witness :
  simpleRPC.pending
    (simpleRPC.client
       (simpleRPC.send 0%nat
          (simpleRPC.new_Call
             (simpleRPC.mkCall 0 "Foo.Sum" (AnyInt 1) (AnyInt 0) None 7%nat)
             (simpleRPC.newClientCodec examples.broken_codec
                simpleRPC.DefaultOption))))
  = delete 1 ∅.
Proof.
  edestruct (send_registers_then_writes
               (simpleRPC.new_Call
                  (simpleRPC.mkCall 0 "Foo.Sum" (AnyInt 1) (AnyInt 0) None 7%nat)
                  (simpleRPC.newClientCodec examples.broken_codec
                     simpleRPC.DefaultOption)) 0%nat)
    as (_ & _ & _ & Hw); [vm_compute; reflexivity..|].
  simpl in Hw. exact (proj1 Hw).
Defined.

Lemma pending_keys_below_seq_witness :
  simpleRPC.seq
    (simpleRPC.client
       (simpleRPC.run [simpleRPC.MRegisterCall 0%nat; simpleRPC.MRemoveCall 1;
                       simpleRPC.MRegisterCall 1%nat]
          (simpleRPC.newClientCodec examples.reply_stream
             simpleRPC.DefaultOption)).1)
  = 1 + Z.of_nat 2.
Proof.
  apply (pending_keys_below_seq examples.reply_stream simpleRPC.DefaultOption
           [simpleRPC.MRegisterCall 0%nat; simpleRPC.MRemoveCall 1;
            simpleRPC.MRegisterCall 1%nat]).
  vm_compute. reflexivity.
Defined.

Lemma unavailable_forever_witness :
  simpleRPC.IsAvailable
    (simpleRPC.run [simpleRPC.MRegisterCall 0%nat]
       (simpleRPC.Close (examples.one_pending_on examples.reply_stream)).1).1
  = false.
Proof.
  apply (unavailable_forever (examples.one_pending_on examples.reply_stream)
           [simpleRPC.MRegisterCall 0%nat]).
Defined.


Lemma Go_then_response_witness :
  simpleRPC.calls
    (simpleRPC.receive_iter
       (simpleRPC.Go "Foo.Sum" (AnyInt 1) (AnyInt 0) 7%nat
          (simpleRPC.newClientCodec examples.reply_stream
             simpleRPC.DefaultOption)).1).1
  !! (simpleRPC.Go "Foo.Sum" (AnyInt 1) (AnyInt 0) 7%nat
        (simpleRPC.newClientCodec examples.reply_stream
           simpleRPC.DefaultOption)).2
  = Some (simpleRPC.mkCall 1 "Foo.Sum" (AnyInt 1) (AnyInt 3) None 7%nat).
Proof.
  edestruct (Go_then_response
               (simpleRPC.newClientCodec examples.reply_stream
                  simpleRPC.DefaultOption)
               "Foo.Sum" (AnyInt 1) (AnyInt 0) 7%nat)
    as (Hc & _); [vm_compute; reflexivity..|].
  exact Hc.
Defined.

(** ** Dialing: connections, time limits and addresses *)
Section dialing.
Import codec simpleRPC.
Context {C : Type} `{!Codec C}.
Context (new_codec : NewCodecFunc → Conn → C).
Context (Duration_String : Z → string).






(** X10.  What [ConnectTimeout] limits.  When the option [parseOptions]
    returns has a [ConnectTimeout] of 0, or when the client is built
    before the timer fires, [DialWithTimeout] returns what [Dial] returns
    for the same answer of the network.  When the [ConnectTimeout] is not
    0 and the timer fires first, the dial fails with the error
    [rpc client: connect timeout: expect within <timeout> ], whatever the
    function that builds the client would do, and closes the connection. *)
Theorem ConnectTimeout_limit (net : Conn + string) (tf : bool)
    (opts : list (option ref)) (Σ Σ1 : gmap ref Option) (o : ref)
    (Hp : parseOptions opts Σ = (Σ1, inl o)) :
  (Option_ConnectTimeout (deref Σ1 o) = 0 ∨ tf = false →
   DialWithTimeout new_codec Duration_String net tf opts Σ
   = Dial new_codec net opts Σ)
  ∧ (Option_ConnectTimeout (deref Σ1 o) ≠ 0 →
     ∀ (f : newClientFunc (C := C)) conn,
       dialTimeout Duration_String f (inl conn) true opts Σ
       = (Some (conn_Close conn), Σ1,
          inr ("rpc client: connect timeout: expect within "
               +:+ Duration_String (Option_ConnectTimeout (deref Σ1 o))
               +:+ " "))).
Proof.
  split.
  - intros Hz. unfold DialWithTimeout, dialTimeout, Dial. rewrite Hp.
    destruct net as [conn0|e]; [|done].
    assert (negb (bool_decide (Option_ConnectTimeout (deref Σ1 o) = 0)) && tf
            = false) as ->; [|done].
    destruct Hz as [->| ->]; [done|]. apply andb_false_r.
  - intros Hnz f conn. unfold dialTimeout. rewrite Hp.
    by rewrite bool_decide_eq_false_2 by done.
Qed.

(** *** [strings.Split] *)

Lemma Split_cons (s : string) (sep : ascii) :
  ∃ piece rest, Split s sep = piece :: rest.
Proof.
  destruct s as [|a s]; simpl; [by eexists _, _|].
  destruct (Ascii.eqb a sep); [by eexists _, _|].
  destruct (Split s sep); by eexists _, _.
Qed.

Lemma Split_no_sep (s : string) (sep : ascii) :
  ¬ In sep (String.list_ascii_of_string s) → Split s sep = [s].
Proof.
  induction s as [|a s IH]; simpl; [done|]. intros Hn.
  destruct (Ascii.eqb_spec a sep) as [->|Hne]; [exfalso; by apply Hn; left|].
  rewrite IH; [done|]. intros Hin. apply Hn. by right.
Qed.

Lemma Split_append (a b : string) (sep : ascii) :
  ¬ In sep (String.list_ascii_of_string a) →
  Split (a +:+ String sep b) sep = a :: Split b sep.
Proof.
  induction a as [|x a IH]; simpl.
  - intros _. by rewrite Ascii.eqb_refl.
  - intros Hn.
    destruct (Ascii.eqb_spec x sep) as [->|Hne]; [exfalso; by apply Hn; left|].
    rewrite IH; [done|]. intros Hin. apply Hn. by right.
Qed.

Lemma Split_length (s : string) (sep : ascii) :
  length (Split s sep)
  = S (count_occ Ascii.ascii_dec (String.list_ascii_of_string s) sep).
Proof.
  induction s as [|a s IH]; simpl; [done|].
  destruct (Ascii.eqb_spec a sep) as [->|Hne].
  - simpl. rewrite IH. by destruct (Ascii.ascii_dec sep sep).
  - destruct (Ascii.ascii_dec a sep) as [?|_]; [done|].
    rewrite <- IH. by destruct (Split_cons s sep) as (p & rest & ->).
Qed.

(** X11.  The addresses [XDial] takes.  An address [protocol@addr], with
    no further [@], is dialed by [DialHTTP] on the network [tcp] when the
    protocol is [http], and by [DialWithTimeout] on the network
    [protocol] otherwise, in both cases at [addr].  An address in which
    the number of [@] is not one is refused with the error
    [rpc client err: wrong format '<address>', expect protocol@addr],
    before the options are looked at and before any connection is
    opened. *)
Theorem XDial_address (net : string → string → Conn + string) (tf : bool)
    (opts : list (option ref)) (Σ : gmap ref Option) :
  (∀ protocol addr,
     ¬ In "@"%char (String.list_ascii_of_string protocol) →
     ¬ In "@"%char (String.list_ascii_of_string addr) →
     XDial new_codec Duration_String net tf (protocol +:+ "@" +:+ addr) opts Σ
     = if bool_decide (protocol = "http")
       then DialHTTP new_codec Duration_String (net "tcp" addr) tf opts Σ
       else DialWithTimeout new_codec Duration_String (net protocol addr)
                            tf opts Σ)
  ∧ (∀ rpcAddr,
       count_occ Ascii.ascii_dec (String.list_ascii_of_string rpcAddr)
                 "@"%char ≠ 1%nat →
       XDial new_codec Duration_String net tf rpcAddr opts Σ
       = (None, Σ,
          inr ("rpc client err: wrong format '" +:+ rpcAddr
               +:+ "', expect protocol@addr"))).
Proof.
  split.
  - intros protocol addr Hp Ha. unfold XDial.
    change (protocol +:+ "@" +:+ addr)
      with (protocol +:+ String "@"%char addr).
    by rewrite Split_append, Split_no_sep.
  - intros rpcAddr Hn. unfold XDial.
    pose proof (Split_length rpcAddr "@"%char) as Hl.
    destruct (Split rpcAddr "@"%char) as [|p [|a [|x rest]]]; try done.
    simpl in Hl. exfalso. apply Hn. lia.
Qed.


End dialing.


Lemma ConnectTimeout_limit_witness :
  simpleRPC.DialWithTimeout examples.scripted_codec examples.ten_seconds
    (inl examples.silent_conn) true [Some 1%nat] examples.two_options
  = simpleRPC.Dial examples.scripted_codec (inl examples.silent_conn)
      [Some 1%nat] examples.two_options.
Proof.
  edestruct (ConnectTimeout_limit examples.scripted_codec
               examples.ten_seconds (inl examples.silent_conn) true
               [Some 1%nat] examples.two_options) as [Hz _];
    [vm_compute; reflexivity|].
  apply Hz. left. vm_compute. reflexivity.
Defined.

Lemma XDial_address_witness :
  simpleRPC.XDial examples.scripted_codec examples.ten_seconds
    examples.no_network false "http@10.0.0.1:9999" [] examples.two_options
  = simpleRPC.DialHTTP examples.scripted_codec examples.ten_seconds
      (examples.no_network "tcp" "10.0.0.1:9999") false []
      examples.two_options.
Proof.
  apply (proj1 (XDial_address examples.scripted_codec examples.ten_seconds
                  examples.no_network false [] examples.two_options)
           "http" "10.0.0.1:9999");
    vm_compute; intuition discriminate.
Defined.

(** ** Discovery: selecting a server *)
Section discovery_select.
Import xclient.

Lemma land_bound (v m : Z) : 0 ≤ m → 0 ≤ Z.land v m ≤ m.
Proof.
  intros Hm. split; [apply Z.land_nonneg; by right|].
  assert (Hd : Z.ldiff (Z.land v m) m = 0).
  { apply Z.bits_inj'. intros i Hi.
    rewrite Z.ldiff_spec, Z.land_spec, Z.bits_0.
    by destruct (Z.testbit v i), (Z.testbit m i). }
  pose proof (Z.sub_nocarry_ldiff m (Z.land v m) Hd) as Hs.
  assert (0 ≤ Z.ldiff m (Z.land v m)) by (apply Z.ldiff_nonneg; by left).
  lia.
Qed.

Lemma Int63n_retry_range (max n : Z) (r r' : Rand) (i : Z) :
  0 < n → Int63n_retry max n r = Some (i, r') → 0 ≤ i < n.
Proof.
  intros Hn. induction r as [|v r IH]; simpl; [done|].
  destruct (max <? v); [done|].
  intros [= <- _]. by apply Z.mod_pos_bound.
Qed.

(** [Intn(n)] returns a number in [0, n). *)
Lemma Intn_range (n : Z) (r r' : Rand) (i : Z) :
  Intn n r = Some (i, r') → 0 ≤ i < n.
Proof.
  unfold Intn, Int31n, Int63n, Int31, Int63.
  destruct (Z.leb_spec n 0) as [|Hn]; [done|].
  destruct (n <=? 2 ^ 31 - 1).
  - destruct (Z.land n (n - 1) =? 0).
    + destruct r as [|v r]; [done|]. simpl. intros [= <- _].
      pose proof (land_bound (Z.shiftr v 32) (n - 1)). lia.
    + by apply Int31n_retry_range.
  - destruct (Z.land n (n - 1) =? 0).
    + destruct r as [|v r]; [done|]. simpl. intros [= <- _].
      pose proof (land_bound v (n - 1)). lia.
    + by apply Int63n_retry_range.
Qed.

Lemma lookup_in_range (l : list string) (i : Z) :
  0 ≤ i < Z.of_nat (length l) → ∃ s, l !! Z.to_nat i = Some s.
Proof.
  intros Hi. apply lookup_lt_is_Some_2. lia.
Qed.

(** One [Get] in the round-robin mode. *)
Lemma Get_RoundRobin (d : MultiServersDiscovery) :
  servers d ≠ [] → 0 ≤ index d < 2 ^ 63 - 1 →
  let n := Z.of_nat (length (servers d)) in
  ∃ s, servers d !! Z.to_nat (index d mod n) = Some s
       ∧ MultiServersDiscovery_Get RoundRobinSelect d
         = Some (mkMultiServersDiscovery (r d) (servers d)
                   ((index d + 1) mod n), (s, None)).
Proof.
  intros Hne Hi n.
  assert (Hn : 0 < n) by (unfold n; destruct (servers d); [done|simpl; lia]).
  pose proof (Z.mod_pos_bound (index d) n Hn) as Hm.
  destruct (lookup_in_range (servers d) (index d mod n) Hm) as [s Hs].
  exists s. split; [done|]. unfold MultiServersDiscovery_Get. fold n.
  rewrite (proj2 (Z.eqb_neq n 0)) by lia. cbn [Z.eqb RoundRobinSelect
    RandomSelect].
  rewrite Z.rem_mod_nonneg by lia.
  rewrite (proj2 (Z.ltb_ge _ _)) by lia. rewrite Hs. cbn [mbind option_bind].
  assert (wrap_int (index d + 1) = index d + 1) as ->.
  { unfold wrap_int. rewrite Z.mod_small; lia. }
  by rewrite Z.rem_mod_nonneg by lia.
Qed.

(** X12.  [Get] never indexes the list out of range.  With the index at
    0 or above, as [NewMultiServerDiscovery] leaves it: for an empty list
    [Get] returns the error [rpc discovery: no available servers]; in the
    round-robin mode it returns the server at the index modulo the length
    of the list and moves the index to the next position modulo the
    length, so that the index is below the length from then on, whatever
    [Update] does to the list in between; in the random mode it returns
    the server at the number [Intn] draws, which is below the length, and
    leaves the index; for any other mode it returns the error
    [rpc discovery: not supported select mode]. *)
Theorem Get_selects_in_range (mode : SelectMode) (d : MultiServersDiscovery)
    (Hindex : 0 ≤ index d < 2 ^ 63 - 1) :
  let n := Z.of_nat (length (servers d)) in
  (servers d = [] →
   MultiServersDiscovery_Get mode d
   = Some (d, (EmptyString, Some "rpc discovery: no available servers")))
  ∧ (servers d ≠ [] → mode = RoundRobinSelect →
     ∃ s, servers d !! Z.to_nat (index d mod n) = Some s
          ∧ MultiServersDiscovery_Get mode d
            = Some (mkMultiServersDiscovery (r d) (servers d)
                      ((index d + 1) mod n), (s, None))
          ∧ 0 ≤ (index d + 1) mod n < n)
  ∧ (servers d ≠ [] → mode = RandomSelect →
     ∀ i r', Intn n (r d) = Some (i, r') →
       ∃ s, servers d !! Z.to_nat i = Some s ∧ 0 ≤ i < n
            ∧ MultiServersDiscovery_Get mode d
              = Some (mkMultiServersDiscovery r' (servers d) (index d),
                      (s, None)))
  ∧ (servers d ≠ [] → mode ≠ RandomSelect → mode ≠ RoundRobinSelect →
     MultiServersDiscovery_Get mode d
     = Some (d, (EmptyString,
                 Some "rpc discovery: not supported select mode"))).
Proof.
  intros n. split_and!.
  - intros He. unfold MultiServersDiscovery_Get. by rewrite He.
  - intros Hne ->. destruct (Get_RoundRobin d Hne Hindex) as (s & Hs & HG).
    exists s. split; [exact Hs|split; [exact HG|]].
    apply Z.mod_pos_bound. unfold n. destruct (servers d); [done|simpl; lia].
  - intros Hne -> i r' Hi.
    pose proof (Intn_range _ _ _ _ Hi) as Hr.
    destruct (lookup_in_range (servers d) i Hr) as [s Hs].
    exists s. split; [exact Hs|split; [exact Hr|]].
    unfold MultiServersDiscovery_Get. fold n.
    rewrite (proj2 (Z.eqb_neq n 0)) by lia. cbn [Z.eqb RandomSelect].
    rewrite Hi. cbn [mbind option_bind]. by rewrite Hs.
  - intros Hne H0 H1. unfold MultiServersDiscovery_Get. fold n.
    assert (Hn : 0 < n) by (unfold n; destruct (servers d); [done|simpl; lia]).
    rewrite (proj2 (Z.eqb_neq n 0)) by lia.
    by rewrite (proj2 (Z.eqb_neq mode RandomSelect)),
      (proj2 (Z.eqb_neq mode RoundRobinSelect)) by done.
Qed.

(** [k] round-robin calls from the position [i], when the end of the
    list is at least [k] away. *)
Lemma Gets_RoundRobin_run (rd : Rand) (l : list string) (k i : nat) :
  (i + k ≤ length l)%nat → (0 < k)%nat →
  Z.of_nat (length l) < 2 ^ 63 - 1 →
  MultiServersDiscovery_Gets RoundRobinSelect k
    (mkMultiServersDiscovery rd l (Z.of_nat i))
  = Some (mkMultiServersDiscovery rd l
            (Z.of_nat (i + k) mod Z.of_nat (length l)),
          take k (drop i l)).
Proof.
  revert i. induction k as [|k IH]; intros i Hik Hk Hl; [lia|].
  assert (Hne : l ≠ []) by (destruct l; [simpl in Hik; lia|done]).
  destruct (Get_RoundRobin (mkMultiServersDiscovery rd l (Z.of_nat i)))
    as (s & Hs & HG); [done|simpl; lia|].
  cbn [servers index r] in Hs, HG.
  rewrite Z.mod_small, Nat2Z.id in Hs by lia.
  cbn [MultiServersDiscovery_Gets]. rewrite HG.
  rewrite (drop_S _ _ _ Hs). cbn [take].
  destruct k as [|k].
  - cbn [MultiServersDiscovery_Gets mbind option_bind]. rewrite take_0.
    do 3 f_equal. f_equal. lia.
  - rewrite Z.mod_small by lia.
    replace (Z.of_nat i + 1) with (Z.of_nat (S i)) by lia.
    rewrite IH by lia. cbn [mbind option_bind]. do 3 f_equal. f_equal. lia.
Qed.

Lemma Gets_app (mode : SelectMode) (a b : nat) (d : MultiServersDiscovery) :
  MultiServersDiscovery_Gets mode (a + b) d
  = '(d1, l1) ← MultiServersDiscovery_Gets mode a d;
    '(d2, l2) ← MultiServersDiscovery_Gets mode b d1;
    Some (d2, l1 ++ l2).
Proof.
  revert d. induction a as [|a IH]; intros d.
  - cbn [Nat.add MultiServersDiscovery_Gets mbind option_bind].
    by destruct (MultiServersDiscovery_Gets mode b d) as [[d2 l2]|].
  - cbn [Nat.add MultiServersDiscovery_Gets].
    destruct (MultiServersDiscovery_Get mode d) as [[d1 [s [e|]]]|]; try done.
    rewrite IH.
    destruct (MultiServersDiscovery_Gets mode a d1) as [[d2 l2]|]; [|done].
    cbn [mbind option_bind].
    by destruct (MultiServersDiscovery_Gets mode b d2) as [[d3 l3]|].
Qed.

(** X13.  Round robin is fair.  As many calls of [Get] in the round-robin
    mode as the list has servers return every server once: the list from
    the position of the index (modulo the length) to its end, followed by
    the list from its start up to that position; afterwards the index is
    back at that position. *)
Theorem RoundRobin_visits_every_server (d : MultiServersDiscovery)
    (Hindex : 0 ≤ index d < 2 ^ 63 - 1)
    (Hlen : Z.of_nat (length (servers d)) < 2 ^ 63 - 1) :
  let n := length (servers d) in
  let i := Z.to_nat (index d mod Z.of_nat n) in
  MultiServersDiscovery_Gets RoundRobinSelect n d
  = Some (mkMultiServersDiscovery (r d) (servers d)
            (if decide (n = 0%nat) then index d else Z.of_nat i),
          drop i (servers d) ++ take i (servers d))
  ∧ drop i (servers d) ++ take i (servers d) ≡ₚ servers d.
Proof.
  intros n i. split; [|by rewrite Permutation_app_comm, take_drop].
  destruct (decide (n = 0%nat)) as [Hn0|Hn0].
  - unfold n in Hn0. apply length_zero_iff_nil in Hn0.
    subst n. rewrite Hn0. cbn [length MultiServersDiscovery_Gets].
    rewrite drop_nil, take_nil. by destruct d; simpl in *; subst.
  - assert (Hne : servers d ≠ []).
    { intros He. apply Hn0. unfold n. by rewrite He. }
    assert (Hn : 0 < Z.of_nat n) by lia.
    pose proof (Z.mod_pos_bound (index d) (Z.of_nat n) Hn) as Hm.
    destruct (Get_RoundRobin d Hne Hindex) as (s & Hs & HG).
    fold n in Hs, HG. fold i in Hs.
    assert (Hi : (i < n)%nat) by (unfold i; lia).
    assert (Hii : index d mod Z.of_nat n = Z.of_nat i) by (unfold i; lia).
    assert (En : length (servers d) = n) by done.
    clearbody n i. destruct n as [|m]; [done|]. clear Hn0.
    cbn [MultiServersDiscovery_Gets]. rewrite HG.
    rewrite (drop_S _ _ _ Hs).
    destruct (decide (S i = S m)) as [Hlast|Hnot].
    + (* the index is at the last server *)
      assert ((index d + 1) mod Z.of_nat (S m) = Z.of_nat 0) as ->.
      { rewrite <- Zplus_mod_idemp_l, Hii.
        replace (Z.of_nat i + 1) with (Z.of_nat (S m)) by lia.
        by rewrite Z_mod_same_full. }
      rewrite (drop_ge (servers d) (S i)) by lia.
      destruct (decide (m = 0%nat)) as [->|Hm0].
      * cbn [MultiServersDiscovery_Gets mbind option_bind].
        assert (i = 0%nat) as -> by lia. by rewrite take_0.
      * rewrite Gets_RoundRobin_run by lia.
        cbn [mbind option_bind]. rewrite drop_0, En.
        rewrite Z.mod_small by lia.
        do 3 f_equal; [lia|]. simpl. f_equal. f_equal. lia.
    + (* servers follow the index *)
      assert ((index d + 1) mod Z.of_nat (S m) = Z.of_nat (S i)) as ->.
      { rewrite <- Zplus_mod_idemp_l, Hii. rewrite Z.mod_small; lia. }
      replace m with ((m - i) + i)%nat at 1 by lia.
      rewrite Gets_app.
      rewrite Gets_RoundRobin_run by lia.
      cbn [mbind option_bind]. rewrite En.
      replace (S i + (m - i))%nat with (S m) by lia.
      rewrite Z_mod_same_full.
      rewrite (take_ge (drop (S i) (servers d)))
        by (rewrite length_drop; lia).
      destruct (decide (i = 0%nat)) as [Hi0|Hi0].
      * rewrite Hi0. cbn [MultiServersDiscovery_Gets mbind option_bind].
        by rewrite take_0.
      * change 0 with (Z.of_nat 0).
        rewrite Gets_RoundRobin_run by lia.
        cbn [mbind option_bind]. rewrite drop_0, En.
        rewrite Z.mod_small by lia. done.
Qed.

End discovery_select.

(** ** The registry: heartbeats and what the discovery reads *)
Section registry_heartbeat.
Import registry.

(** What a [GET] answers. *)
Lemma ServeHTTP_GET (r : SimpleRegistry) (now1 now2 : string → Z) x :
  let P1 := λ kv : string * ServerItem,
              alive (timeout r) (now1 kv.1) kv.2 = true in
  let P2 := λ kv : string * ServerItem,
              alive (timeout r) (now2 kv.1) kv.2 = true in
  let l := sort_Strings (filter P2 (map_to_list (filter P1 (servers r)))).*1 in
  ServeHTTP (mkRequest "GET" x) now1 now2 r
  = (mkSimpleRegistry (timeout r) (filter P2 (filter P1 (servers r))),
     mkResponse StatusOK (Some (String.concat "," l)))
  ∧ ∀ a, a ∈ l ↔ ∃ s, servers r !! a = Some s
                      ∧ alive (timeout r) (now1 a) s = true
                      ∧ alive (timeout r) (now2 a) s = true.
Proof.
  intros P1 P2 l. split.
  - unfold ServeHTTP. rewrite bool_decide_eq_true_2 by done.
    rewrite (aliveServers_spec (timeout r) now1 r) by done.
    by rewrite (aliveServers_spec (timeout r) now2) by done.
  - intros a.
    destruct (aliveServers_list (timeout r) now2 (filter P1 (servers r)))
      as (_ & _ & Hin).
    fold P2 in Hin. fold l in Hin. rewrite Hin. split.
    + intros [s Hs]. apply map_lookup_filter_Some in Hs as [Hs H2].
      apply map_lookup_filter_Some in Hs as [Hs H1]. by exists s.
    + intros (s & Hs & H1 & H2). exists s.
      apply map_lookup_filter_Some. split; [|done].
      by apply map_lookup_filter_Some.
Qed.

(** X14.  Every entry of a registry that is reached through [ServeHTTP]
    is filed under its own address, which is not empty: the new registry
    is so, and no request, whatever its method and header, changes that
    or changes the timeout. *)
Theorem registry_stays_well_keyed (ttl : Z) :
  well_keyed (New ttl)
  ∧ ∀ r req now1 now2,
      well_keyed r →
      well_keyed (ServeHTTP req now1 now2 r).1
      ∧ timeout (ServeHTTP req now1 now2 r).1 = timeout r.
Proof.
  split; [by intros k s|].
  intros r [m x] now1 now2 Hr. unfold ServeHTTP. cbn [Method X_Simplerpc_Servers].
  case_bool_decide as HG.
  - subst m. destruct (ServeHTTP_GET r now1 now2 x) as [HS _].
    unfold ServeHTTP in HS. cbn [Method] in HS.
    rewrite bool_decide_eq_true_2 in HS by done.
    destruct (aliveServers now1 r) as [r1 l1].
    destruct (aliveServers now2 r1) as [r2 l2].
    injection HS as -> _. split; [|done].
    intros k s [[Hs _]%map_lookup_filter_Some _]%map_lookup_filter_Some.
    by apply Hr.
  - case_bool_decide as HP; [|done].
    case_bool_decide as Hx; [done|]. split.
    + intros k s. cbn [fst]. unfold putServer.
      destruct (servers r !! x) as [s0|] eqn:Hs0; cbn [servers];
        (destruct (decide (k = x)) as [->|Hk];
         [rewrite lookup_insert_eq; intros [= <-]; cbn [Addr]
         |rewrite lookup_insert_ne by done; apply Hr]).
      * split; [|done]. by apply Hr in Hs0 as [? _].
      * done.
    + cbn [fst]. unfold putServer. by destruct (servers r !! x).
Qed.



End registry_heartbeat.

(** ** The discovery that reads the registry *)
Section registry_discovery_refresh.
Import xclient.
Context (TrimSpace : string → string).

Lemma concat_cons (x y : string) (l : list string) :
  String.concat "," (x :: y :: l)
  = x +:+ String ","%char (String.concat "," (y :: l)).
Proof. done. Qed.

Lemma Split_concat (l : list string) :
  l ≠ [] →
  (∀ a, a ∈ l → ¬ In ","%char (String.list_ascii_of_string a)) →
  simpleRPC.Split (String.concat "," l) ","%char = l.
Proof.
  induction l as [|x [|y l] IH]; [done| |]; intros _ Hl.
  - apply Split_no_sep, Hl, list_elem_of_here.
  - rewrite concat_cons, Split_append by apply Hl, list_elem_of_here.
    rewrite IH; [done..|]. intros a Ha. by apply Hl, list_elem_of_further.
Qed.

Lemma trimmed_servers_id (l : list string) :
  (∀ a, a ∈ l → TrimSpace a = a ∧ a ≠ "") →
  trimmed_servers TrimSpace l = l.
Proof.
  unfold trimmed_servers.
  assert (H : ∀ acc,
            (∀ a, a ∈ l → TrimSpace a = a ∧ a ≠ "") →
            foldl (λ acc server,
                     if bool_decide (TrimSpace server ≠ EmptyString)
                     then acc ++ [TrimSpace server] else acc) acc l
            = acc ++ l).
  { induction l as [|x l IH]; intros acc Hl; simpl; [by rewrite app_nil_r|].
    destruct (Hl x) as [Hx Hne]; [apply list_elem_of_here|].
    rewrite Hx, bool_decide_eq_true_2 by done.
    rewrite IH by (intros a Ha; by apply Hl, list_elem_of_further).
    by rewrite <- (assoc_L (++)). }
  apply (H []).
Qed.

(** X16.  The discovery reads what the registry wrote.  When the cached
    list is out of date, [Refresh] on the header of the registry's answer
    to a [GET] sets the list of servers to the registry's list of alive
    servers, in its order, and the time of the update to the second
    reading of the clock; this is so for addresses that have no comma and
    no space around them and are not empty. *)
Theorem Refresh_reads_registry (r : registry.SimpleRegistry)
    (now1 now2 : string → Z) (d : SimpleRegistryDiscovery) (t1 t2 : Z)
    (Hempty : TrimSpace "" = "")
    (Hkeys : ∀ a s, registry.servers r !! a = Some s →
                    a ≠ "" ∧ TrimSpace a = a
                    ∧ ¬ In ","%char (String.list_ascii_of_string a))
    (Hstale : lastUpdate d + timeout d ≤ t1) :
  let res := registry.ServeHTTP (registry.mkRequest "GET" "") now1 now2 r in
  let alive_list :=
    (registry.aliveServers now2 (registry.aliveServers now1 r).1).2 in
  ∃ header,
    registry.servers_header (res.2) = Some header
    ∧ SimpleRegistryDiscovery_Refresh TrimSpace t1 t2 (inl header) d
      = (mkSimpleRegistryDiscovery
           (mkMultiServersDiscovery (xclient.r (embedded d)) alive_list
              (index (embedded d)))
           (registry d) (timeout d) t2,
         None).
Proof.
  intros res alive_list.
  destruct (ServeHTTP_GET r now1 now2 "") as [HS Hin].
  fold res in HS.
  assert (Hl : alive_list
               = registry.sort_Strings
                   (filter (λ kv, registry.alive (registry.timeout r)
                                    (now2 kv.1) kv.2 = true)
                      (map_to_list
                         (filter (λ kv, registry.alive (registry.timeout r)
                                          (now1 kv.1) kv.2 = true)
                            (registry.servers r)))).*1).
  { unfold alive_list.
    rewrite (aliveServers_spec (registry.timeout r) now1 r) by done.
    by rewrite (aliveServers_spec (registry.timeout r) now2) by done. }
  rewrite <- Hl in HS, Hin. rewrite HS. cbn [snd registry.servers_header].
  eexists. split; [done|].
  unfold SimpleRegistryDiscovery_Refresh.
  rewrite (proj2 (Z.ltb_ge _ _)) by lia. do 3 f_equal.
  assert (Hall : ∀ a, a ∈ alive_list →
                      a ≠ "" ∧ TrimSpace a = a
                      ∧ ¬ In ","%char (String.list_ascii_of_string a)).
  { intros a (s & Hs & _)%Hin. by eapply Hkeys. }
  destruct alive_list as [|x l] eqn:El.
  - simpl. unfold trimmed_servers. simpl.
    by rewrite Hempty, bool_decide_eq_false_2 by (by intros ?).
  - rewrite Split_concat; [|done|intros a Ha; by apply Hall].
    apply trimmed_servers_id. intros a Ha. by destruct (Hall a Ha) as (?&?&?).
Qed.

(** X17.  The cache window of the discovery.  After [Update] at the time
    [t0], [Refresh], [GetAll] and [Get] do not ask the registry as long as
    the clock reads less than [t0] plus the timeout: whatever the registry
    would answer, [GetAll] returns the servers of the [Update].  From then
    on they ask: when the request fails, they return its error, and the
    discovery is left as it was. *)
Theorem discovery_cache_window (l : list string) (t0 : Z)
    (d : SimpleRegistryDiscovery) (t1 t2 : Z) (http_Get : string + string) :
  let d1 := (SimpleRegistryDiscovery_Update l t0 d).1 in
  (t1 < t0 + timeout d →
   SimpleRegistryDiscovery_Refresh TrimSpace t1 t2 http_Get d1 = (d1, None)
   ∧ SimpleRegistryDiscovery_GetAll TrimSpace t1 t2 http_Get d1
     = (d1, (l, None))
   ∧ ∀ mode, SimpleRegistryDiscovery_Get TrimSpace mode t1 t2 http_Get d1
             = '(m, res) ← MultiServersDiscovery_Get mode (embedded d1);
               Some (mkSimpleRegistryDiscovery m (registry d) (timeout d) t0,
                     res))
  ∧ (t0 + timeout d ≤ t1 →
     ∀ err mode,
       SimpleRegistryDiscovery_Refresh TrimSpace t1 t2 (inr err) d1
       = (d1, Some err)
       ∧ SimpleRegistryDiscovery_GetAll TrimSpace t1 t2 (inr err) d1
         = (d1, ([], Some err))
       ∧ SimpleRegistryDiscovery_Get TrimSpace mode t1 t2 (inr err) d1
         = Some (d1, (EmptyString, Some err))).
Proof.
  intros d1.
  assert (Hd1 : lastUpdate d1 = t0 ∧ timeout d1 = timeout d
                ∧ registry d1 = registry d
                ∧ servers (embedded d1) = l) by done.
  destruct Hd1 as (Hu & Ht & Hr & Hs). split.
  - intros Hfresh.
    assert (HR : SimpleRegistryDiscovery_Refresh TrimSpace t1 t2 http_Get d1
                 = (d1, None)).
    { unfold SimpleRegistryDiscovery_Refresh.
      by rewrite Hu, Ht, (proj2 (Z.ltb_lt _ _)) by lia. }
    split_and!; [done| |].
    + unfold SimpleRegistryDiscovery_GetAll. rewrite HR.
      unfold MultiServersDiscovery_GetAll. by rewrite Hs.
    + intros mode. unfold SimpleRegistryDiscovery_Get. rewrite HR.
      by rewrite Hu, Ht, Hr.
  - intros Hstale err mode.
    assert (HR : SimpleRegistryDiscovery_Refresh TrimSpace t1 t2 (inr err) d1
                 = (d1, Some err)).
    { unfold SimpleRegistryDiscovery_Refresh.
      by rewrite Hu, Ht, (proj2 (Z.ltb_ge _ _)) by lia. }
    split_and!; [done| |].
    + unfold SimpleRegistryDiscovery_GetAll. by rewrite HR.
    + unfold SimpleRegistryDiscovery_Get. by rewrite HR.
Qed.

(** X18.  A new discovery asks the registry first.  Its timeout is the
    one it was made with, or ten seconds for 0; its list is empty; and,
    its last update being the zero time, the first [Refresh] at any time
    since 1970 finds the cache out of date: when the registry cannot be
    reached, [Refresh] and [Get] return the error of the request. *)
Theorem new_discovery_asks_registry (registerAddr : string) (ttl : Z)
    (seeded : Rand) (d : SimpleRegistryDiscovery) (t1 t2 : Z)
    (Hnew : NewSimpleRegistryDiscovery registerAddr ttl seeded = Some d)
    (Hduration : - 2 ^ 63 ≤ ttl < 2 ^ 63) (Hclock : 0 ≤ t1) :
  timeout d = (if decide (ttl = 0) then 10 * simpleRPC.Second else ttl)
  ∧ servers (embedded d) = []
  ∧ ∀ err mode,
      SimpleRegistryDiscovery_Refresh TrimSpace t1 t2 (inr err) d
      = (d, Some err)
      ∧ SimpleRegistryDiscovery_Get TrimSpace mode t1 t2 (inr err) d
        = Some (d, (EmptyString, Some err)).
Proof.
  revert Hnew. unfold NewSimpleRegistryDiscovery, NewMultiServerDiscovery.
  destruct (Intn _ seeded) as [[i r']|]; [|done].
  cbn [mbind option_bind]. intros [= <-]. cbn [timeout embedded servers].
  assert (Ht : (if ttl =? 0 then defaultUpdateTimeout else ttl)
               = if decide (ttl = 0) then 10 * simpleRPC.Second else ttl).
  { destruct (Z.eqb_spec ttl 0), (decide (ttl = 0)); done. }
  split_and!; [done..|]. intros err mode.
  assert (HR : ∀ d, lastUpdate d = zeroTime →
                 timeout d = (if ttl =? 0 then defaultUpdateTimeout else ttl) →
                 SimpleRegistryDiscovery_Refresh TrimSpace t1 t2 (inr err) d
                 = (d, Some err)).
  { intros d Hu Hd. unfold SimpleRegistryDiscovery_Refresh.
    rewrite Hu, Hd, (proj2 (Z.ltb_ge _ _)); [done|].
    unfold zeroTime, defaultUpdateTimeout, simpleRPC.Second.
    destruct (ttl =? 0); lia. }
  split.
  - by apply HR.
  - unfold SimpleRegistryDiscovery_Get. by rewrite HR.
Qed.

End registry_discovery_refresh.

Lemma Get_selects_in_range_witness :
  xclient.MultiServersDiscovery_Get xclient.RoundRobinSelect
    examples.three_servers
  = Some (xclient.mkMultiServersDiscovery [] ["tcp@a"; "tcp@b"; "tcp@c"] 2,
          ("tcp@b", None)).
Proof.
  destruct (Get_selects_in_range xclient.RoundRobinSelect
              examples.three_servers) as (_ & HRR & _); [simpl; lia|].
  destruct (HRR ltac:(discriminate) eq_refl) as (s & Hs & HG & _).
  vm_compute in Hs. injection Hs as <-. exact HG.
Defined.

Lemma RoundRobin_visits_every_server_witness :
  xclient.MultiServersDiscovery_Gets xclient.RoundRobinSelect 3
    examples.three_servers
  = Some (xclient.mkMultiServersDiscovery [] ["tcp@a"; "tcp@b"; "tcp@c"] 1,
          ["tcp@b"; "tcp@c"; "tcp@a"]).
Proof.
  refine (proj1 (RoundRobin_visits_every_server examples.three_servers _ _));
    simpl; lia.
Defined.

Lemma registry_stays_well_keyed_witness :
  registry.well_keyed examples.two_servers.
Proof.
  destruct (registry_stays_well_keyed (300 * simpleRPC.Second))
    as [Hnew Hstep].
  exact (proj1 (Hstep _ (registry.mkRequest "POST" "tcp@b")
                  (λ _, 100 * simpleRPC.Second) (λ _, 0)
                  (proj1 (Hstep _ (registry.mkRequest "POST" "tcp@a")
                            (λ _, 0) (λ _, 0) Hnew)))).
Defined.


Lemma Refresh_reads_registry_witness :
  xclient.servers
    (xclient.embedded
       (xclient.SimpleRegistryDiscovery_Refresh (λ s, s)
          (20 * simpleRPC.Second) (21 * simpleRPC.Second)
          (inl "tcp@a,tcp@b") examples.stale_discovery).1)
  = ["tcp@a"; "tcp@b"].
Proof.
  edestruct (Refresh_reads_registry (λ s, s) examples.two_servers
               (λ _, 150 * simpleRPC.Second) (λ _, 150 * simpleRPC.Second)
               examples.stale_discovery
               (20 * simpleRPC.Second) (21 * simpleRPC.Second))
    as (header & Hh & HR); [reflexivity| |vm_compute; discriminate|].
  - intros a s Hs. apply elem_of_map_to_list in Hs. vm_compute in Hs.
    repeat (apply elem_of_cons in Hs as [Hs|Hs];
            [injection Hs as -> _; vm_compute; intuition discriminate|]).
    by apply elem_of_nil in Hs.
  - vm_compute in Hh. injection Hh as <-.
    exact (f_equal (λ x, xclient.servers (xclient.embedded x.1)) HR).
Defined.

Lemma discovery_cache_window_witness :
  xclient.SimpleRegistryDiscovery_GetAll (λ s, s)
    (25 * simpleRPC.Second) (26 * simpleRPC.Second) (inr "connection refused")
    (xclient.SimpleRegistryDiscovery_Update ["tcp@d"] (20 * simpleRPC.Second)
       examples.stale_discovery).1
  = ((xclient.SimpleRegistryDiscovery_Update ["tcp@d"] (20 * simpleRPC.Second)
        examples.stale_discovery).1,
     (["tcp@d"], None)).
Proof.
  destruct (discovery_cache_window (λ s, s) ["tcp@d"] (20 * simpleRPC.Second)
              examples.stale_discovery (25 * simpleRPC.Second)
              (26 * simpleRPC.Second) (inr "connection refused"))
    as [Hfresh _].
  destruct Hfresh as (_ & HG & _); [vm_compute; reflexivity|exact HG].
Defined.

Lemma new_discovery_asks_registry_witness :
  xclient.SimpleRegistryDiscovery_Refresh (λ s, s) 1 2
    (inr "connection refused")
    (xclient.mkSimpleRegistryDiscovery
       (xclient.mkMultiServersDiscovery [] [] 5)
       "http://localhost:9999/_simplerpc_/registry"
       xclient.defaultUpdateTimeout xclient.zeroTime)
  = (xclient.mkSimpleRegistryDiscovery
       (xclient.mkMultiServersDiscovery [] [] 5)
       "http://localhost:9999/_simplerpc_/registry"
       xclient.defaultUpdateTimeout xclient.zeroTime,
     Some "connection refused").
Proof.
  destruct (new_discovery_asks_registry (λ s, s)
              "http://localhost:9999/_simplerpc_/registry" 0 [Z.shiftl 5 32]
              (xclient.mkSimpleRegistryDiscovery
                 (xclient.mkMultiServersDiscovery [] [] 5)
                 "http://localhost:9999/_simplerpc_/registry"
                 xclient.defaultUpdateTimeout xclient.zeroTime) 1 2)
    as (_ & _ & Hask); [vm_compute; reflexivity|lia|lia|].
  exact (proj1 (Hask "connection refused" xclient.RandomSelect)).
Defined.

(** ** The server: registering services and answering requests *)
Section server_register.
Import codec simpleRPC.
Context (IsExported : string → bool).

Lemma registerMethod_lookup (methods : gmap string methodType) (m : Method)
    (nm : string) (mt : methodType) :
  registerMethod IsExported methods m !! nm = Some mt →
  methods !! nm = Some mt
  ∨ ∃ rcv arg reply out,
      Method_Name m = nm
      ∧ Method_In m = [rcv; arg; reply] ∧ Method_Out m = [out]
      ∧ is_error_type out = true
      ∧ isExportedOrBuiltinType IsExported arg = true
      ∧ isExportedOrBuiltinType IsExported reply = true
      ∧ mt = mkMethodType (Method_Func m) (rtype_new arg) (rtype_new reply) 0.
Proof.
  unfold registerMethod.
  destruct (_ || _); [by left|].
  destruct (Method_In m) as [|rcv [|arg [|reply [|x ins]]]];
    destruct (Method_Out m) as [|out [|y outs]]; cbn; try by left.
  destruct (is_error_type out) eqn:Ho; cbn; [|by left].
  destruct (isExportedOrBuiltinType IsExported arg) eqn:Ha; cbn; [|by left].
  destruct (isExportedOrBuiltinType IsExported reply) eqn:Hr; cbn;
    [|by left].
  destruct (decide (Method_Name m = nm)) as [<-|Hne].
  - rewrite lookup_insert_eq. intros [= <-]. right.
    by exists rcv, arg, reply, out.
  - rewrite lookup_insert_ne by done. by left.
Qed.

Lemma registerMethod_eligible (methods : gmap string methodType) (m : Method)
    rcv arg reply out :
  Method_In m = [rcv; arg; reply] → Method_Out m = [out] →
  is_error_type out = true →
  isExportedOrBuiltinType IsExported arg = true →
  isExportedOrBuiltinType IsExported reply = true →
  registerMethod IsExported methods m
  = <[Method_Name m := mkMethodType (Method_Func m) (rtype_new arg)
                                    (rtype_new reply) 0]> methods.
Proof.
  intros Hi Ho He Ha Hr. unfold registerMethod. rewrite Hi, Ho.
  assert (bool_decide (length [rcv; arg; reply] ≠ 3%nat)
          || bool_decide (length [out] ≠ 1%nat) = false) as -> by reflexivity.
  by rewrite He, Ha, Hr.
Qed.

Lemma registerMethod_mono (methods : gmap string methodType) (m : Method)
    (nm : string) :
  is_Some (methods !! nm) →
  is_Some (registerMethod IsExported methods m !! nm).
Proof.
  intros Hs. unfold registerMethod.
  destruct (_ || _); [done|].
  destruct (Method_Out m) as [|out [|y outs]]; try done.
  destruct (Method_In m) as [|rcv [|arg [|reply [|x ins]]]]; try done.
  destruct (negb _); [done|]. destruct (_ || _); [done|].
  destruct (decide (Method_Name m = nm)) as [<-|Hne].
  - rewrite lookup_insert_eq. by eexists.
  - by rewrite lookup_insert_ne.
Qed.

Lemma registerMethods_mono (typ : list Method)
    (methods : gmap string methodType) (nm : string) :
  is_Some (methods !! nm) →
  is_Some (foldl (registerMethod IsExported) methods typ !! nm).
Proof.
  revert methods. induction typ as [|m typ IH]; intros methods Hs; [done|].
  simpl. by apply IH, registerMethod_mono.
Qed.

(** X19.  The methods a service offers.  [registerMethods] registers a
    method under its name exactly when it has three parameters (the
    receiver, the argument and the reply) and one result, the result is
    of type [error], and the types of the argument and of the reply are
    each exported or without a package path: every registered method
    comes from such a method of the receiver, with its function, the
    values made for its argument and reply types, and a counter of calls
    at 0; and every such method of the receiver is registered. *)
Theorem registerMethods_registers_eligible (typ : list Method) :
  (∀ nm mt,
     registerMethods IsExported typ !! nm = Some mt →
     ∃ m rcv arg reply out,
       m ∈ typ ∧ Method_Name m = nm
       ∧ Method_In m = [rcv; arg; reply] ∧ Method_Out m = [out]
       ∧ is_error_type out = true
       ∧ isExportedOrBuiltinType IsExported arg = true
       ∧ isExportedOrBuiltinType IsExported reply = true
       ∧ mt = mkMethodType (Method_Func m) (rtype_new arg) (rtype_new reply) 0)
  ∧ (∀ m rcv arg reply out,
       m ∈ typ →
       Method_In m = [rcv; arg; reply] → Method_Out m = [out] →
       is_error_type out = true →
       isExportedOrBuiltinType IsExported arg = true →
       isExportedOrBuiltinType IsExported reply = true →
       is_Some (registerMethods IsExported typ !! Method_Name m)).
Proof.
  unfold registerMethods. split.
  - assert (H : ∀ methods nm mt,
              foldl (registerMethod IsExported) methods typ !! nm = Some mt →
              methods !! nm = Some mt
              ∨ ∃ m rcv arg reply out,
                  m ∈ typ ∧ Method_Name m = nm
                  ∧ Method_In m = [rcv; arg; reply] ∧ Method_Out m = [out]
                  ∧ is_error_type out = true
                  ∧ isExportedOrBuiltinType IsExported arg = true
                  ∧ isExportedOrBuiltinType IsExported reply = true
                  ∧ mt = mkMethodType (Method_Func m) (rtype_new arg)
                                      (rtype_new reply) 0).
    { induction typ as [|m typ IH]; intros methods nm mt; [by left|].
      simpl. intros [Hm|(m' & rcv & arg & reply & out & Hin & Hrest)]%IH.
      - apply registerMethod_lookup in Hm
          as [Hm|(rcv & arg & reply & out & Hrest)]; [by left|].
        right. exists m, rcv, arg, reply, out.
        split; [apply list_elem_of_here|done].
      - right. exists m', rcv, arg, reply, out.
        split; [by apply list_elem_of_further|done]. }
    intros nm mt [Hm|Hm]%H; [by rewrite lookup_empty in Hm|done].
  - generalize (∅ : gmap string methodType).
    induction typ as [|m' typ IH]; intros methods m rcv arg reply out Hin;
      [by apply elem_of_nil in Hin|].
    apply elem_of_cons in Hin as [->|Hin]; intros Hi Ho He Ha Hr; simpl.
    + apply registerMethods_mono.
      rewrite (registerMethod_eligible _ _ _ _ _ _ Hi Ho He Ha Hr).
      rewrite lookup_insert_eq. by eexists.
    + by eapply IH.
Qed.

(** X20.  Registering a service.  When [Register] succeeds, the name of
    the receiver is exported and was not registered before; afterwards
    [findService] finds under [Name.Method] the methods that
    [registerMethods] registered and reports any other method of that
    service as not found; the lookups of other services are as before;
    and registering the same receiver again fails with the error
    [rpc: service already defined:Name] and leaves the server as it
    is. *)
Theorem Register_then_findService (rcvr : Receiver) (server server' : Server)
    (HR : Register IsExported rcvr server = Some (server', None)) :
  let svc := mkService (Receiver_Name rcvr)
               (registerMethods IsExported (Receiver_Methods rcvr)) in
  IsExported (Receiver_Name rcvr) = true
  ∧ serviceMap server !! Receiver_Name rcvr = None
  ∧ (∀ b, ¬ In "."%char (String.list_ascii_of_string b) →
       findService server' (Receiver_Name rcvr +:+ "." +:+ b)
       = match method svc !! b with
         | Some mt => (Some svc, Some mt, None)
         | None => (Some svc, None,
                    Some ("rpc server: can't find method " +:+ b))
         end)
  ∧ (∀ a b, a ≠ Receiver_Name rcvr →
       ¬ In "."%char (String.list_ascii_of_string b) →
       findService server' (a +:+ "." +:+ b)
       = findService server (a +:+ "." +:+ b))
  ∧ Register IsExported rcvr server'
    = Some (server',
            Some ("rpc: service already defined:" +:+ Receiver_Name rcvr)).
Proof.
  intros svc. revert HR. unfold Register, newService.
  destruct (IsExported (Receiver_Name rcvr)) eqn:HE; [|done].
  cbn [negb mbind option_bind name]. fold svc.
  destruct (serviceMap server !! Receiver_Name rcvr) eqn:Hs; [done|].
  intros [= <-]. cbn [serviceMap]. split_and!; [done..| | |].
  - intros b Hb. rewrite findService_split by done. cbn [serviceMap].
    rewrite lookup_insert_eq. by destruct (method svc !! b).
  - intros a b Ha Hb. rewrite !findService_split by done. cbn [serviceMap].
    by rewrite lookup_insert_ne by done.
  - by rewrite lookup_insert_eq.
Qed.

End server_register.

Section server_handle.
Import codec simpleRPC.
Context {C : Type} `{!Codec C}.
Context (Duration_String : Z → string).

(** X21.  Every request is answered once.  [handleRequestWithTimeout]
    writes one response, whose header carries the service method and the
    sequence number of the request.  When the timeout is not 0 and runs
    out before the method returns, the response carries the error
    [rpc server: request handle timeout expect within <timeout>] and an
    empty body, and the reply of the method is never written.  Otherwise
    the response is the one [handleRequest] writes: the error of the
    method with an empty body, or the header of the request as it is with
    the reply of the method. *)
Theorem handleRequestWithTimeout_answers_once (cc : C) (req : request)
    (m : methodType) (timeout : Z) (timer_first : bool)
    (Hm : mtype req = Some m) :
  let out := method_Func m (argv req) (replyv req) in
  (∃ e body,
     handleRequestWithTimeout Duration_String cc req timeout timer_first
     = Some (Write (mkHeader (codec.ServiceMethod (h req)) (codec.Seq (h req)) e)
                   body cc).1)
  ∧ (timeout ≠ 0 → timer_first = true →
     handleRequestWithTimeout Duration_String cc req timeout timer_first
     = Some (Write (mkHeader (codec.ServiceMethod (h req)) (codec.Seq (h req))
                      ("rpc server: request handle timeout expect within "
                       +:+ Duration_String timeout))
                   invalidRequest cc).1)
  ∧ (timeout = 0 ∨ timer_first = false →
     handleRequestWithTimeout Duration_String cc req timeout timer_first
     = handleRequest cc req)
  ∧ handleRequest cc req
    = Some match out.2 with
           | Some e =>
               (Write (mkHeader (codec.ServiceMethod (h req))
                         (codec.Seq (h req)) e)
                      invalidRequest cc).1
           | None => (Write (h req) out.1 cc).1
           end.
Proof.
  intros out.
  assert (HH : handleRequest cc req
               = Some match out.2 with
                      | Some e =>
                          (Write (mkHeader (codec.ServiceMethod (h req))
                                    (codec.Seq (h req)) e)
                                 invalidRequest cc).1
                      | None => (Write (h req) out.1 cc).1
                      end).
  { unfold handleRequest, call. rewrite Hm. cbn [mbind option_bind].
    fold out. by destruct out as [reply [e|]]. }
  assert (HT : timeout ≠ 0 → timer_first = true →
               handleRequestWithTimeout Duration_String cc req timeout
                 timer_first
               = Some (Write (mkHeader (codec.ServiceMethod (h req))
                                (codec.Seq (h req))
                                ("rpc server: request handle timeout expect within "
                                 +:+ Duration_String timeout))
                             invalidRequest cc).1).
  { intros Hnz ->. unfold handleRequestWithTimeout.
    rewrite bool_decide_eq_false_2 by done. by rewrite Hm. }
  assert (HN : timeout = 0 ∨ timer_first = false →
               handleRequestWithTimeout Duration_String cc req timeout
                 timer_first
               = handleRequest cc req).
  { unfold handleRequestWithTimeout. intros [->| ->]; [done|].
    by rewrite andb_false_r. }
  split_and!; [|done..].
  destruct (decide (timeout = 0)) as [Hz|Hnz];
    [|destruct timer_first eqn:Htf].
  - rewrite HN, HH by (by left).
    destruct (out.2) as [e|]; [by eexists _, _|].
    exists (codec.Error (h req)), (out.1). by destruct (h req).
  - rewrite HT by done. by eexists _, _.
  - rewrite HN, HH by (by right).
    destruct (out.2) as [e|]; [by eexists _, _|].
    exists (codec.Error (h req)), (out.1). by destruct (h req).
Qed.

(** X22.  What the server does with a request whose header it read and
    whose method it found.  When the body is read, [serveCodec] writes
    nothing itself and hands the request to a handler, and the loop goes
    on; [handleRequest] then answers with what the method makes of the
    argument as read and of a new reply value: its error with an empty
    body, or its reply under the header as read.  When reading the body
    fails, the server answers with the error of the read under the
    sequence number of the request, dispatches nothing, and the loop goes
    on as well. *)
Theorem serveCodec_dispatches (server : Server) (cc cc1 cc2 : C)
    (h1 : Header) (svc : option service) (m : methodType) (a : any)
    (err : option string)
    (HR : ReadHeader cc = (cc1, (h1, None)))
    (HF : findService server (codec.ServiceMethod h1) = (svc, Some m, None))
    (HB : ReadBody (Some (newArgv m)) cc1 = (cc2, (a, err))) :
  serveCodec_iter server cc
  = match err with
    | None =>
        (cc2, Some (mkRequest h1 a (newReplyv m) (Some m) svc), true)
    | Some e =>
        ((Write (mkHeader (codec.ServiceMethod h1) (codec.Seq h1) e)
                invalidRequest cc2).1,
         None, true)
    end
  ∧ handleRequest cc2 (mkRequest h1 a (newReplyv m) (Some m) svc)
    = Some match method_Func m a (newReplyv m) with
           | (_, Some e) =>
               (Write (mkHeader (codec.ServiceMethod h1) (codec.Seq h1) e)
                      invalidRequest cc2).1
           | (reply, None) => (Write h1 reply cc2).1
           end.
Proof.
  split.
  - unfold serveCodec_iter, readRequest, readRequestHeader.
    rewrite HR, HF, HB. by destruct err.
  - unfold handleRequest, call. cbn [mtype mbind option_bind argv replyv h].
    by destruct (method_Func m a (newReplyv m)) as [reply [e|]].
Qed.

End server_handle.

(** ** The cache of clients of [XClient] *)
Section xclient_cache_clients.
Import codec simpleRPC xclient.
Context {C : Type} `{!Codec C}.
Context (new_codec : NewCodecFunc → Conn → C).
Context (Duration_String : Z → string).

Lemma Close_closing (σ : state C) : closing (client (Close σ).1) = true.
Proof.
  unfold Close. destruct (closing (client σ)) eqn:Hc; [done|].
  by destruct (codec.Close (cc (client σ))).
Qed.

Lemma Close_twice (σ : state C) : (Close (Close σ).1).1 = (Close σ).1.
Proof.
  unfold Close at 1. by rewrite Close_closing.
Qed.



(** X24.  A cached client that is no longer available is closed and
    replaced.  [dial] closes it and dials anew with the option of the
    [XClient]: when the dial fails, [dial] returns its error and the
    address is no longer cached; when it succeeds, [dial] returns a new
    client, different from the old one, and caches it for the address.
    The other addresses stay cached as they were. *)
Theorem dial_replaces_unavailable (net : string → string → Conn + string)
    (tf : bool) (rpcAddr : string) (xc : XClient) (H : gmap ref (state C))
    (Σ : gmap ref Option) (c : ref) (σ : state C)
    (Hc : clients xc !! rpcAddr = Some c) (Hσ : H !! c = Some σ)
    (Hun : IsAvailable σ = false) :
  ∃ xc' H' Σ' res,
    dial new_codec Duration_String net tf rpcAddr xc H Σ = (xc', H', Σ', res)
    ∧ H' !! c = Some (Close σ).1
    ∧ closing (client (Close σ).1) = true
    ∧ (∀ a, a ≠ rpcAddr → clients xc' !! a = clients xc !! a)
    ∧ match XDial new_codec Duration_String net tf rpcAddr [xclient.opt xc] Σ
      with
      | (_, Σ1, inr err) =>
          res = inr err ∧ Σ' = Σ1 ∧ clients xc' !! rpcAddr = None
      | (_, Σ1, inl σ1) =>
          ∃ c', res = inl c' ∧ Σ' = Σ1 ∧ c' ≠ c ∧ H !! c' = None
                ∧ clients xc' !! rpcAddr = Some c' ∧ H' !! c' = Some σ1
      end.
Proof.
  unfold dial, store. rewrite Hc, Hσ, Hun. cbn [negb].
  destruct (XDial _ _ _ _ _ _ _) as [[oc Σ1] [σ1|err]] eqn:HX.
  - set (H1 := <[c := (Close σ).1]> H).
    assert (Hne : fresh (dom H1) ≠ c).
    { intros Heq. assert (c ∈ dom H1) as Hin
        by (unfold H1; rewrite dom_insert; apply elem_of_union_l,
            elem_of_singleton; done).
      rewrite <- Heq in Hin. by apply is_fresh in Hin. }
    assert (HN : H !! fresh (dom H1) = None).
    { apply not_elem_of_dom. intros Hin.
      apply (is_fresh (dom H1)). unfold H1 at 2. rewrite dom_insert.
      by apply elem_of_union_r. }
    eexists _, _, _, _. split; [done|]. cbn [clients]. unfold store in *.
    split_and!.
    + rewrite lookup_insert_ne by done. apply lookup_insert_eq.
    + apply Close_closing.
    + intros a Ha. rewrite lookup_insert_ne by done.
      by rewrite lookup_delete_ne.
    + exists (fresh (dom H1)). split_and!; try done.
      * apply lookup_insert_eq.
      * apply lookup_insert_eq.
  - eexists _, _, _, _. split; [done|]. cbn [clients]. unfold store in *.
    split_and!.
    + apply lookup_insert_eq.
    + apply Close_closing.
    + intros a Ha. by rewrite lookup_delete_ne.
    + done.
    + done.
    + apply lookup_delete_eq.
Qed.

Lemma XClient_Close_loop (L : list (string * ref)) (m : gmap string ref)
    (H : gmap ref (state C)) :
  let res := foldl (λ (acc : gmap string ref * gmap ref (state C)) (kc : string * ref),
                      (delete kc.1 acc.1,
                       match acc.2 !! kc.2 with
                       | Some σ => <[kc.2 := (Close σ).1]> acc.2
                       | None => acc.2
                       end)) (m, H) L in
  (∀ k, res.1 !! k = if decide (k ∈ L.*1) then None else m !! k)
  ∧ (∀ c, res.2 !! c
          = (λ σ, if decide (c ∈ L.*2) then (Close σ).1 else σ) <$> H !! c).
Proof.
  revert m H. induction L as [|[k0 c0] L IH]; intros m H.
  - simpl. split.
    + intros k. destruct (decide (k ∈ [])) as [Hin|_]; [|done].
      by apply elem_of_nil in Hin.
    + intros c. destruct (decide (c ∈ [])) as [Hin|_].
      * by apply elem_of_nil in Hin.
      * by destruct (H !! c).
  - cbn [foldl fst snd].
    destruct (IH (delete k0 m)
                 (match H !! c0 with
                  | Some σ => <[c0 := (Close σ).1]> H
                  | None => H
                  end)) as [IH1 IH2].
    split.
    + intros k. rewrite IH1. cbn [fmap list_fmap fst].
      destruct (decide (k ∈ L.*1)) as [Hin|Hnin].
      * rewrite decide_True; [done|]. by apply elem_of_cons; right.
      * destruct (decide (k = k0)) as [->|Hk].
        -- rewrite lookup_delete_eq. rewrite decide_True; [done|].
           apply elem_of_cons. by left.
        -- rewrite lookup_delete_ne by done. rewrite decide_False; [done|].
           intros [?|?]%elem_of_cons; done.
    + intros c. rewrite IH2. cbn [fmap list_fmap snd].
      destruct (decide (c = c0)) as [->|Hc].
      * destruct (H !! c0) as [σ|] eqn:Hσ.
        -- rewrite lookup_insert_eq. cbn [fmap option_fmap option_map].
           rewrite (decide_True (P := c0 ∈ c0 :: L.*2))
             by (apply elem_of_cons; by left).
           destruct (decide (c0 ∈ L.*2)); [by rewrite Close_twice|done].
        -- by rewrite Hσ.
      * assert (Hl : match H !! c0 with
                     | Some σ => <[c0 := (Close σ).1]> H
                     | None => H
                     end !! c = H !! c).
        { destruct (H !! c0); [by rewrite lookup_insert_ne|done]. }
        rewrite Hl. destruct (H !! c) as [σ|]; [|done].
        cbn [fmap option_fmap option_map]. f_equal.
        destruct (decide (c ∈ L.*2)) as [Hin|Hnin].
        -- rewrite decide_True; [done|]. apply elem_of_cons. by right.
        -- rewrite decide_False; [done|]. intros [?|?]%elem_of_cons; done.
Qed.

(** X25.  [XClient.Close] empties the cache and closes every cached
    client: afterwards no address is cached, every client that was cached
    is closing, so that it is not available any more and registers no
    further call, and the clients that were not cached are as they were.
    It returns no error. *)
Theorem XClient_Close_closes_all (xc : XClient) (H : gmap ref (state C)) :
  let res := XClient_Close xc H in
  clients res.1.1 = ∅
  ∧ xclient.opt res.1.1 = xclient.opt xc
  ∧ res.2 = None
  ∧ (∀ a c σ, clients xc !! a = Some c → H !! c = Some σ →
       res.1.2 !! c = Some (Close σ).1
       ∧ IsAvailable (Close σ).1 = false)
  ∧ (∀ c, (∀ a, clients xc !! a ≠ Some c) → res.1.2 !! c = H !! c).
Proof.
  intros res. unfold res, XClient_Close, store.
  destruct (XClient_Close_loop (map_to_list (clients xc)) (clients xc) H)
    as [H1 H2].
  destruct (foldl _ _ _) as [clients' H'] eqn:Hf. cbn [fst snd] in *.
  cbn [clients xclient.opt]. split_and!; [|done..| |].
  - apply map_eq. intros k. rewrite H1, lookup_empty.
    destruct (decide _) as [|Hnin]; [done|].
    destruct (clients xc !! k) as [c|] eqn:Hc; [|done].
    exfalso. apply Hnin. apply list_elem_of_fmap. exists (k, c).
    split; [done|]. by apply elem_of_map_to_list.
  - intros a c σ Hc Hσ. split.
    + rewrite H2, Hσ. cbn [fmap option_fmap option_map].
      rewrite decide_True; [done|]. apply list_elem_of_fmap. exists (a, c).
      split; [done|]. by apply elem_of_map_to_list.
    + unfold IsAvailable. rewrite Close_closing. apply andb_false_r.
  - intros c Hc. rewrite H2. destruct (H !! c) as [σ|]; [|done].
    cbn [fmap option_fmap option_map]. f_equal.
    rewrite decide_False; [done|].
    intros [[a c'] [-> Hin%elem_of_map_to_list]]%list_elem_of_fmap.
    by apply (Hc a).
Qed.

End xclient_cache_clients.

Lemma registerMethods_registers_eligible_witness :
  is_Some (simpleRPC.registerMethods examples.is_exported
             (simpleRPC.Receiver_Methods examples.Foo_receiver) !! "Sum").
Proof.
  apply (proj2 (registerMethods_registers_eligible examples.is_exported
                  (simpleRPC.Receiver_Methods examples.Foo_receiver))
           examples.Sum_method examples.Foo_type examples.Args_type
           examples.int_pointer_type examples.error_type);
    [apply list_elem_of_further, list_elem_of_here|reflexivity..].
Defined.

Lemma Register_then_findService_witness :
  ∃ server',
    simpleRPC.Register examples.is_exported examples.Foo_receiver
      (simpleRPC.mkServer ∅)
    = Some (server', None)
    ∧ simpleRPC.Register examples.is_exported examples.Foo_receiver server'
      = Some (server', Some "rpc: service already defined:Foo").
Proof.
  eexists. split; [vm_compute; reflexivity|].
  eapply (Register_then_findService examples.is_exported
            examples.Foo_receiver (simpleRPC.mkServer ∅)).
  vm_compute. reflexivity.
Defined.

Lemma handleRequestWithTimeout_answers_once_witness :
  simpleRPC.handleRequestWithTimeout examples.ten_seconds
    examples.Foo_Sum_stream examples.Sum_request (10 * simpleRPC.Second) true
  = Some (codec.mkScripted
            (codec.incoming examples.Foo_Sum_stream)
            [(codec.mkHeader "Foo.Sum" 6
                "rpc server: request handle timeout expect within 10s",
              simpleRPC.invalidRequest)]
            None 0).
Proof.
  edestruct (handleRequestWithTimeout_answers_once examples.ten_seconds
               examples.Foo_Sum_stream examples.Sum_request
               examples.Sum_methodType (10 * simpleRPC.Second) true)
    as (_ & Htimeout & _); [reflexivity|].
  apply (Htimeout ltac:(unfold simpleRPC.Second; lia) eq_refl).
Defined.

Lemma serveCodec_dispatches_witness :
  simpleRPC.serveCodec_iter examples.Foo_server examples.Foo_Sum_stream
  = (codec.mkScripted [] [] None 0,
     Some (simpleRPC.mkRequest (codec.mkHeader "Foo.Sum" 6 "") (AnyInt 2)
             (AnyInt 0)
             (Some (simpleRPC.mkMethodType (λ a _, (a, None)) AnyNil
                      (AnyInt 0) 0))
             (simpleRPC.serviceMap examples.Foo_server !! "Foo")),
     true).
Proof.
  destruct (serveCodec_dispatches examples.Foo_server
              examples.Foo_Sum_stream
              (codec.mkScripted
                 [codec.mkItem (codec.zeroHeader, Some "type mismatch")
                               (AnyInt 2, None)] [] None 0)
              (codec.mkScripted [] [] None 0)
              (codec.mkHeader "Foo.Sum" 6 "")
              (simpleRPC.serviceMap examples.Foo_server !! "Foo")
              (simpleRPC.mkMethodType (λ a _, (a, None)) AnyNil (AnyInt 0) 0)
              (AnyInt 2) None) as [Hiter _]; [vm_compute; reflexivity..|].
  exact Hiter.
Defined.


Lemma dial_replaces_unavailable_witness :
  ∃ xc' H' Σ' res,
    xclient.dial examples.scripted_codec examples.ten_seconds
      examples.no_network true "tcp@a" examples.cached_xclient
      examples.closed_store examples.two_options
    = (xc', H', Σ', res)
    ∧ ∀ a, a ≠ "tcp@a" →
           xclient.clients xc' !! a
           = xclient.clients examples.cached_xclient !! a.
Proof.
  edestruct (dial_replaces_unavailable examples.scripted_codec
               examples.ten_seconds examples.no_network true "tcp@a"
               examples.cached_xclient examples.closed_store
               examples.two_options 0%nat)
    as (xc' & H' & Σ' & res & Hd & _ & _ & Hother & _);
    [vm_compute; reflexivity..|].
  by exists xc', H', Σ', res.
Defined.

Lemma XClient_Close_closes_all_witness :
  xclient.clients
    (xclient.XClient_Close examples.cached_xclient examples.open_store).1.1
  = ∅.
Proof.
  apply (XClient_Close_closes_all examples.cached_xclient
           examples.open_store).
Defined.

(** ** Dialing: the codec and the handshake *)
Section dial_handshake.
Import codec simpleRPC.
Context {C : Type} `{!Codec C}.
Context (new_codec : NewCodecFunc → Conn → C).

Lemma NewCodecFuncMap_lookup (t : Type_) :
  NewCodecFuncMap !! t = if decide (t = GobType) then Some NewGobCodec else None.
Proof.
  unfold NewCodecFuncMap. destruct (decide (t = GobType)) as [->|Hne].
  - apply lookup_insert_eq.
  - by rewrite lookup_insert_ne, lookup_empty.
Qed.

(** The option [parseOptions] returns is in the store. *)
Lemma parseOptions_lookup (Σ Σ1 : gmap ref Option) opts (o : ref) :
  Σ !! DefaultOption = Some DefaultOption_value →
  (∀ o, Some o ∈ opts → is_Some (Σ !! o)) →
  parseOptions opts Σ = (Σ1, inl o) →
  Σ1 !! o = Some (deref Σ1 o).
Proof.
  intros HD Hwf Hp.
  assert (is_Some (Σ1 !! o)) as [v Hv]; [|by unfold deref; rewrite Hv].
  revert Hp. destruct opts as [|[o'|] rest].
  - intros [= <- <-]. by eexists.
  - destruct rest as [|x rest]; [|done].
    destruct (Hwf o') as [v Hv]; [apply list_elem_of_here|].
    rewrite (parseOptions_single _ _ _ HD Hv). intros [= <- <-].
    rewrite lookup_insert_eq. by eexists.
  - intros [= <- <-]. by eexists.
Qed.

(** X26.  Only the gob codec can be used.  For an option that names a
    codec other than the gob codec (such as the JSON type the package
    declares), [Dial] fails with the error [invalid codec type <type>]:
    it writes nothing on the connection and closes it, and the option is
    left as [parseOptions] made it.  A server would refuse such an option
    as well. *)
Theorem Dial_unsupported_codec (conn : Conn) (o : ref) (v : Option)
    (Σ : gmap ref Option)
    (HD : Σ !! DefaultOption = Some DefaultOption_value)
    (Hv : Σ !! o = Some v)
    (Hnamed : Option_CodecType v ≠ "")
    (Hgob : Option_CodecType v ≠ GobType) :
  Dial new_codec (inl conn) [Some o] Σ
  = (Some (conn_Close conn), <[o := parsed v]> Σ,
     inr ("invalid codec type " +:+ Option_CodecType v))
  ∧ written (conn_Close conn) = written conn
  ∧ ServeConn_handshake (parsed v, None) = Rejected.
Proof.
  assert (Hp : Option_CodecType (parsed v) = Option_CodecType v).
  { unfold parsed. cbn [Option_CodecType].
    by rewrite bool_decide_eq_false_2 by done. }
  split_and!; [|done|].
  - unfold Dial. rewrite (parseOptions_single _ _ _ HD Hv).
    assert (Hd : deref (<[o := parsed v]> Σ) o = parsed v)
      by (unfold deref; by rewrite lookup_insert_eq).
    unfold NewClient. rewrite Hd, Hp, NewCodecFuncMap_lookup.
    by rewrite decide_False by done.
  - unfold ServeConn_handshake.
    rewrite bool_decide_eq_false_2 by (by intros ?).
    rewrite Hp, NewCodecFuncMap_lookup. by rewrite decide_False by done.
Qed.

(** X27.  The handshake of a client with this server.  When the option
    is encoded and the peer answers as [ServeConn] does, by echoing the
    option it accepted, [Dial] writes the option that [parseOptions]
    returned and nothing else, leaves the connection open and the options
    as [parseOptions] made them, and returns a new client on the codec
    the server chose, with its counter at 1 and no call pending. *)
Theorem Dial_handshake (conn : Conn) (opts : list (option ref))
    (Σ Σ1 : gmap ref Option) (o : ref) (f : NewCodecFunc) (v : Option)
    (HD : Σ !! DefaultOption = Some DefaultOption_value)
    (Hwf : ∀ o, Some o ∈ opts → is_Some (Σ !! o))
    (Hp : parseOptions opts Σ = (Σ1, inl o))
    (Henc : encode_error conn = None)
    (Hserver : ServeConn_handshake (deref Σ1 o, None) = Accepted f v)
    (Hecho : echo conn = (v, None)) :
  let conn1 := conn_write (WireOption (deref Σ1 o)) conn in
  Dial new_codec (inl conn) opts Σ
  = (Some conn1, Σ1, inl (newClientCodec (new_codec f conn1) o))
  ∧ conn_closed conn1 = conn_closed conn
  ∧ seq (client (newClientCodec (new_codec f conn1) o)) = 1
  ∧ pending (client (newClientCodec (new_codec f conn1) o)) = ∅.
Proof.
  intros conn1. split_and!; [|done..].
  revert Hserver. unfold ServeConn_handshake.
  case_bool_decide; [done|].
  destruct (NewCodecFuncMap !! _) as [f'|] eqn:Hf; [|done].
  intros [= -> <-].
  unfold Dial. rewrite Hp. unfold NewClient. rewrite Hf, Henc.
  fold conn1. assert (echo conn1 = (deref Σ1 o, None)) as -> by done.
  by rewrite (insert_id _ _ _ (parseOptions_lookup _ _ _ _ HD Hwf Hp)).
Qed.

End dial_handshake.

Lemma Dial_unsupported_codec_witness :
  simpleRPC.Dial examples.scripted_codec
    (inl (examples.http_conn simpleRPC.DefaultOption_value)) [Some 1%nat]
    (<[1%nat := simpleRPC.mkOption 0 codec.JsonType 0 0]> examples.two_options)
  = (Some (simpleRPC.conn_Close
             (examples.http_conn simpleRPC.DefaultOption_value)),
     <[1%nat := simpleRPC.parsed (simpleRPC.mkOption 0 codec.JsonType 0 0)]>
       (<[1%nat := simpleRPC.mkOption 0 codec.JsonType 0 0]>
          examples.two_options),
     inr "invalid codec type application/json").
Proof.
  apply (Dial_unsupported_codec examples.scripted_codec
           (examples.http_conn simpleRPC.DefaultOption_value) 1%nat
           (simpleRPC.mkOption 0 codec.JsonType 0 0));
    [reflexivity|reflexivity|discriminate|discriminate].
Defined.

Lemma Dial_handshake_witness :
  simpleRPC.Dial examples.scripted_codec
    (inl (examples.http_conn simpleRPC.DefaultOption_value)) []
    examples.two_options
  = (Some (simpleRPC.conn_write
             (simpleRPC.WireOption simpleRPC.DefaultOption_value)
             (examples.http_conn simpleRPC.DefaultOption_value)),
     examples.two_options,
     inl (simpleRPC.newClientCodec (codec.mkScripted [] [] None 0)
            simpleRPC.DefaultOption)).
Proof.
  assert (Hwf : ∀ o : ref, Some o ∈ [] →
                  is_Some (examples.two_options !! o)).
  { intros o Ho. by apply elem_of_nil in Ho. }
  apply (Dial_handshake examples.scripted_codec
           (examples.http_conn simpleRPC.DefaultOption_value) []
           examples.two_options examples.two_options simpleRPC.DefaultOption
           codec.NewGobCodec simpleRPC.DefaultOption_value eq_refl Hwf);
    reflexivity.
Defined.
